(** * batgizmo native pipeline: a shallow embedding of nativeusb.cpp and
      pipeline.cpp, and the properties of the capture, audio and rendering
      code that the specification states.

    Conventions of the embedding.
    - C integers are [Z]; a conversion to a narrower type is written out with
      [wrap] (two's complement), and the theorems show where it is the
      identity.
    - A [float] value is the rational [Q] it denotes.  The arithmetic of the
      transform and of the colour mapping rounds to binary32 after every
      operation ([binary32], from the standard library's [SpecFloat]); the
      entries of the reference table are computed in binary64 ([PrimFloat]);
      the decimation factor is computed exactly and checked against
      binary64; comparisons and the multiplication by the window, which the
      model takes as a parameter, need no rounding of their own.  Library
      functions on floats that are not part of the repository (kiss_fftr,
      log2, cos) are parameters of the functions that call them.
    - Buffers are lists, read with [rd] and written with stdpp's list insert;
      a loop [for (i = 0; i < n; i++)] is a structural recursion on [n].
    - The static variables of a translation unit are the fields of a record
      that each entry point takes and returns. *)

From Stdlib Require Import ZArith QArith Qround Qabs Lia List Bool.
From Stdlib Require Import PrimFloat FloatOps SpecFloat Uint63.
From stdpp Require Import base list.

Local Open Scope Z_scope.

(* ===================================================================== *)
(** * Part I: the model                                                    *)
(* ===================================================================== *)

(** ** Machine integers *)
Module MachineInt.

(** Two's-complement reduction of [z] to a signed [w]-bit integer. *)
Definition wrap (w : Z) (z : Z) : Z := (z + 2 ^ (w - 1)) mod 2 ^ w - 2 ^ (w - 1).

Definition to_int16 : Z -> Z := wrap 16.
Definition to_int32 : Z -> Z := wrap 32.
Definition to_int64 : Z -> Z := wrap 64.
(** [uint16_t]: reduction modulo 2^16. *)
Definition to_uint16 (z : Z) : Z := z mod 2 ^ 16.

Definition INT16_MAX : Z := 32767.
Definition INT16_MIN : Z := -32768.
Definition INT32_MAX : Z := 2147483647.
Definition INT32_MIN : Z := -2147483648.

Definition in_int16 (z : Z) : Prop := INT16_MIN <= z <= INT16_MAX.
Definition in_int32 (z : Z) : Prop := INT32_MIN <= z <= INT32_MAX.

(** Reading a buffer cell; a cell outside the modelled memory reads as 0. *)
Definition rd (l : list Z) (i : nat) : Z := default 0 (l !! i).

(** [lround] on an exact value: nearest integer, halfway cases away from 0. *)
Definition lround (q : Q) : Z :=
  if Qle_bool 0 q then Qfloor (q + (1 # 2)) else Qceiling (q - (1 # 2)).

(** The same two operations on binary64 values, for checking the exact
    model against the hardware arithmetic: [(double) z] for an [int] and
    [lround] of a double (0 stands for the results C leaves unspecified). *)
Definition double_of_int (z : Z) : float :=
  if z <? 0 then PrimFloat.opp (PrimFloat.of_uint63 (Uint63.of_Z (- z)))
  else PrimFloat.of_uint63 (Uint63.of_Z z).

Definition lround_double (f : float) : Z :=
  match Prim2SF f with
  | S754_finite s m e =>
      let v := if 0 <=? e then Z.pos m * 2 ^ e
               else (2 * Z.pos m + 2 ^ (- e)) / 2 ^ (- e + 1) in
      if s then - v else v
  | _ => 0
  end.

(** [static_cast<int>] of a float: truncation toward zero.  For a value
    outside [int] the C++ standard leaves the result undefined; the
    conversion instruction of the ARM targets saturates, and so does this
    definition.  The theorems that state which table entry is read assume
    that the value lies within [int] ([cast_defined]). *)
Definition Qtrunc (q : Q) : Z := Z.quot (Qnum q) (Z.pos (Qden q)).
Definition float_to_int (q : Q) : Z :=
  let t := Qtrunc q in
  if t >? INT32_MAX then INT32_MAX else if t <? INT32_MIN then INT32_MIN else t.

(** *** Single- and double-precision rounding.

    A [float] value is the rational it denotes, and an operation on floats is
    the exact operation followed by the rounding of IEEE 754 binary32 (to
    nearest, ties to even, with subnormals and underflow to 0), which is the
    standard library's [SpecFloat] division of the numerator by the
    denominator.  A rational cannot be an infinity: a result beyond the
    largest float is kept as +-2^128 and [finite32] tells it apart; the
    theorems that state values assume that no operation overflows and that
    no divisor is 0. *)
Definition Z2SF (z : Z) : spec_float :=
  match z with
  | Z0 => S754_zero false
  | Zpos m => S754_finite false m 0
  | Zneg m => S754_finite true m 0
  end.

Definition round_to (prec emax : Z) (q : Q) : spec_float :=
  SFdiv prec emax (Z2SF (Qnum q)) (Z2SF (Z.pos (Qden q))).

Definition SF2Q (f : spec_float) : Q :=
  match f with
  | S754_finite s m e =>
      let sm := if s then Z.neg m else Z.pos m in
      match e with
      | Zneg k => Qmake sm (2 ^ k)%positive
      | _ => inject_Z (sm * 2 ^ e)
      end
  | S754_infinity s => inject_Z (if s then - 2 ^ 128 else 2 ^ 128)
  | _ => 0%Q
  end.

Definition binary32 (q : Q) : Q := Qred (SF2Q (round_to 24 128 q)).

Definition fadd32 (a b : Q) : Q := binary32 (a + b).
Definition fsub32 (a b : Q) : Q := binary32 (a - b).
Definition fmul32 (a b : Q) : Q := binary32 (a * b).
Definition fdiv32 (a b : Q) : Q := binary32 (a / b).

Definition finite32 (q : Q) : bool := negb (Qle_bool (inject_Z (2 ^ 128)) (Qabs q)).

(** A decimal constant of the source as the nearest [double], and the
    conversion of a [double] to an integer type: truncation toward zero. *)
Definition double_of_decimal (q : Q) : float := SF2Prim (round_to 53 1024 q).

Definition trunc_double (f : float) : Z :=
  match Prim2SF f with
  | S754_finite s m e =>
      let v := if 0 <=? e then Z.pos m * 2 ^ e else Z.pos m / 2 ^ (- e) in
      if s then - v else v
  | _ => 0
  end.

End MachineInt.
Import MachineInt.

(** ** nativeusb.cpp *)
Module NativeUSB.

Definition MAX_CHANNELS : Z := 2.
Definition MAX_SAMPLES_PER_FRAME : Z := 384 + 1.
Definition URBS_PER_SECOND : Z := 40.
Definition URBS_TO_JUGGLE : Z := 10.
Definition PACKETS_PER_URB : Z := 1000 / URBS_PER_SECOND.
Definition MAX_DATA_POINTS_PER_URB : Z := MAX_SAMPLES_PER_FRAME * MAX_CHANNELS * PACKETS_PER_URB.
Definition TARGET_AUDIO_OUT_RATE : Z := 48000.
Definition CANARY_DATA_VALUE : Z := to_int16 64206.  (* (data_t) 0xFACE *)
Definition MAX_REFERENCE_LEN : Z := 512.
Definition DOWNSAMPLING_AA_CUTOFF_HZ : Z := 3000.
Definition DOWNSAMPLING_AA_STAGES : nat := 4.

(** *** Audio parameters fixed at capture start (stream, lines 213 and 241-245).

    [(double) sample_rate / TARGET_AUDIO_OUT_RATE] is the exact quotient here.
    The double quotient is the correctly rounded one; for 32-bit operands a
    quotient that is not exactly k + 1/2 lies at least 1/96000 from it, while
    doubles below 2^16 are 2^-37 apart or closer, so [lround] of the double
    and of the exact quotient agree ([decimation_lround_double] below is the
    binary64 computation, compared with this one at the halfway points).
    The result of [lround] is stored in an [int]; the division of two [int]s
    truncates ([Z.quot]). *)
Record audio_params := {
  ap_nominal_samples_per_frame : Z;
  ap_decimation_factor : Z;
  ap_audio_out_rate : Z
}.

Definition stream_audio_params (sample_rate : Z) : audio_params :=
  let d := to_int32 (lround (inject_Z sample_rate / inject_Z TARGET_AUDIO_OUT_RATE)) in
  let d := if d =? 0 then 1 else d in
  {| ap_nominal_samples_per_frame := Z.quot sample_rate 1000;
     ap_decimation_factor := d;
     ap_audio_out_rate := Z.quot sample_rate d |}.

(** Line 241 in binary64 arithmetic. *)
Definition decimation_lround_double (sample_rate : Z) : Z :=
  lround_double (PrimFloat.div (double_of_int sample_rate) (double_of_int TARGET_AUDIO_OUT_RATE)).

(** The rates around the first [count] halfway points of the rounding from
    [k]: 48000 k + 24000 and its two neighbours. *)
Fixpoint halfway_rates (count : nat) (k : Z) : list Z :=
  match count with
  | O => []
  | S count' =>
      let t := 48000 * k + 24000 in
      (t - 1) :: t :: (t + 1) :: halfway_rates count' (k + 1)
  end.

(** The specification's wording of the same two quantities:
    [decimation_factor = max(1, round(R/T))], [output_rate = R / decimation_factor],
    with [round] the nearest integer (halves upwards) and [/] on integers. *)
Definition spec_round (q : Q) : Z := Qfloor (q + (1 # 2)).
Definition spec_decimation_factor (R T : Z) : Z :=
  Z.max 1 (spec_round (inject_Z R / inject_Z T)).
Definition spec_output_rate (R d : Z) : Z := R / d.

(** *** Channel merge of a reaped transfer (stream, lines 373-380).

    [pData] is the memory that starts at the slot's first sample.  The loop
    runs [i] over all [actual_samples_read] values, so it reads pairs up to
    index [2 * actual_samples_read - 1]; only the first half of what it writes
    is counted afterwards.  [>> 1] on a negative [int] is the arithmetic
    shift, [Z.shiftr]. *)
Fixpoint merge_loop (count : nat) (i : nat) (pData : list Z) : list Z :=
  match count with
  | O => pData
  | S count' =>
      let j := (2 * i)%nat in
      let v := to_int16 (Z.shiftr (to_int32 (rd pData j + rd pData (S j))) 1) in
      merge_loop count' (S i) (<[i := v]> pData)
  end.

Definition merge_stereo (pData : list Z) (actual_samples_read : Z) : list Z * Z :=
  (merge_loop (Z.to_nat actual_samples_read) 0 pData, Z.shiftr actual_samples_read 1).

(** What one iteration stores at index [i], as a function of the buffer
    before the loop. *)
Definition merged_at (b : list Z) (i : nat) : Z :=
  to_int16 (Z.shiftr (to_int32 (rd b (2 * i) + rd b (S (2 * i)))) 1).

(** The left/right sample pairs as they lie in the buffer. *)
Fixpoint interleave (pairs : list (Z * Z)) : list Z :=
  match pairs with
  | [] => []
  | (l, r) :: ps => l :: r :: interleave ps
  end.

(** The mean of a pair, rounded toward zero (the specification's wording)
    and rounded down (what an arithmetic shift computes). *)
Definition spec_mean_toward_zero (p : Z * Z) : Z := Z.quot (fst p + snd p) 2.
Definition mean_floor (p : Z * Z) : Z := (fst p + snd p) / 2.

(** *** Ring export (copyURBBufferData, lines 504-542).

    [for (i = 0; i < count; i++) *pTarget++ = *pSource++;] with [si] and [ti]
    the positions of the two pointers in the source and in the target array. *)
Fixpoint copy_loop (count : nat) (pSource : list Z) (si : nat)
    (pBuffer : list Z) (ti : nat) : list Z :=
  match count with
  | O => pBuffer
  | S count' => copy_loop count' pSource (S si) (<[ti := rd pSource si]> pBuffer) (S ti)
  end.

(** [target_buffer] is [None] for a null array; the result is the array as
    released and the return code. *)
Definition copyURBBufferData (pSource : list Z) (source_samples : Z)
    (target_buffer : option (list Z)) (target_buffer_offset target_buffer_size : Z)
    : option (list Z) * Z :=
  match target_buffer with
  | None => (None, -1)
  | Some pBuffer =>
      let samples_to_copy := source_samples in
      let part1Space := target_buffer_size - target_buffer_offset in
      let part1Count := if samples_to_copy >? part1Space then part1Space else samples_to_copy in
      let pBuffer1 :=
        copy_loop (Z.to_nat part1Count) pSource 0 pBuffer (Z.to_nat target_buffer_offset) in
      let samples_to_copy1 := samples_to_copy - part1Count in
      if samples_to_copy1 >? 0 then
        let part2Required := samples_to_copy1 in
        let part2Count :=
          if part2Required >? target_buffer_size then target_buffer_size else part2Required in
        let pBuffer2 :=
          copy_loop (Z.to_nat part2Count) pSource (Z.to_nat part1Count) pBuffer1 0 in
        let samples_to_copy2 := samples_to_copy1 - part2Count in
        (Some pBuffer2, source_samples - samples_to_copy2)
      else (Some pBuffer1, source_samples - samples_to_copy1)
  end.

(** *** The static data of the audio path. *)
Record audio_state := {
  s_nominal_samples_per_frame : Z;
  s_android_stream : bool;            (* true: a stream is open; false: nullptr *)
  s_decimation_factor : Z;
  s_reference_data : list Z;          (* MAX_REFERENCE_LEN + CANARY_COUNT cells *)
  s_reference_len : Z;
  s_reference1_index : Z;
  s_reference2_index : Z;
  s_heterodyne1_kHz : Z;
  s_heterodyne2_kHz : Z;
  s_audio_boost_shift : Z;
  s_downsampling_iir_coefficient : Z;
  s_downsampling_filter_state : list Z   (* previous[DOWNSAMPLING_AA_STAGES] *)
}.

(** Static storage is zero-initialised. *)
Definition initial_audio_state : audio_state :=
  {| s_nominal_samples_per_frame := 0;
     s_android_stream := false;
     s_decimation_factor := 0;
     s_reference_data := replicate (Z.to_nat (MAX_REFERENCE_LEN + 1)) 0;
     s_reference_len := 0;
     s_reference1_index := 0;
     s_reference2_index := 0;
     s_heterodyne1_kHz := 0;
     s_heterodyne2_kHz := 0;
     s_audio_boost_shift := 0;
     s_downsampling_iir_coefficient := 0;
     s_downsampling_filter_state := replicate DOWNSAMPLING_AA_STAGES 0 |}.

(** What [stream] stores before it starts juggling transfers (lines 213-246).
    A frame size outside 1..MAX_SAMPLES_PER_FRAME is logged, and streaming
    goes on.  [iir_coefficient] is the value of [calculate_iir_coefficient],
    a double-precision computation that is not modelled. *)
Definition stream_setup (st : audio_state) (sample_rate iir_coefficient : Z) : audio_state :=
  let p := stream_audio_params sample_rate in
  {| s_nominal_samples_per_frame := ap_nominal_samples_per_frame p;
     s_android_stream := s_android_stream st;
     s_decimation_factor := ap_decimation_factor p;
     s_reference_data := s_reference_data st;
     s_reference_len := s_reference_len st;
     s_reference1_index := s_reference1_index st;
     s_reference2_index := s_reference2_index st;
     s_heterodyne1_kHz := s_heterodyne1_kHz st;
     s_heterodyne2_kHz := s_heterodyne2_kHz st;
     s_audio_boost_shift := s_audio_boost_shift st;
     s_downsampling_iir_coefficient := iir_coefficient;
     s_downsampling_filter_state := s_downsampling_filter_state st |}.

(** *** startAudio (lines 598-650). *)

(** The outcome of the AAudio calls of [start_audio_output] is an input. *)
Inductive aaudio_outcome :=
  | CreateBuilderFailed | OpenStreamFailed | RequestStartFailed | StreamStarted.

(** (stream left in [s_android_stream], return value). *)
Definition start_audio_output (o : aaudio_outcome) : bool * bool :=
  match o with
  | CreateBuilderFailed => (false, false)
  | OpenStreamFailed => (false, false)
  | RequestStartFailed => (true, false)
  | StreamStarted => (true, true)
  end.

Section ReferenceTable.
(** [cos_sample i n] stands for [(int16_t) (cos(i * pi2 / n) * 0x7FFE)] with
    [pi2 = 3.1415927 * 2], computed in double precision. *)
Variable cos_sample : Z -> Z -> Z.

(** [for (i = 0; i < n; i++) s_reference_data[i] = cos(x) * 0x7FFE;] *)
Fixpoint fill_reference (n : Z) (count : nat) (i : nat) (data : list Z) : list Z :=
  match count with
  | O => data
  | S count' =>
      fill_reference n count' (S i) (<[i := cos_sample (Z.of_nat i) n]> data)
  end.

(** The loop, then [s_reference_data[i] = CANARY_DATA_VALUE] with [i] as the
    loop left it. *)
Definition generate_reference (n : Z) (data : list Z) : list Z :=
  <[Z.to_nat n := CANARY_DATA_VALUE]> (fill_reference n (Z.to_nat n) 0 data).

Definition startAudio (st : audio_state)
    (audio_device_id heterodyne1_kHz heterodyne2_kHz audio_boost_shift : Z)
    (o : aaudio_outcome) : audio_state * bool :=
  (* downsampling_filter_reset(); stop_audio_output(); *)
  let filter0 := replicate DOWNSAMPLING_AA_STAGES 0 in
  let n := s_nominal_samples_per_frame st in
  let n := if n >? MAX_REFERENCE_LEN then MAX_REFERENCE_LEN else n in
  if (heterodyne1_kHz >? n) || (heterodyne2_kHz >? n) then
    ({| s_nominal_samples_per_frame := s_nominal_samples_per_frame st;
        s_android_stream := false;
        s_decimation_factor := s_decimation_factor st;
        s_reference_data := s_reference_data st;
        s_reference_len := s_reference_len st;
        s_reference1_index := s_reference1_index st;
        s_reference2_index := s_reference2_index st;
        s_heterodyne1_kHz := s_heterodyne1_kHz st;
        s_heterodyne2_kHz := s_heterodyne2_kHz st;
        s_audio_boost_shift := s_audio_boost_shift st;
        s_downsampling_iir_coefficient := s_downsampling_iir_coefficient st;
        s_downsampling_filter_state := filter0 |}, false)
  else
    let rebuild := negb (n =? s_reference_len st) in
    let '(stream, rc) := start_audio_output o in
    ({| s_nominal_samples_per_frame := s_nominal_samples_per_frame st;
        s_android_stream := stream;
        s_decimation_factor := s_decimation_factor st;
        s_reference_data :=
          if rebuild then generate_reference n (s_reference_data st) else s_reference_data st;
        s_reference_len := if rebuild then n else s_reference_len st;
        s_reference1_index := 0;
        s_reference2_index := 0;
        s_heterodyne1_kHz := heterodyne1_kHz;
        s_heterodyne2_kHz := heterodyne2_kHz;
        s_audio_boost_shift := audio_boost_shift;
        s_downsampling_iir_coefficient := s_downsampling_iir_coefficient st;
        s_downsampling_filter_state := filter0 |}, rc).

(** The table as the code leaves it for a length [len]: [len] cosine samples
    and the sentinel after them.  Nothing is required before the first build. *)
Definition reference_ok (st : audio_state) : Prop :=
  length (s_reference_data st) = Z.to_nat (MAX_REFERENCE_LEN + 1) /\
  0 <= s_reference_len st <= MAX_REFERENCE_LEN /\
  (s_reference_len st <> 0 ->
   (forall i : nat, Z.of_nat i < s_reference_len st ->
      s_reference_data st !! i = Some (cos_sample (Z.of_nat i) (s_reference_len st))) /\
   s_reference_data st !! Z.to_nat (s_reference_len st) = Some CANARY_DATA_VALUE).

End ReferenceTable.

(** An executable stand-in for [cos_sample], used to run the model on
    concrete sessions: the Taylor polynomial of the cosine in fixed point
    (30 decimal digits).  It can differ from the double-precision result in
    the last unit. *)
Definition fp_one : Z := 10 ^ 30.
Definition fp_pi2 : Z := 62831854 * 10 ^ 23.      (* 3.1415927 * 2 *)

Fixpoint cos_series (terms : nat) (k : Z) (term x2 : Z) : Z :=
  match terms with
  | O => 0
  | S terms' =>
      term + cos_series terms' (k + 2)
               (Z.quot (Z.quot (- term * x2) fp_one) ((k + 1) * (k + 2))) x2
  end.

Definition cos_sample_taylor (i n : Z) : Z :=
  let x := Z.quot (i * fp_pi2) n in
  let x2 := Z.quot (x * x) fp_one in
  to_int16 (Z.quot (cos_series 24 0 fp_one x2 * 32766) fp_one).

(** The entry that line 635 stores, computed as the code computes it, in
    double precision: [x = ((double) i) * pi2 / n] with [pi2 = 3.1415927 * 2],
    then [s_reference_data[i] = cos(x) * 0x7FFE], the product converted to
    [int16_t].  [cos] is the function of the C library; with its values
    within 1 of zero the product lies within [int16_t]. *)
Definition pi2 : float :=
  PrimFloat.mul (double_of_decimal (31415927 # 10000000)) (double_of_int 2).

Definition reference_sample (cos : float -> float) (i n : Z) : Z :=
  let x := PrimFloat.div (PrimFloat.mul (double_of_int i) pi2) (double_of_int n) in
  to_int16 (trunc_double (PrimFloat.mul (cos x) (double_of_int 32766))).

(** An executable stand-in for [cos] on doubles: the Taylor polynomial of
    degree 46, evaluated in double precision. *)
Fixpoint cos_series_double (terms : nat) (k term x2 : float) : float :=
  match terms with
  | O => PrimFloat.zero
  | S terms' =>
      PrimFloat.add term
        (cos_series_double terms' (PrimFloat.add k (double_of_int 2))
           (PrimFloat.div (PrimFloat.mul (PrimFloat.opp term) x2)
              (PrimFloat.mul (PrimFloat.add k (double_of_int 1))
                 (PrimFloat.add k (double_of_int 2))))
           x2)
  end.

Definition cos_taylor_double (x : float) : float :=
  cos_series_double 24 PrimFloat.zero (double_of_int 1) (PrimFloat.mul x x).

(** *** setHeterodyne (lines 833-840). *)
Definition setHeterodyne (st : audio_state) (heterodyne1_kHz heterodyne2_kHz : Z) : audio_state :=
  {| s_nominal_samples_per_frame := s_nominal_samples_per_frame st;
     s_android_stream := s_android_stream st;
     s_decimation_factor := s_decimation_factor st;
     s_reference_data := s_reference_data st;
     s_reference_len := s_reference_len st;
     s_reference1_index := s_reference1_index st;
     s_reference2_index := s_reference2_index st;
     s_heterodyne1_kHz := heterodyne1_kHz;
     s_heterodyne2_kHz := heterodyne2_kHz;
     s_audio_boost_shift := s_audio_boost_shift st;
     s_downsampling_iir_coefficient := s_downsampling_iir_coefficient st;
     s_downsampling_filter_state := s_downsampling_filter_state st |}.

(** *** write_audio_output (lines 739-831). *)

(** [s_reference_data[index]]; an index outside the modelled array reads 0. *)
Definition reference_at (data : list Z) (index : Z) : Z :=
  if index <? 0 then 0 else rd data (Z.to_nat index).

(** One stage of the anti-alias filter, in [int64_t]:
    [filtered = coeff * filtered + ((1LL << 31) - coeff) * previous; filtered >>= 31]. *)
Definition aa_stage (coeff filtered previous : Z) : Z :=
  Z.shiftr
    (to_int64 (to_int64 (coeff * filtered) + to_int64 (to_int64 (2 ^ 31 - coeff) * previous)))
    31.

(** The loop over [order]: each stage feeds the next and stores
    [(int32_t) filtered] in its cell of [previous]. *)
Fixpoint aa_cascade (coeff filtered : Z) (previous : list Z) : Z * list Z :=
  match previous with
  | [] => (filtered, [])
  | p :: ps =>
      let f := aa_stage coeff filtered p in
      let '(out, ps') := aa_cascade coeff f ps in
      (out, to_int32 f :: ps')
  end.

(** [index += step; if (index >= s_reference_len) index -= s_reference_len;] on [int]. *)
Definition advance_index (index step len : Z) : Z :=
  let index := to_int32 (index + step) in
  if index >=? len then to_int32 (index - len) else index.

(** A phase index after [k] samples. *)
Fixpoint advance_n (k : nat) (index step len : Z) : Z :=
  match k with
  | O => index
  | S k' => advance_n k' (advance_index index step len) step len
  end.

(** An index with which [s_reference_data[index]] reads the table. *)
Definition index_in_table (index len : Z) : Prop := 0 <= index < len.

(** The locals of the sample loop. *)
Record audio_loop := {
  al_state : audio_state;
  al_decimation_counter : Z;
  al_downsampled : list Z      (* downsampled_buffer[0 .. decimated_sample_count) *)
}.

Definition saturate16 (filtered : Z) : Z :=
  let filtered := if filtered >? INT16_MAX then INT16_MAX else filtered in
  if filtered <? INT16_MIN then INT16_MIN else filtered.

Definition audio_sample_step (l : audio_loop) (sample : Z) : audio_loop :=
  let st := al_state l in
  let mixed := sample * reference_at (s_reference_data st) (s_reference1_index st) in
  let mixed :=
    if s_heterodyne2_kHz st =? 0 then mixed
    else to_int32 (mixed + sample * reference_at (s_reference_data st) (s_reference2_index st)) in
  let '(filtered, previous) :=
    aa_cascade (s_downsampling_iir_coefficient st) mixed (s_downsampling_filter_state st) in
  let counter := al_decimation_counter l + 1 in
  let emit := counter =? s_decimation_factor st in
  let st' :=
    {| s_nominal_samples_per_frame := s_nominal_samples_per_frame st;
       s_android_stream := s_android_stream st;
       s_decimation_factor := s_decimation_factor st;
       s_reference_data := s_reference_data st;
       s_reference_len := s_reference_len st;
       s_reference1_index :=
         advance_index (s_reference1_index st) (s_heterodyne1_kHz st) (s_reference_len st);
       s_reference2_index :=
         advance_index (s_reference2_index st) (s_heterodyne2_kHz st) (s_reference_len st);
       s_heterodyne1_kHz := s_heterodyne1_kHz st;
       s_heterodyne2_kHz := s_heterodyne2_kHz st;
       s_audio_boost_shift := s_audio_boost_shift st;
       s_downsampling_iir_coefficient := s_downsampling_iir_coefficient st;
       s_downsampling_filter_state := previous |} in
  {| al_state := st';
     al_decimation_counter := if emit then 0 else counter;
     al_downsampled :=
       if emit
       then al_downsampled l ++
            [to_int16 (saturate16 (Z.shiftr filtered (15 - s_audio_boost_shift st)))]
       else al_downsampled l |}.

(** The state after the run and the samples handed to [AAudioStream_write]. *)
Definition write_audio_output (st : audio_state) (pBuffer : list Z) : audio_state * list Z :=
  let l := fold_left audio_sample_step pBuffer
             {| al_state := st; al_decimation_counter := 0; al_downsampled := [] |} in
  (al_state l, al_downsampled l).

(** The states of the audio path that its entry points reach from the
    initial one (sample rates are not negative). *)
Inductive audio_reachable (cos_sample : Z -> Z -> Z) : audio_state -> Prop :=
  | reach_initial : audio_reachable cos_sample initial_audio_state
  | reach_stream st sample_rate iir_coefficient :
      audio_reachable cos_sample st -> 0 <= sample_rate ->
      audio_reachable cos_sample (stream_setup st sample_rate iir_coefficient)
  | reach_startAudio st dev h1 h2 boost o :
      audio_reachable cos_sample st ->
      audio_reachable cos_sample (fst (startAudio cos_sample st dev h1 h2 boost o))
  | reach_setHeterodyne st h1 h2 :
      audio_reachable cos_sample st -> audio_reachable cos_sample (setHeterodyne st h1 h2)
  | reach_write_audio_output st pBuffer :
      audio_reachable cos_sample st ->
      audio_reachable cos_sample (fst (write_audio_output st pBuffer)).

(** The anti-alias filter alone, fed the sequence [mixed 0, mixed 1, ...]:
    its state after [n] samples, and its output for sample [n]. *)
Fixpoint filter_state_after (coeff : Z) (mixed : nat -> Z) (previous : list Z) (n : nat) : list Z :=
  match n with
  | O => previous
  | S n' => snd (aa_cascade coeff (mixed n') (filter_state_after coeff mixed previous n'))
  end.

Definition filter_output (coeff : Z) (mixed : nat -> Z) (previous : list Z) (n : nat) : Z :=
  fst (aa_cascade coeff (mixed n) (filter_state_after coeff mixed previous n)).

(** The first stage on its own: its cell of [previous] after [n] samples and
    the value it hands to the next stage for sample [n]. *)
Fixpoint stage_state (coeff : Z) (mixed : nat -> Z) (p : Z) (n : nat) : Z :=
  match n with
  | O => p
  | S n' => to_int32 (aa_stage coeff (mixed n') (stage_state coeff mixed p n'))
  end.

Definition stage_output (coeff : Z) (mixed : nat -> Z) (p : Z) (n : nat) : Z :=
  aa_stage coeff (mixed n) (stage_state coeff mixed p n).

(** No stage starts below what feeds it: [b <= p1 <= p2 <= ...].  With [b]
    the input this is how the filter stands after a reset when the input is
    not positive. *)
Fixpoint ascending (b : Z) (previous : list Z) : Prop :=
  match previous with
  | [] => True
  | p :: ps => b <= p /\ ascending p ps
  end.

(** How far below its input a stage can come to rest: the largest [e] with
    [coeff * e < 2^31], lost to the truncation of [>> 31]. *)
Definition stage_slack (coeff : Z) : Z := (2 ^ 31 - 1) / coeff.

(** *** The capture loop of [stream] (lines 300-451).

    The loop is a state machine that takes one step per system call or read
    of [s_cancel_pending].  What the environment answers at a step is an
    [observation]: the return value of the ioctl and [errno] after it, and the
    value of [s_cancel_pending] when the step reads it (other threads set
    it).  A step uses the fields its code reads and ignores the others. *)
Definition EINTR : Z := 4.
Definition ENODEV : Z := 19.

Record observation := {
  ob_ret : Z;
  ob_errno : Z;
  ob_cancel : bool
}.

Inductive capture_pc :=
  | InitialSubmit (i : Z)     (* line 310, slot [i] *)
  | LoopTest                  (* line 326 *)
  | Reap                      (* line 340 *)
  | Recycle                   (* line 419 *)
  | Resubmit                  (* line 422 *)
  | Finished (rc : Z).        (* lines 318 and 451 *)

(** [in_flight] is not a variable of the code: it counts the transfers the
    device holds, one more for each submission that returned 0 and one less
    for each reap that returned 0. *)
Record capture := {
  cp_pc : capture_pc;
  balls_in_the_air : Z;
  cp_ret : Z;
  cp_errno : Z;
  in_flight : Z
}.

Definition capture_start : capture :=
  {| cp_pc := InitialSubmit 0; balls_in_the_air := 0; cp_ret := 0; cp_errno := 0; in_flight := 0 |}.

Definition interrupted (o : observation) : bool := (ob_ret o <? 0) && (ob_errno o =? EINTR).

Definition exit_code (ret errno : Z) : Z := if ret <? 0 then errno else 0.

Definition capture_step (c : capture) (o : observation) : capture :=
  let accepted := if ob_ret o =? 0 then 1 else 0 in
  match cp_pc c with
  | InitialSubmit i =>
      (* ret = ioctl(SUBMITURB); balls_in_the_air++; *)
      let balls := balls_in_the_air c + 1 in
      let pc :=
        if interrupted o then InitialSubmit i
        else if negb (ob_ret o =? 0) then Finished (ob_errno o)
        else if i + 1 <? URBS_TO_JUGGLE then InitialSubmit (i + 1)
        else LoopTest in
      {| cp_pc := pc; balls_in_the_air := balls; cp_ret := ob_ret o; cp_errno := ob_errno o;
         in_flight := in_flight c + accepted |}
  | LoopTest =>
      (* while ((!s_cancel_pending) || (balls_in_the_air > 0)) *)
      let pc :=
        if negb (ob_cancel o) || (balls_in_the_air c >? 0) then Reap
        else Finished (exit_code (cp_ret c) (cp_errno c)) in
      {| cp_pc := pc; balls_in_the_air := balls_in_the_air c; cp_ret := cp_ret c;
         cp_errno := cp_errno c; in_flight := in_flight c |}
  | Reap =>
      (* ret = ioctl(REAPURB); if (ret == 0) { balls_in_the_air--; ... } *)
      let balls := if ob_ret o =? 0 then balls_in_the_air c - 1 else balls_in_the_air c in
      let pc :=
        if interrupted o && negb (ob_cancel o) then Reap
        else if negb (ob_ret o =? 0)
             then (if ob_errno o =? ENODEV
                   then Finished (exit_code (ob_ret o) (ob_errno o)) else LoopTest)
        else Recycle in
      {| cp_pc := pc; balls_in_the_air := balls; cp_ret := ob_ret o; cp_errno := ob_errno o;
         in_flight := in_flight c - accepted |}
  | Recycle =>
      (* if (!s_cancel_pending) *)
      {| cp_pc := if ob_cancel o then LoopTest else Resubmit;
         balls_in_the_air := balls_in_the_air c; cp_ret := cp_ret c;
         cp_errno := cp_errno c; in_flight := in_flight c |}
  | Resubmit =>
      (* ret = ioctl(SUBMITURB); if (ret == 0) balls_in_the_air++; *)
      let balls := if ob_ret o =? 0 then balls_in_the_air c + 1 else balls_in_the_air c in
      let pc :=
        if interrupted o then Resubmit
        else if negb (ob_ret o =? 0) && (ob_errno o =? ENODEV)
             then Finished (exit_code (ob_ret o) (ob_errno o))
        else LoopTest in
      {| cp_pc := pc; balls_in_the_air := balls; cp_ret := ob_ret o; cp_errno := ob_errno o;
         in_flight := in_flight c + accepted |}
  | Finished rc => c
  end.

(** The state is past the initial submissions. *)
Definition in_main_loop (c : capture) : Prop :=
  match cp_pc c with InitialSubmit _ => False | _ => True end.

Definition capture_run (c : capture) (os : list observation) : capture :=
  fold_left capture_step os c.

(** The attempts of the initial submissions that did not return 0, among the
    steps that [os] drives from [c]. *)
Fixpoint failed_initial_attempts (c : capture) (os : list observation) : Z :=
  match os with
  | [] => 0
  | o :: os' =>
      (match cp_pc c with
       | InitialSubmit _ => if ob_ret o =? 0 then 0 else 1
       | _ => 0
       end) + failed_initial_attempts (capture_step c o) os'
  end.

(** Observations by name. *)
Definition ok : observation := {| ob_ret := 0; ob_errno := 0; ob_cancel := false |}.
Definition eintr : observation := {| ob_ret := -1; ob_errno := EINTR; ob_cancel := false |}.
Definition cancel_seen : observation := {| ob_ret := 0; ob_errno := 0; ob_cancel := true |}.

(** *** De-padding of a reaped transfer (stream, lines 361-370).

    [memmove(p + dst, p + src, n)]: the source range is read before any cell
    is written, so the two ranges may overlap.  Offsets and lengths are in
    bytes; the buffer is a list of bytes (of any cell type [A]). *)
Definition memmove {A} (dst src n : nat) (pData : list A) : list A :=
  list_inserts dst (take n (drop src pData)) pData.

(** The two fields of [usbdevfs_iso_packet_desc] that the loop reads. *)
Record iso_packet_desc := {
  ipd_length : nat;           (* requested *)
  ipd_actual_length : nat     (* received *)
}.

(** The loop over [frame]; the result is the buffer and [dst_byte_offset]. *)
Fixpoint compact_frames {A} (descs : list iso_packet_desc)
    (frame dst_byte_offset source_byte_offset : nat) (pData : list A) : list A * nat :=
  match descs with
  | [] => (pData, dst_byte_offset)
  | d :: descs' =>
      let actual_length := ipd_actual_length d in
      let pData' :=
        if (0 <? frame)%nat && (0 <? actual_length)%nat
        then memmove dst_byte_offset source_byte_offset actual_length pData
        else pData in
      compact_frames descs' (S frame) (dst_byte_offset + ipd_actual_length d)
        (source_byte_offset + ipd_length d) pData'
  end.

Definition compact_packets {A} (descs : list iso_packet_desc) (pData : list A) : list A * nat :=
  compact_frames descs 0 0 0 pData.

(** The bytes that the packets carried, in order: packet [k] lies at the sum
    of the requested lengths before it and has [ipd_actual_length] bytes. *)
Fixpoint payloads {A} (orig : list A) (source_byte_offset : nat) (descs : list iso_packet_desc)
    : list A :=
  match descs with
  | [] => []
  | d :: descs' =>
      take (ipd_actual_length d) (drop source_byte_offset orig)
      ++ payloads orig (source_byte_offset + ipd_length d) descs'
  end.

Definition requested_bytes (descs : list iso_packet_desc) : nat :=
  foldr (fun d n => (ipd_length d + n)%nat) 0%nat descs.
Definition received_bytes (descs : list iso_packet_desc) : nat :=
  foldr (fun d n => (ipd_actual_length d + n)%nat) 0%nat descs.

(** *** Recording to a file (lines 549-592).

    [s_fd_file] is the descriptor being recorded to, or -1.  [closed_fds] is
    not a variable of the code: it lists the descriptors passed to [close],
    in order. *)
Record recording_state := {
  s_fd_file : Z;
  closed_fds : list Z
}.

Definition initial_recording_state : recording_state :=
  {| s_fd_file := -1; closed_fds := [] |}.

Definition stop_recording (st : recording_state) : recording_state :=
  if s_fd_file st >=? 0
  then {| s_fd_file := -1; closed_fds := closed_fds st ++ [s_fd_file st] |}
  else st.

Definition start_recording (st : recording_state) (fd : Z) : recording_state * bool :=
  let st' := stop_recording st in
  ({| s_fd_file := fd; closed_fds := closed_fds st' |}, true).

(** [return fd >= 0 && start_recording(fd);] *)
Definition startRecordingFd (st : recording_state) (fd : Z) : recording_state * bool :=
  if fd >=? 0 then start_recording st fd else (st, false).

Definition stopRecording (st : recording_state) : recording_state := stop_recording st.

(** The calls of the host, and a sequence of them. *)
Inductive recording_call :=
  | CallStartRecordingFd (fd : Z)
  | CallStopRecording.

Definition recording_step (st : recording_state) (c : recording_call) : recording_state :=
  match c with
  | CallStartRecordingFd fd => fst (startRecordingFd st fd)
  | CallStopRecording => stopRecording st
  end.

(** The descriptors that the calls handed over (those [startRecordingFd]
    accepted), in order. *)
Definition accepted_fds (calls : list recording_call) : list Z :=
  omap (fun c => match c with
                 | CallStartRecordingFd fd => if fd >=? 0 then Some fd else None
                 | CallStopRecording => None
                 end) calls.

(** The descriptor being recorded to, as a list of at most one. *)
Definition open_fds (st : recording_state) : list Z :=
  if s_fd_file st >=? 0 then [s_fd_file st] else [].

(** *** Amplitudes of the audio path.

    The table is filled with [cos(x) * 0x7FFE], so its entries lie within
    [0x7FFE] of zero; a 16-bit sample times such an entry lies within
    [ONE_TONE_MAX]. *)
Definition REFERENCE_AMPLITUDE : Z := 32766.      (* 0x7FFE *)
Definition ONE_TONE_MAX : Z := 32768 * REFERENCE_AMPLITUDE.

Definition within (B z : Z) : Prop := - B <= z <= B.

Definition table_amplitude_ok (st : audio_state) : Prop :=
  forall i : nat, Z.of_nat i < s_reference_len st ->
    within REFERENCE_AMPLITUDE (rd (s_reference_data st) i).

(** A sequence of calls of [write_audio_output], one per completed transfer. *)
Definition write_audio_outputs (st : audio_state) (buffers : list (list Z)) : audio_state :=
  fold_left (fun s pBuffer => fst (write_audio_output s pBuffer)) buffers st.

End NativeUSB.
Import NativeUSB.

(** ** pipeline.cpp *)
Module Pipeline.

Local Open Scope Q_scope.

Definition Qlt_bool (a b : Q) : bool := negb (Qle_bool b a).

(** Reading a float buffer; a cell outside the modelled memory reads as 0. *)
Definition rdQ (l : list Q) (i : nat) : Q := default 0 (l !! i).

(** [data[i]] with an [int] index; a cell outside the modelled array reads 0. *)
Definition rdQ_at (data : list Q) (i : Z) : Q :=
  if (i <? 0)%Z then 0 else rdQ data (Z.to_nat i).

(** [data[i] = v] with an [int] index; a cell in front of the modelled array
    or behind it is not part of the result. *)
Definition store_at (data : list Q) (i : Z) (v : Q) : list Q :=
  if (i <? 0)%Z then data else <[Z.to_nat i := v]> data.

(** *** The colour map (nativeInitialize, lines 49-86). *)
Record colour_state := {
  s_already_initialized : bool;
  s_colourMapData : option (list Z);     (* None: nullptr *)
  s_colourMapDataSize : Z;
  s_amplitude_graph_colour : Z
}.

Definition initial_colour_state : colour_state :=
  {| s_already_initialized := false;
     s_colourMapData := None;
     s_colourMapDataSize := 0;
     s_amplitude_graph_colour := 65535 |}.

(** [for (i = 0; i < size; i++) s_colourMapData[i] = pData[i];] into a new array. *)
Definition copy_colour_map (pData : list Z) (size : Z) : list Z :=
  map (fun i => to_uint16 (rd pData i)) (seq 0 (Z.to_nat size)).

(** [colour_map] is [None] when GetShortArrayElements returns nullptr. *)
Definition nativeInitialize (st : colour_state) (colour_map : option (list Z))
    (colour_map_size amplitude_graph_colour : Z) : colour_state * Z :=
  let colour := to_uint16 amplitude_graph_colour in
  if s_already_initialized st then
    ({| s_already_initialized := true;
        s_colourMapData := s_colourMapData st;
        s_colourMapDataSize := s_colourMapDataSize st;
        s_amplitude_graph_colour := colour |}, 0%Z)
  else
    match colour_map with
    | Some pData =>
        ({| s_already_initialized := s_already_initialized st;
            s_colourMapData := Some (copy_colour_map pData colour_map_size);
            s_colourMapDataSize := colour_map_size;
            s_amplitude_graph_colour := colour |}, 0%Z)
    | None =>
        ({| s_already_initialized := s_already_initialized st;
            s_colourMapData := s_colourMapData st;
            s_colourMapDataSize := s_colourMapDataSize st;
            s_amplitude_graph_colour := colour |}, (-1)%Z)
    end.

(** *** Colour mapping (doColourMapping, lines 405-476). *)

(** [uint32_t row_start = (max_y - y - 1) * indexStride; pixel_index = row_start + x]. *)
Definition XYToBitmapOffset (x y max_y indexStride : Z) : Z :=
  (((max_y - y - 1) * indexStride) mod 2 ^ 32 + x) mod 2 ^ 32.

(** [(value - offset) * multiplier] on floats (line 442), and whether the
    cast of line 444 is defined: no overflow, and a value within [int]. *)
Definition colour_scale (value offset multiplier : Q) : Q :=
  fmul32 (fsub32 value offset) multiplier.

Definition cast_defined (value offset multiplier : Q) : bool :=
  finite32 (fsub32 value offset)
  && (INT32_MIN <=? Qtrunc (colour_scale value offset multiplier))%Z
  && (Qtrunc (colour_scale value offset multiplier) <=? INT32_MAX)%Z.

(** The index into the colour table for one dB value (lines 439-450). *)
Definition colour_index (value offset multiplier : Q) (size : Z) : Z :=
  let value := colour_scale value offset multiplier in
  let int_value := float_to_int value in
  if (int_value >? size - 1)%Z then (size - 1)%Z
  else if (int_value <? 0)%Z then 0%Z
  else int_value.

(** The table read [s_colourMapData[int_value]]: [None] outside the table. *)
Definition colour_lookup (st : colour_state) (int_value : Z) : option Z :=
  match s_colourMapData st with
  | Some table => if (int_value <? 0)%Z then None else table !! Z.to_nat int_value
  | None => None
  end.

(** The inner loop over [frequencyBucket], [count] buckets from [frequencyBucket];
    [inputIndex] is the position of [inputPtr].  The result is [None] as soon
    as a table read falls outside the table.  The pixels are [uint16_t]
    cells: [rgb565Pixels[index] = static_cast<jshort>(int_value)]. *)
Fixpoint colour_row (st : colour_state) (transformedData : list Q) (offset multiplier : Q)
    (frequency_bucket_count indexStride timeBucket : Z)
    (count : nat) (frequencyBucket : Z) (inputIndex : Z) (pixels : list Z)
    : option (list Z) :=
  match count with
  | O => Some pixels
  | S count' =>
      let value := rdQ_at transformedData inputIndex in
      let int_value := colour_index value offset multiplier (s_colourMapDataSize st) in
      match colour_lookup st int_value with
      | None => None
      | Some colour =>
          let index :=
            XYToBitmapOffset timeBucket frequencyBucket frequency_bucket_count indexStride in
          colour_row st transformedData offset multiplier frequency_bucket_count indexStride
            timeBucket count' (frequencyBucket + 1) (inputIndex + 1)
            (<[Z.to_nat index := to_uint16 (to_int16 colour)]> pixels)
      end
  end.

(** The outer loop over [timeBucket]. *)
Fixpoint colour_rows (st : colour_state) (transformedData : list Q) (offset multiplier : Q)
    (frequency_bucket_count indexStride : Z)
    (count : nat) (timeBucket : Z) (inputIndex : Z) (pixels : list Z)
    : option (list Z) :=
  match count with
  | O => Some pixels
  | S count' =>
      match colour_row st transformedData offset multiplier frequency_bucket_count indexStride
              timeBucket (Z.to_nat frequency_bucket_count) 0 inputIndex pixels with
      | None => None
      | Some pixels' =>
          colour_rows st transformedData offset multiplier frequency_bucket_count indexStride
            count' (timeBucket + 1) (inputIndex + Z.max 0 frequency_bucket_count) pixels'
      end
  end.

Definition doColourMapping (st : colour_state) (first second : Z) (transformedData : list Q)
    (transformed_frequency_bucket_count indexStride : Z) (pixels : list Z)
    (offset multiplier : Q) : option (list Z) :=
  colour_rows st transformedData offset multiplier transformed_frequency_bucket_count
    indexStride (Z.to_nat (second - first)) first
    (to_int32 (first * transformed_frequency_bucket_count)) pixels.

(** *** The transform (initFft and doFft, lines 142-290). *)
Record kiss_fft_cpx := { cpx_r : Q; cpx_i : Q }.

Record fft_state := {
  s_fft_window_size : Z;
  s_fft_frequency_buckets : Z
}.

Definition initFft (fft_window_size : Z) : fft_state :=
  {| s_fft_window_size := fft_window_size;
     s_fft_frequency_buckets := (Z.quot fft_window_size 2 + 1)%Z |}.

(** The float library that doFft calls and the repository does not contain:
    [kiss_fftr nfft timedata] is the spectrum kissfft writes to the scratch
    buffer ([nfft / 2 + 1] bins), [log2f] is [log2] on floats, and
    [dB_factor] is [10.0f / log2(10.0f)]. *)
Record float_library := {
  kiss_fftr : Z -> list Q -> list kiss_fft_cpx;
  log2f : Q -> Q;
  dB_factor : Q
}.

(** The locals that the loops of doFft update. *)
Record fft_loop := {
  fl_transformedData : list Q;
  fl_transformedIndex : nat;
  fl_triggered : bool
}.

Definition cpx_at (buffer : list kiss_fft_cpx) (j : nat) : kiss_fft_cpx :=
  default {| cpx_r := 0; cpx_i := 0 |} (buffer !! j).

(** [j >= min_trigger_bucket && j <= max_trigger_bucket] *)
Definition in_trigger_range (min_trigger_bucket max_trigger_bucket : Z) (j : nat) : bool :=
  (Z.of_nat j >=? min_trigger_bucket)%Z && (Z.of_nat j <=? max_trigger_bucket)%Z.

Section Transform.
Variable lib : float_library.

(** The dB value of one bucket (lines 241-262), each operation rounded to
    [float] on its own (the products are not contracted with the sum). *)
Definition mag_squared (normalizer2 : Q) (c : kiss_fft_cpx) : Q :=
  let re := cpx_r c in
  let im := cpx_i c in
  fmul32 (fadd32 (fmul32 re re) (fmul32 im im)) normalizer2.

Definition bucket_dB (normalizer2 minDB : Q) (c : kiss_fft_cpx) : Q :=
  let mag_squared := mag_squared normalizer2 c in
  if Qlt_bool 0 mag_squared then fmul32 (dB_factor lib) (log2f lib mag_squared) else minDB.

(** No operation of [bucket_dB] overflows. *)
Definition bucket_finite (normalizer2 : Q) (c : kiss_fft_cpx) : bool :=
  let re := cpx_r c in
  let im := cpx_i c in
  let m := mag_squared normalizer2 c in
  finite32 (fmul32 re re) && finite32 (fmul32 im im)
  && finite32 (fadd32 (fmul32 re re) (fmul32 im im)) && finite32 m
  && (negb (Qlt_bool 0 m) || finite32 (fmul32 (dB_factor lib) (log2f lib m))).

(** [normalizer = 2.0f / (float) s_fft_window_size; normalizer2 = normalizer * normalizer]. *)
Definition fft_normalizer2 (fs : fft_state) : Q :=
  let normalizer := fdiv32 2 (binary32 (inject_Z (s_fft_window_size fs))) in
  fmul32 normalizer normalizer.

(** The loop over the buckets [j .. j+count-1] of one window's spectrum. *)
Fixpoint fft_buckets (temp_buffer : list kiss_fft_cpx) (normalizer2 minDB trigger_threshold : Q)
    (transformed_buffer_index min_trigger_bucket max_trigger_bucket : Z)
    (count : nat) (j : nat) (l : fft_loop) : fft_loop :=
  match count with
  | O => l
  | S count' =>
      let db_value := bucket_dB normalizer2 minDB (cpx_at temp_buffer j) in
      let target := (transformed_buffer_index + Z.of_nat (fl_transformedIndex l))%Z in
      let hit :=
        in_trigger_range min_trigger_bucket max_trigger_bucket j
        && Qle_bool trigger_threshold db_value in
      fft_buckets temp_buffer normalizer2 minDB trigger_threshold
        transformed_buffer_index min_trigger_bucket max_trigger_bucket count' (S j)
        {| fl_transformedData := store_at (fl_transformedData l) target db_value;
           fl_transformedIndex := S (fl_transformedIndex l);
           fl_triggered := if hit then true else fl_triggered l |}
  end.

(** The loop over the windows; [pWindowData] is [windowIndex] windows into
    the slice buffer. *)
Fixpoint fft_windows (fs : fft_state) (unwrappedRawData : list Q)
    (normalizer2 minDB trigger_threshold : Q)
    (transformed_buffer_index min_trigger_bucket max_trigger_bucket : Z)
    (count : nat) (windowIndex : nat) (l : fft_loop) : fft_loop :=
  match count with
  | O => l
  | S count' =>
      let size := Z.to_nat (s_fft_window_size fs) in
      let pWindowData := take size (drop (windowIndex * size) unwrappedRawData) in
      let temp_buffer := kiss_fftr lib (s_fft_window_size fs) pWindowData in
      let l' :=
        fft_buckets temp_buffer normalizer2 minDB trigger_threshold
          transformed_buffer_index min_trigger_bucket max_trigger_bucket
          (Z.to_nat (s_fft_frequency_buckets fs)) 0 l in
      fft_windows fs unwrappedRawData normalizer2 minDB trigger_threshold
        transformed_buffer_index min_trigger_bucket max_trigger_bucket count' (S windowIndex) l'
  end.

(** doFft with its three arrays present: the output array as released, the
    value left in [triggerFlag[0]], and the return code. *)
Definition doFft (fs : fft_state) (num_windows : Z) (unwrappedRawData transformedData : list Q)
    (transformed_buffer_index : Z) (minDB : Q)
    (min_trigger_bucket max_trigger_bucket : Z) (trigger_threshold : Q)
    : list Q * bool * Z :=
  let normalizer2 := fft_normalizer2 fs in
  let l :=
    fft_windows fs unwrappedRawData normalizer2 minDB trigger_threshold
      transformed_buffer_index min_trigger_bucket max_trigger_bucket
      (Z.to_nat num_windows) 0
      {| fl_transformedData := transformedData;
         fl_transformedIndex := 0;
         fl_triggered := false |} in
  (fl_transformedData l, fl_triggered l, Z.max 0 num_windows).

End Transform.

(** A slice buffer of pure silence. *)
Definition silence (unwrappedRawData : list Q) : Prop := Forall (fun x => x == 0) unwrappedRawData.

(** What doFft needs of kissfft on silence: every bin of the spectrum is 0. *)
Definition fft_of_silence_is_zero (lib : float_library) (fs : fft_state) : Prop :=
  forall timedata, silence timedata ->
    Forall (fun c => cpx_r c == 0 /\ cpx_i c == 0) (kiss_fftr lib (s_fft_window_size fs) timedata).

(** Whether some bucket of a window lies in the trigger range. *)
Definition trigger_range_hit (fs : fft_state) (min_trigger_bucket max_trigger_bucket : Z) : bool :=
  existsb (in_trigger_range min_trigger_bucket max_trigger_bucket)
    (seq 0 (Z.to_nat (s_fft_frequency_buckets fs))).

(** An executable float library for window size 4, used to run the model:
    the 4-point real DFT is exact in rationals (its twiddle factors are 1,
    -i and -1); [log2f] and [dB_factor] are stand-ins (the integer part of
    the logarithm, and 10 / log2(10) to five digits). *)
Definition dft4 (timedata : list Q) : list kiss_fft_cpx :=
  let x0 := rdQ timedata 0 in
  let x1 := rdQ timedata 1 in
  let x2 := rdQ timedata 2 in
  let x3 := rdQ timedata 3 in
  [ {| cpx_r := x0 + x1 + x2 + x3; cpx_i := 0 |};
    {| cpx_r := x0 - x2; cpx_i := x3 - x1 |};
    {| cpx_r := x0 - x1 + x2 - x3; cpx_i := 0 |} ].

Definition log2_floor (q : Q) : Q :=
  inject_Z (Z.log2 (Qfloor q) - Z.log2 (Qfloor (/ q))).

Definition float_library_4 : float_library :=
  {| kiss_fftr := fun _ timedata => dft4 timedata;
     log2f := log2_floor;
     dB_factor := binary32 (30103 # 10000) |}.

(** *** The dB range of a selection (findBnCRange, lines 478-533). *)

(** [std::numeric_limits<float>::max()]; [lowest()] is its negation. *)
Definition FLT_MAX : Q := inject_Z ((2 ^ 24 - 1) * 2 ^ 104).

Record bnc_loop := {
  bl_minDB : Q;
  bl_maxDB : Q;
  bl_first : bool
}.

(** The body of the inner loop for one cell (lines 506-517). *)
Definition bnc_cell (l : bnc_loop) (dB : Q) : bnc_loop :=
  if bl_first l then {| bl_minDB := dB; bl_maxDB := dB; bl_first := false |}
  else
    {| bl_minDB := if Qlt_bool dB (bl_minDB l) then dB else bl_minDB l;
       bl_maxDB := if Qlt_bool (bl_maxDB l) dB then dB else bl_maxDB l;
       bl_first := false |}.

(** [for (frequencyIndex = y1; frequencyIndex <= y2; frequencyIndex++)],
    [count] iterations from [frequencyIndex]. *)
Fixpoint bnc_frequencies (data : list Q) (offset : Z) (count : nat) (frequencyIndex : Z)
    (l : bnc_loop) : bnc_loop :=
  match count with
  | O => l
  | S count' =>
      bnc_frequencies data offset count' (frequencyIndex + 1)
        (bnc_cell l (rdQ_at data (offset + frequencyIndex)%Z))
  end.

(** [for (timeIndex = x_min; timeIndex <= x_max; ++timeIndex)]. *)
Fixpoint bnc_times (data : list Q) (frequency_buckets y1 y2 : Z) (count : nat) (timeIndex : Z)
    (l : bnc_loop) : bnc_loop :=
  match count with
  | O => l
  | S count' =>
      let offset := to_int32 (timeIndex * frequency_buckets) in
      bnc_times data frequency_buckets y1 y2 count' (timeIndex + 1)
        (bnc_frequencies data offset (Z.to_nat (y2 - y1 + 1)) y1 l)
  end.

(** [transformed_data_buffer] is [None] when GetFloatArrayElements returns
    nullptr, and [result_allocated] tells whether NewFloatArray succeeded;
    the result is the pair [{minDB, maxDB}], or [None] for nullptr. *)
Definition findBnCRange (x_min x_max y_min y_max frequency_buckets : Z)
    (transformed_data_buffer : option (list Q)) (result_allocated : bool) : option (Q * Q) :=
  if (x_min =? x_max)%Z || (y_min =? y_max)%Z then None
  else
    match transformed_data_buffer with
    | None => None
    | Some data =>
        let y1 := to_int32 (frequency_buckets - y_max - 1) in
        let y2 := to_int32 (frequency_buckets - y_min - 1) in
        let l :=
          bnc_times data frequency_buckets y1 y2 (Z.to_nat (x_max - x_min + 1)) x_min
            {| bl_minDB := FLT_MAX; bl_maxDB := - FLT_MAX; bl_first := true |} in
        if result_allocated then Some (bl_minDB l, bl_maxDB l) else None
    end.

(** *** Cutting the recording into windows (unwrapSlices, lines 90-140). *)

(** [rawData[j]] with an [int] index; a cell outside the modelled array reads 0. *)
Definition raw_at (rawData : list Z) (j : Z) : Z :=
  if (j <? 0)%Z then 0%Z else rd rawData (Z.to_nat j).

Section Unwrap.
(** The product of two floats, rounded as the hardware rounds it. *)
Variable fmul : Q -> Q -> Q.

(** [for (j = start_index; j < end_index; j++)
       sliceBufferData[unwrapped_index++] = (float) rawData[j] * windowData[window_index++];] *)
Fixpoint unwrap_window (rawData : list Z) (windowData : list Q) (count : nat) (j : Z)
    (window_index unwrapped_index : nat) (sliceBufferData : list Q) : list Q :=
  match count with
  | O => sliceBufferData
  | S count' =>
      unwrap_window rawData windowData count' (j + 1) (S window_index) (S unwrapped_index)
        (<[unwrapped_index := fmul (inject_Z (raw_at rawData j)) (rdQ windowData window_index)]>
           sliceBufferData)
  end.

(** The loop over the windows: the slice buffer and [unwrapped_index] after
    [count] more windows. *)
Fixpoint unwrap_windows (rawData : list Z) (raw_data_entries fft_stride : Z)
    (windowData : list Q) (fft_window_size : Z) (count : nat) (start_index : Z)
    (unwrapped_index : nat) (sliceBufferData : list Q) : list Q * nat :=
  match count with
  | O => (sliceBufferData, unwrapped_index)
  | S count' =>
      let end_index := to_int32 (start_index + fft_window_size) in
      let n := Z.to_nat (end_index - start_index) in
      let '(slice', index') :=
        if (end_index <=? raw_data_entries)%Z
        then (unwrap_window rawData windowData n start_index 0 unwrapped_index sliceBufferData,
              (unwrapped_index + n)%nat)
        else (sliceBufferData, unwrapped_index) in
      unwrap_windows rawData raw_data_entries fft_stride windowData fft_window_size count'
        (to_int32 (start_index + fft_stride)) index' slice'
  end.

(** [raw_data_buffer] and [input_slice_buffer] are [None] when their
    GetArrayElements call returns nullptr; the window array is present and
    is not the slice buffer.  The result is the slice buffer as released and
    the return code. *)
Definition unwrapSlices (raw_data_buffer : option (list Z))
    (raw_data_entries start_index window_count fft_stride : Z)
    (window : list Q) (fft_window_size : Z) (input_slice_buffer : option (list Q))
    : option (list Q) * Z :=
  match raw_data_buffer, input_slice_buffer with
  | Some rawData, Some sliceBufferData =>
      (Some (fst (unwrap_windows rawData raw_data_entries fft_stride window fft_window_size
                    (Z.to_nat window_count) start_index 0 sliceBufferData)), 0%Z)
  | _, _ => (input_slice_buffer, (-1)%Z)
  end.

End Unwrap.

(** *** The amplitude graph (doAmplitude, lines 308-401). *)

Section Amplitude.
(** [amplitude_row height v] stands for [(int) ((v - range_min) * scaling)]
    with [range_min = -0x7FFF] and [scaling = (float) height / range_delta],
    computed in single precision. *)
Variable amplitude_row : Z -> Q -> Z.

(** [for (i = 1; i < fftWindowSize; i++, pValue++)]: the least and the
    greatest value of the window, [pValue] being the position read next. *)
Fixpoint window_range (unwrappedRawData : list Q) (count : nat) (pValue : nat) (min max : Q)
    : Q * Q :=
  match count with
  | O => (min, max)
  | S count' =>
      let v := rdQ unwrappedRawData pValue in
      window_range unwrappedRawData count' (S pValue)
        (if Qlt_bool v min then v else min) (if Qlt_bool max v then v else max)
  end.

(** [for (int y = height; y > 0; y--)], [count] rows from [y]; [offset] is a
    [size_t], the pixels are [uint16_t] cells. *)
Fixpoint draw_column (graph_colour : Z) (y_min y_max : Z) (indexStride maxOffset : Z)
    (count : nat) (y colour offset : Z) (rgb565Pixels : list Z) : list Z :=
  match count with
  | O => rgb565Pixels
  | S count' =>
      let colour := if (y =? y_max)%Z then graph_colour else colour in
      let colour := if (to_int32 (y + 1) =? y_min)%Z then 0%Z else colour in
      let pixels :=
        if (0 <=? offset)%Z && (offset <=? maxOffset)%Z
        then <[Z.to_nat offset := to_uint16 colour]> rgb565Pixels
        else rgb565Pixels in
      draw_column graph_colour y_min y_max indexStride maxOffset count' (to_int32 (y - 1))
        colour ((offset + indexStride) mod 2 ^ 64)%Z pixels
  end.

(** The loop over the windows; [x] is the column of the next window. *)
Fixpoint amplitude_windows (st : colour_state) (fs : fft_state) (fftWindowSize : Z)
    (unwrappedRawData : list Q) (height indexStride maxOffset : Z)
    (count : nat) (windowIndex : nat) (x : Z) (rgb565Pixels : list Z) : list Z :=
  match count with
  | O => rgb565Pixels
  | S count' =>
      let pWindowData := (windowIndex * Z.to_nat (s_fft_window_size fs))%nat in
      let first := rdQ unwrappedRawData pWindowData in
      let range :=
        window_range unwrappedRawData (Z.to_nat (fftWindowSize - 1)) (S pWindowData)
          first first in
      let y_min := amplitude_row height (fst range) in
      let y_max := amplitude_row height (snd range) in
      let offset := XYToBitmapOffset x (to_int32 (height - 1)) (to_int32 height) indexStride in
      let pixels :=
        draw_column (s_amplitude_graph_colour st) y_min y_max indexStride maxOffset
          (Z.to_nat (to_int32 height)) (to_int32 height) 0 offset rgb565Pixels in
      amplitude_windows st fs fftWindowSize unwrappedRawData height indexStride maxOffset
        count' (S windowIndex) (to_int32 (x + 1)) pixels
  end.

(** doAmplitude with the bitmap locked and the slice buffer present:
    [height] and [indexStride] are the [uint32_t] values read from the bitmap
    info; the result is the pixels and the return code. *)
Definition doAmplitude (st : colour_state) (fs : fft_state) (num_windows fftWindowSize : Z)
    (unwrappedRawData : list Q) (transformed_time_bucket_index : Z)
    (height indexStride : Z) (rgb565Pixels : list Z) : list Z * Z :=
  let maxOffset := (((height * indexStride) mod 2 ^ 32 - 1) mod 2 ^ 32)%Z in
  (amplitude_windows st fs fftWindowSize unwrappedRawData height indexStride maxOffset
     (Z.to_nat num_windows) 0 transformed_time_bucket_index rgb565Pixels,
   Z.max 0 num_windows).

End Amplitude.

(** An executable stand-in for [amplitude_row]: the scaling in exact
    arithmetic, rounded down (as the cast does for a value not below
    [range_min]). *)
Definition amplitude_row_exact (height : Z) (v : Q) : Z :=
  Qfloor ((v + 32767) * (inject_Z height / 65534)).

End Pipeline.
Import Pipeline.

(* ===================================================================== *)
(** * Part II: properties                                                  *)
(* ===================================================================== *)

(** ** Machine integers *)

Lemma wrap_small (w z : Z) :
  0 < w -> - 2 ^ (w - 1) <= z < 2 ^ (w - 1) -> wrap w z = z.
Proof.
  intros Hw Hz. unfold wrap.
  assert (E : 2 ^ w = 2 * 2 ^ (w - 1)).
  { replace w with (Z.succ (w - 1)) at 1 by lia. rewrite Z.pow_succ_r by lia. reflexivity. }
  rewrite Z.mod_small by lia. lia.
Qed.

Lemma to_int16_small (z : Z) : in_int16 z -> to_int16 z = z.
Proof. unfold in_int16, INT16_MIN, INT16_MAX. intros H. apply wrap_small; simpl; lia. Qed.

Lemma to_int32_small (z : Z) : in_int32 z -> to_int32 z = z.
Proof. unfold in_int32, INT32_MIN, INT32_MAX. intros H. apply wrap_small; simpl; lia. Qed.

Lemma to_int64_small (z : Z) : - 2 ^ 63 <= z < 2 ^ 63 -> to_int64 z = z.
Proof. intros H. apply wrap_small; simpl in *; lia. Qed.

(** [lround] of a quotient of non-negative integers, in integer arithmetic. *)
Lemma lround_div (a b : Z) :
  0 <= a -> 0 < b -> lround (inject_Z a / inject_Z b) = (2 * a + b) / (2 * b).
Proof.
  intros Ha Hb. unfold lround.
  destruct b as [|p|p]; try lia.
  assert (Hq : (0 <= inject_Z a / inject_Z (Z.pos p))%Q).
  { apply Qle_shift_div_l; [reflexivity|]. rewrite Qmult_0_l.
    unfold Qle, inject_Z; simpl. lia. }
  apply Qle_bool_iff in Hq. rewrite Hq.
  unfold Qfloor, Qdiv, Qmult, Qinv, Qplus, inject_Z; simpl.
  f_equal; lia.
Qed.

(** ** Decimation factor and output rate *)
Section Decimation.

Lemma spec_round_div (a b : Z) :
  0 < b -> spec_round (inject_Z a / inject_Z b) = (2 * a + b) / (2 * b).
Proof.
  intros Hb. destruct b as [|p|p]; try lia.
  unfold spec_round, Qfloor, Qdiv, Qmult, Qinv, Qplus, inject_Z; simpl.
  f_equal; lia.
Qed.

(** [spec_round] does pick a nearest integer: it is within 1/2 of the quotient. *)
Lemma spec_round_nearest (a b : Z) :
  0 < b -> 2 * Z.abs (spec_round (inject_Z a / inject_Z b) * b - a) <= b.
Proof.
  intros Hb. rewrite spec_round_div by assumption.
  pose proof (Z.div_mod (2 * a + b) (2 * b) ltac:(lia)) as E.
  pose proof (Z.mod_pos_bound (2 * a + b) (2 * b) ltac:(lia)) as B.
  lia.
Qed.

Lemma decimation_factor_value (R : Z) :
  0 <= R <= INT32_MAX ->
  ap_decimation_factor (stream_audio_params R) = Z.max 1 ((2 * R + 48000) / 96000).
Proof.
  intros HR. unfold stream_audio_params, TARGET_AUDIO_OUT_RATE, INT32_MAX in *. simpl.
  rewrite lround_div by lia.
  assert (B : 0 <= (2 * R + 48000) / 96000 <= 44740).
  { split; [apply Z.div_pos; lia|]. apply Z.div_le_upper_bound; lia. }
  change (2 * 48000) with 96000.
  rewrite to_int32_small by (unfold in_int32, INT32_MIN, INT32_MAX; lia).
  destruct (Z.eqb_spec ((2 * R + 48000) / 96000) 0); lia.
Qed.

(** C2.  For every input rate R >= 1 (an [int]), the decimation factor set at
    capture start is max(1, round(R / 48000)), and the audio output rate is R
    divided (integer division) by that factor. *)
Theorem C2_decimation_factor_and_output_rate (R : Z) :
  1 <= R <= INT32_MAX ->
  let p := stream_audio_params R in
  ap_decimation_factor p = spec_decimation_factor R TARGET_AUDIO_OUT_RATE /\
  ap_audio_out_rate p = spec_output_rate R (ap_decimation_factor p) /\
  1 <= ap_decimation_factor p.
Proof.
  intros HR p.
  assert (D : ap_decimation_factor p = Z.max 1 ((2 * R + 48000) / 96000))
    by (apply decimation_factor_value; lia).
  split; [|split].
  - rewrite D. unfold spec_decimation_factor, TARGET_AUDIO_OUT_RATE.
    rewrite spec_round_div by lia. reflexivity.
  - unfold spec_output_rate. rewrite <- Z.quot_div_nonneg by lia. reflexivity.
  - lia.
Qed.

Lemma C2_decimation_witness :
  1 <= 384000 <= INT32_MAX /\
  (let p := stream_audio_params 384000 in
   ap_decimation_factor p = spec_decimation_factor 384000 TARGET_AUDIO_OUT_RATE /\
   ap_audio_out_rate p = spec_output_rate 384000 (ap_decimation_factor p) /\
   1 <= ap_decimation_factor p).
Proof.
  split; [unfold INT32_MAX; lia|].
  apply (C2_decimation_factor_and_output_rate 384000). unfold INT32_MAX; lia.
Defined.

(** The rates of the specification's end-to-end scenario, and rates that do
    not divide evenly: 44100 Hz is not decimated, 250000 Hz is cut by 5. *)
Example stream_audio_params_384k :
  stream_audio_params 384000 =
  {| ap_nominal_samples_per_frame := 384; ap_decimation_factor := 8; ap_audio_out_rate := 48000 |}.
Proof. reflexivity. Qed.

Example stream_audio_params_others :
  ap_decimation_factor (stream_audio_params 44100) = 1 /\
  ap_decimation_factor (stream_audio_params 23999) = 1 /\
  ap_decimation_factor (stream_audio_params 71999) = 1 /\
  ap_decimation_factor (stream_audio_params 72000) = 2 /\
  stream_audio_params 250000 =
  {| ap_nominal_samples_per_frame := 250;
     ap_decimation_factor := 5;
     ap_audio_out_rate := 50000 |} /\
  ap_audio_out_rate (stream_audio_params 200001) = 50000.
Proof. repeat split. Qed.

(** The exact quotient and the binary64 quotient round alike: checked at
    common microphone rates, at the ends of the [int] range, and at the
    halfway points of the rounding (with their neighbours) for factors up to
    300 and for the last 20 below the top of the range. *)
Example decimation_lround_double_agrees :
  forallb
    (fun R => decimation_lround_double R
              =? lround (inject_Z R / inject_Z TARGET_AUDIO_OUT_RATE))
    ([1; 8000; 44100; 48000; 96000; 192000; 250000; 256000; 300000; 384000; 500000;
      2147483646; 2147483647]
     ++ halfway_rates 300 0 ++ halfway_rates 20 44719)
  = true.
Proof. vm_compute. reflexivity. Qed.

End Decimation.

(** ** Channel merge *)
Section ChannelMerge.

Lemma merge_loop_length (count i : nat) (l : list Z) :
  length (merge_loop count i l) = length l.
Proof.
  revert i l. induction count as [|c IH]; intros i l; simpl; [reflexivity|].
  rewrite IH. apply length_insert.
Qed.

(** The loop works in place: it writes index [i] after reading indices
    [2i] and [2i+1], which no earlier iteration has written. *)
Lemma merge_loop_lookup (b : list Z) (count i : nat) (l : list Z) (k : nat) :
  length l = length b ->
  (forall m, (i <= m)%nat -> l !! m = b !! m) ->
  (forall m, (m < i)%nat -> (m < length b)%nat -> l !! m = Some (merged_at b m)) ->
  (k < i + count)%nat -> (k < length b)%nat ->
  merge_loop count i l !! k = Some (merged_at b k).
Proof.
  revert i l. induction count as [|c IH]; intros i l Hlen Hhi Hlo Hk Hkb; simpl.
  - apply Hlo; lia.
  - apply IH.
    + rewrite length_insert. exact Hlen.
    + intros m Hm. rewrite list_lookup_insert_ne by lia. apply Hhi. lia.
    + intros m Hm Hmb. destruct (decide (m = i)) as [->|Hne].
      * rewrite list_lookup_insert_eq by lia. unfold merged_at, rd.
        rewrite !Hhi by lia. reflexivity.
      * rewrite list_lookup_insert_ne by lia. apply Hlo; lia.
    + lia.
    + exact Hkb.
Qed.

Lemma interleave_length (pairs : list (Z * Z)) :
  length (interleave pairs) = (2 * length pairs)%nat.
Proof. induction pairs as [|[l r] ps IH]; simpl; lia. Qed.

Lemma interleave_lookup (pairs : list (Z * Z)) (rest : list Z) (k : nat) (p : Z * Z) :
  pairs !! k = Some p ->
  rd (interleave pairs ++ rest) (2 * k) = fst p /\
  rd (interleave pairs ++ rest) (S (2 * k)) = snd p.
Proof.
  revert k. induction pairs as [|[l r] ps IH]; intros k Hk; [discriminate|].
  destruct k as [|k]; simpl in *.
  - injection Hk as <-. split; reflexivity.
  - replace (k + S (k + 0))%nat with (S (2 * k)) by lia. apply IH. exact Hk.
Qed.

Lemma shiftr1_mean (a b : Z) :
  in_int16 a -> in_int16 b ->
  to_int16 (Z.shiftr (to_int32 (a + b)) 1) = (a + b) / 2.
Proof.
  unfold in_int16, INT16_MIN, INT16_MAX. intros Ha Hb.
  rewrite to_int32_small by (unfold in_int32, INT32_MIN, INT32_MAX; lia).
  rewrite Z.shiftr_div_pow2 by lia. change (2 ^ 1) with 2.
  apply to_int16_small. unfold in_int16, INT16_MIN, INT16_MAX.
  split; [apply Z.div_le_lower_bound; lia | apply Z.div_le_upper_bound; lia].
Qed.

(** C3 as the specification words it fails on a pair with a negative odd sum:
    (-1, 0) merges to -1, while the mean -1/2 rounded toward zero is 0. *)
Lemma C3_merge_rounds_down_counterexample :
  merge_stereo (interleave [(-1, 0)]) 2 = ([-1; 0], 1) /\
  spec_mean_toward_zero (-1, 0) = 0 /\
  mean_floor (-1, 0) = -1.
Proof. repeat split. Qed.

(** C3, amended.  A run of n stereo pairs of 16-bit samples, followed in
    memory by anything, leaves the merge stage as n samples, the i-th being
    the mean of the i-th pair rounded down (toward minus infinity, as the
    arithmetic right shift does); (100, 300) merges to 200. *)
Theorem C3_merge_halves_and_averages (pairs : list (Z * Z)) (rest : list Z) :
  Forall (fun p => in_int16 (fst p) /\ in_int16 (snd p)) pairs ->
  let n := length pairs in
  let out := merge_stereo (interleave pairs ++ rest) (2 * Z.of_nat n) in
  snd out = Z.of_nat n /\
  take n (fst out) = map mean_floor pairs /\
  fst (merge_stereo (interleave [(100, 300)]) 2) !! 0%nat = Some 200.
Proof.
  intros Hr n out. split; [|split].
  - unfold out, merge_stereo. simpl snd. rewrite Z.shiftr_div_pow2 by lia.
    change (2 ^ 1) with 2. rewrite Z.mul_comm, Z.div_mul by lia. reflexivity.
  - apply list_eq. intros k. unfold out, merge_stereo. simpl fst.
    rewrite list_lookup_fmap.
    destruct (decide (k < n)%nat) as [Hk|Hk].
    + rewrite lookup_take_lt by exact Hk.
      destruct (lookup_lt_is_Some_2 pairs k Hk) as [p Hp].
      rewrite Hp. simpl.
      rewrite (merge_loop_lookup (interleave pairs ++ rest)); try reflexivity; try lia.
      * unfold merged_at.
        destruct (interleave_lookup pairs rest k p Hp) as [-> ->].
        rewrite Forall_forall in Hr.
        destruct (Hr p) as [H1 H2]; [eapply list_elem_of_lookup_2; exact Hp|].
        rewrite shiftr1_mean by assumption. reflexivity.
      * rewrite length_app, interleave_length. fold n. lia.
    + rewrite lookup_take_ge by lia.
      rewrite (proj2 (lookup_ge_None pairs k)) by (fold n; lia). reflexivity.
  - reflexivity.
Qed.

Lemma C3_merge_witness :
  Forall (fun p => in_int16 (fst p) /\ in_int16 (snd p)) [(100, 300); (-7, 4)] /\
  take 2 (fst (merge_stereo (interleave [(100, 300); (-7, 4)] ++ [9; 9]) 4)) = [200; -2].
Proof.
  assert (H : Forall (fun p => in_int16 (fst p) /\ in_int16 (snd p)) [(100, 300); (-7, 4)]).
  { repeat constructor; simpl; unfold INT16_MIN, INT16_MAX; lia. }
  split; [exact H|].
  exact (proj1 (proj2 (C3_merge_halves_and_averages [(100, 300); (-7, 4)] [9; 9] H))).
Defined.

End ChannelMerge.

(** ** Ring export *)
Section RingExport.

Lemma copy_loop_length (count : nat) (src : list Z) (si : nat) (buf : list Z) (ti : nat) :
  length (copy_loop count src si buf ti) = length buf.
Proof.
  revert si buf ti. induction count as [|c IH]; intros si buf ti; simpl; [reflexivity|].
  rewrite IH. apply length_insert.
Qed.

(** Cells [ti .. ti+count-1] receive the source samples [si ..], in order;
    every other cell keeps its value. *)
Lemma copy_loop_lookup (count : nat) (src : list Z) (si : nat) (buf : list Z) (ti m : nat) :
  (ti + count <= length buf)%nat ->
  copy_loop count src si buf ti !! m =
  if decide (ti <= m < ti + count)%nat then Some (rd src (si + (m - ti))) else buf !! m.
Proof.
  revert si buf ti. induction count as [|c IH]; intros si buf ti Hlen; simpl.
  - case_decide; [lia | reflexivity].
  - rewrite IH by (rewrite length_insert; lia).
    repeat case_decide; try lia.
    + f_equal. f_equal. lia.
    + assert (m = ti) as -> by lia.
      rewrite list_lookup_insert_eq by lia. do 2 f_equal. lia.
    + rewrite list_lookup_insert_ne by lia. reflexivity.
Qed.

(** C4 as stated fails for k > cap: with cap = 10 and k = 20 the call copies
    3 + 10 samples and returns 13, not 10; with k = 11 it returns 11. *)
Lemma C4_ring_export_counterexample :
  snd (copyURBBufferData (map Z.of_nat (seq 1 20)) 20 (Some (replicate 10 0)) (10 - 3) 10) = 13 /\
  snd (copyURBBufferData (map Z.of_nat (seq 1 11)) 11 (Some (replicate 10 0)) (10 - 3) 10) = 11 /\
  fst (copyURBBufferData (map Z.of_nat (seq 1 11)) 11 (Some (replicate 10 0)) (10 - 3) 10)
  = Some [4; 5; 6; 7; 8; 9; 10; 11; 2; 3].
Proof. repeat split. Qed.

(** C4, amended.  Exporting k >= 3 samples at offset cap-3 of a ring of
    capacity cap puts the first 3 at the tail and the next min(k-3, cap) at
    the head, and returns min(k, cap+3).  When k <= cap that is k, the tail
    holds samples 0..2, the head samples 3..k-1, and the cells between are
    untouched; when k > cap the second part alone is cut down to cap. *)
Theorem C4_ring_export_wraps (src dst : list Z) (k cap : Z) :
  3 <= cap -> 3 <= k -> Z.of_nat (length dst) = cap -> k <= Z.of_nat (length src) ->
  exists dst',
    copyURBBufferData src k (Some dst) (cap - 3) cap = (Some dst', Z.min k (cap + 3)) /\
    length dst' = length dst /\
    (forall i : nat, Z.of_nat i < Z.min (k - 3) cap -> dst' !! i = Some (rd src (3 + i))) /\
    (k <= cap ->
       Z.min k (cap + 3) = k /\
       (forall i : nat, (i < 3)%nat -> dst' !! (Z.to_nat (cap - 3) + i)%nat = Some (rd src i)) /\
       (forall m : nat, k - 3 <= Z.of_nat m < cap - 3 -> dst' !! m = dst !! m)).
Proof.
  intros Hcap Hk Hlen Hsrc. unfold copyURBBufferData.
  replace (cap - (cap - 3)) with 3 by lia.
  destruct (Z.gtb_spec k 3) as [Hk3|Hk3].
  - (* two parts *)
    destruct (Z.gtb_spec (k - 3) 0) as [_|?]; [|lia].
    set (p2 := if k - 3 >? cap then cap else k - 3).
    assert (Hp2 : p2 = Z.min (k - 3) cap).
    { unfold p2. destruct (Z.gtb_spec (k - 3) cap); lia. }
    eexists. split; [|split; [|split]].
    + f_equal. lia.
    + rewrite !copy_loop_length. reflexivity.
    + intros i Hi. rewrite copy_loop_lookup by (rewrite copy_loop_length; lia).
      case_decide; [|lia]. do 2 f_equal. lia.
    + intros Hkc. split; [lia|]. split.
      * intros i Hi. rewrite copy_loop_lookup by (rewrite copy_loop_length; lia).
        case_decide; [lia|].
        rewrite copy_loop_lookup by lia.
        case_decide; [|lia]. do 2 f_equal. lia.
      * intros m Hm. rewrite copy_loop_lookup by (rewrite copy_loop_length; lia).
        case_decide; [lia|].
        rewrite copy_loop_lookup by lia.
        case_decide; [lia|reflexivity].
  - (* k = 3: the tail alone *)
    assert (k = 3) as -> by lia.
    destruct (Z.gtb_spec (3 - 3) 0) as [?|_]; [lia|].
    eexists. split; [|split; [|split]].
    + f_equal. lia.
    + rewrite copy_loop_length. reflexivity.
    + intros i Hi. lia.
    + intros _. split; [lia|]. split.
      * intros i Hi. rewrite copy_loop_lookup by lia.
        case_decide; [|lia]. do 2 f_equal. lia.
      * intros m Hm. rewrite copy_loop_lookup by lia.
        case_decide; [lia|reflexivity].
Qed.

Lemma C4_ring_export_witness :
  exists dst',
    copyURBBufferData [1; 2; 3; 4; 5] 5 (Some (replicate 8 0)) (8 - 3) 8
    = (Some dst', Z.min 5 (8 + 3)) /\ dst' = [4; 5; 0; 0; 0; 1; 2; 3].
Proof.
  destruct (C4_ring_export_wraps [1; 2; 3; 4; 5] (replicate 8 0) 5 8
              ltac:(lia) ltac:(lia) eq_refl ltac:(simpl; lia)) as (dst' & E & _).
  exists dst'. split; [exact E|].
  vm_compute in E. injection E as <-. reflexivity.
Defined.

End RingExport.

(** ** Reference oscillator table *)
Section ReferenceTableProperties.
Variable cos_sample : Z -> Z -> Z.

Lemma fill_reference_length (n : Z) (count i : nat) (data : list Z) :
  length (fill_reference cos_sample n count i data) = length data.
Proof.
  revert i data. induction count as [|c IH]; intros i data; simpl; [reflexivity|].
  rewrite IH. apply length_insert.
Qed.

(** The generation loop writes cells [i .. i+count-1] and no other. *)
Lemma fill_reference_lookup (n : Z) (count i : nat) (data : list Z) (m : nat) :
  (i + count <= length data)%nat ->
  fill_reference cos_sample n count i data !! m =
  if decide (i <= m < i + count)%nat then Some (cos_sample (Z.of_nat m) n) else data !! m.
Proof.
  revert i data. induction count as [|c IH]; intros i data Hlen; simpl.
  - case_decide; [lia|reflexivity].
  - rewrite IH by (rewrite length_insert; lia).
    repeat case_decide; try lia; try reflexivity.
    + assert (m = i) as -> by lia. rewrite list_lookup_insert_eq by lia. reflexivity.
    + rewrite list_lookup_insert_ne by lia. reflexivity.
Qed.

Lemma generate_reference_spec (n : Z) (data : list Z) :
  0 <= n <= MAX_REFERENCE_LEN ->
  length data = Z.to_nat (MAX_REFERENCE_LEN + 1) ->
  length (generate_reference cos_sample n data) = length data /\
  (forall i : nat, Z.of_nat i < n ->
     generate_reference cos_sample n data !! i = Some (cos_sample (Z.of_nat i) n)) /\
  generate_reference cos_sample n data !! Z.to_nat n = Some CANARY_DATA_VALUE.
Proof.
  unfold MAX_REFERENCE_LEN. intros Hn Hlen. unfold generate_reference.
  assert (L : (Z.to_nat n < length data)%nat) by (rewrite Hlen; lia).
  split; [|split].
  - rewrite length_insert, fill_reference_length. reflexivity.
  - intros i Hi. rewrite list_lookup_insert_ne by lia.
    rewrite fill_reference_lookup by lia. case_decide; [reflexivity|lia].
  - apply list_lookup_insert_eq. rewrite fill_reference_length. exact L.
Qed.

Lemma initial_reference_ok : reference_ok cos_sample initial_audio_state.
Proof.
  unfold reference_ok, initial_audio_state, MAX_REFERENCE_LEN; simpl.
  split; [reflexivity|]. split; [lia|]. intros H; contradiction.
Qed.

(** [startAudio] keeps the table well formed, whatever it returns. *)
Lemma startAudio_reference_ok (st : audio_state) (dev h1 h2 boost : Z) (o : aaudio_outcome) :
  reference_ok cos_sample st -> 0 <= s_nominal_samples_per_frame st ->
  reference_ok cos_sample (fst (startAudio cos_sample st dev h1 h2 boost o)).
Proof.
  intros (Hlen & Hrange & Htab) Hs. unfold startAudio.
  set (n := if s_nominal_samples_per_frame st >? MAX_REFERENCE_LEN
            then MAX_REFERENCE_LEN else s_nominal_samples_per_frame st).
  assert (Hn : 0 <= n <= MAX_REFERENCE_LEN).
  { unfold n, MAX_REFERENCE_LEN.
    destruct (Z.gtb_spec (s_nominal_samples_per_frame st) 512); lia. }
  destruct ((h1 >? n) || (h2 >? n)); [exact (conj Hlen (conj Hrange Htab))|].
  destruct (start_audio_output o) as [stream rc]. unfold reference_ok; simpl.
  destruct (Z.eqb_spec n (s_reference_len st)) as [E|E]; simpl.
  - exact (conj Hlen (conj Hrange Htab)).
  - destruct (generate_reference_spec n (s_reference_data st) Hn Hlen) as (G1 & G2 & G3).
    split; [congruence|]. split; [exact Hn|]. intros _. split; assumption.
Qed.



End ReferenceTableProperties.



(** The table of a 4000 Hz session in double precision, under the stand-in
    for [cos]: one cycle in four entries, then the sentinel.  The constant
    3.1415927 exceeds pi, so the third entry falls short of -0x7FFE. *)
Example reference_table_4_double :
  take 5 (s_reference_data
            (fst (startAudio (reference_sample cos_taylor_double)
                    (stream_setup initial_audio_state 4000 0) 0 1 0 0 StreamStarted)))
  = [32766; 0; -32765; 0; -1330].
Proof. vm_compute. reflexivity. Qed.

(** Beyond that range [startAudio] cuts the length to MAX_REFERENCE_LEN: a
    frame size of 600, which [stream] reports as invalid, gets 512 entries. *)
Example reference_table_cut_to_512 :
  let st := stream_setup initial_audio_state 600000 0 in
  let r := startAudio cos_sample_taylor st 0 0 0 0 StreamStarted in
  s_nominal_samples_per_frame st = 600 /\
  snd r = true /\
  s_reference_len (fst r) = 512 /\
  length (s_reference_data (fst r)) = 513%nat.
Proof.
  cbv zeta. split; [reflexivity|]. split; [reflexivity|]. split; [reflexivity|].
  assert (Hok : reference_ok cos_sample_taylor (stream_setup initial_audio_state 600000 0))
    by exact (initial_reference_ok cos_sample_taylor).
  pose proof (startAudio_reference_ok cos_sample_taylor _ 0 0 0 0 StreamStarted Hok
                ltac:(vm_compute; discriminate)) as (Hlen & _).
  exact Hlen.
Qed.

(** The table of a 4000 Hz session under the stand-in cosine: one cycle in
    four entries, then the sentinel (0xFACE as a signed 16-bit value). *)
Example reference_table_4 :
  take 5 (s_reference_data
            (fst (startAudio cos_sample_taylor (stream_setup initial_audio_state 4000 0)
                    0 1 0 0 StreamStarted)))
  = [32766; 0; -32765; 0; -1330].
Proof. vm_compute. reflexivity. Qed.

(** ** Heterodyne phase indices *)
Section Heterodyne.

Lemma to_int32_high (z : Z) : 2 ^ 31 <= z < 2 ^ 32 + 2 ^ 31 -> to_int32 z = z - 2 ^ 32.
Proof.
  intros H. unfold to_int32, wrap. change (32 - 1) with 31.
  replace (z + 2 ^ 31) with (z - 2 ^ 32 + 2 ^ 31 + 1 * 2 ^ 32) by lia.
  rewrite Z.mod_add by lia. rewrite Z.mod_small; lia.
Qed.

(** With a step that [startAudio] accepts and is not negative, an index in
    the table stays in the table. *)
Lemma advance_index_in_table (index step len : Z) :
  0 <= step <= len -> len <= MAX_REFERENCE_LEN -> index_in_table index len ->
  index_in_table (advance_index index step len) len.
Proof.
  unfold index_in_table, advance_index, MAX_REFERENCE_LEN. intros Hs Hl Hi.
  rewrite (to_int32_small (index + step)) by (unfold in_int32, INT32_MIN, INT32_MAX; lia).
  destruct (Z.geb_spec (index + step) len).
  - rewrite to_int32_small by (unfold in_int32, INT32_MIN, INT32_MAX; lia). lia.
  - lia.
Qed.

(** With a step beyond the table length, one sample either moves the index
    out of the table or moves it up. *)
Lemma advance_index_escapes (index step len : Z) :
  0 < len -> len < step <= INT32_MAX -> index_in_table index len ->
  ~ index_in_table (advance_index index step len) len \/
  index < advance_index index step len.
Proof.
  unfold index_in_table, advance_index, INT32_MAX. intros Hl Hs Hi.
  destruct (Z_le_gt_dec (index + step) 2147483647) as [Hfit|Hover].
  - rewrite (to_int32_small (index + step)) by (unfold in_int32, INT32_MIN, INT32_MAX; lia).
    destruct (Z.geb_spec (index + step) len); [|lia].
    rewrite to_int32_small by (unfold in_int32, INT32_MIN, INT32_MAX; lia). lia.
  - rewrite (to_int32_high (index + step)) by lia.
    destruct (Z.geb_spec (index + step - 2 ^ 32) len); lia.
Qed.

Lemma advance_n_escapes (k : nat) (index step len : Z) :
  0 < len -> len < step <= INT32_MAX -> index_in_table index len ->
  len - index <= Z.of_nat k ->
  exists j : nat, (1 <= j <= k)%nat /\ ~ index_in_table (advance_n j index step len) len.
Proof.
  intros Hl Hs. revert index. induction k as [|k IH]; intros index Hi Hk.
  - unfold index_in_table in Hi. lia.
  - destruct (advance_index_escapes index step len Hl Hs Hi) as [Hout|Hup].
    + exists 1%nat. split; [lia|exact Hout].
    + destruct (Z_lt_dec (advance_index index step len) len) as [Hlt|Hge].
      * destruct (IH (advance_index index step len)) as (j & Hj & Hout).
        { unfold index_in_table in *. lia. }
        { lia. }
        exists (S j). split; [lia|exact Hout].
      * exists 1%nat. split; [lia|]. unfold index_in_table. simpl. lia.
Qed.

(** The sample loop changes the phase indices and the filter state only. *)
Lemma sample_loop_indices (pBuffer : list Z) (l : audio_loop) :
  let st := al_state l in
  let st' := al_state (fold_left audio_sample_step pBuffer l) in
  s_heterodyne1_kHz st' = s_heterodyne1_kHz st /\
  s_heterodyne2_kHz st' = s_heterodyne2_kHz st /\
  s_reference_len st' = s_reference_len st /\
  s_reference_data st' = s_reference_data st /\
  s_reference1_index st' =
    advance_n (length pBuffer) (s_reference1_index st) (s_heterodyne1_kHz st)
      (s_reference_len st) /\
  s_reference2_index st' =
    advance_n (length pBuffer) (s_reference2_index st) (s_heterodyne2_kHz st) (s_reference_len st).
Proof.
  revert l. induction pBuffer as [|x xs IH]; intros l; simpl.
  - repeat split.
  - destruct (IH (audio_sample_step l x)) as (H1 & H2 & H3 & H4 & H5 & H6).
    assert (E : let s1 := al_state (audio_sample_step l x) in
                s_heterodyne1_kHz s1 = s_heterodyne1_kHz (al_state l) /\
                s_heterodyne2_kHz s1 = s_heterodyne2_kHz (al_state l) /\
                s_reference_len s1 = s_reference_len (al_state l) /\
                s_reference_data s1 = s_reference_data (al_state l) /\
                s_reference1_index s1 =
                  advance_index (s_reference1_index (al_state l))
                    (s_heterodyne1_kHz (al_state l)) (s_reference_len (al_state l)) /\
                s_reference2_index s1 =
                  advance_index (s_reference2_index (al_state l))
                    (s_heterodyne2_kHz (al_state l)) (s_reference_len (al_state l))).
    { unfold audio_sample_step.
      destruct (aa_cascade _ _ _) as [filtered previous]. simpl. repeat split. }
    destruct E as (E1 & E2 & E3 & E4 & E5 & E6).
    rewrite H1, H2, H3, H4, H5, H6, E1, E2, E3, E4, E5, E6. repeat split.
Qed.

Lemma write_audio_output_index1 (st : audio_state) (pBuffer : list Z) :
  s_reference1_index (fst (write_audio_output st pBuffer)) =
  advance_n (length pBuffer) (s_reference1_index st) (s_heterodyne1_kHz st) (s_reference_len st).
Proof.
  unfold write_audio_output. simpl.
  exact (proj1 (proj2 (proj2 (proj2 (proj2 (sample_loop_indices pBuffer _)))))).
Qed.

Lemma write_audio_output_index2 (st : audio_state) (pBuffer : list Z) :
  s_reference2_index (fst (write_audio_output st pBuffer)) =
  advance_n (length pBuffer) (s_reference2_index st) (s_heterodyne2_kHz st) (s_reference_len st).
Proof.
  unfold write_audio_output. simpl.
  exact (proj2 (proj2 (proj2 (proj2 (proj2 (sample_loop_indices pBuffer _)))))).
Qed.

(** After a [startAudio] that succeeded with tones that are not negative,
    every run of samples leaves both phase indices in the table. *)
Lemma validated_tones_stay_in_table (st : audio_state) (pBuffer : list Z) :
  0 < s_reference_len st <= MAX_REFERENCE_LEN ->
  0 <= s_heterodyne1_kHz st <= s_reference_len st ->
  index_in_table (s_reference1_index st) (s_reference_len st) ->
  index_in_table (s_reference1_index (fst (write_audio_output st pBuffer))) (s_reference_len st).
Proof.
  intros Hl Hh. rewrite write_audio_output_index1.
  generalize (s_reference1_index st). induction (length pBuffer) as [|k IH]; intros idx Hi.
  - exact Hi.
  - simpl. apply IH. apply advance_index_in_table; [exact Hh | lia | exact Hi].
Qed.

(** C10.  [setHeterodyne] takes any two tones, stores them as they are and
    changes nothing else; [startAudio] refuses a tone above the table length.
    Once a stored tone exceeds the table length, at most [len] samples later
    the phase index of that tone is outside the table. *)
Theorem C10_setHeterodyne_unchecked (st : audio_state) (h1 h2 : Z) :
  let st' := setHeterodyne st h1 h2 in
  let len := s_reference_len st in
  (s_heterodyne1_kHz st' = h1 /\ s_heterodyne2_kHz st' = h2 /\
   setHeterodyne st' (s_heterodyne1_kHz st) (s_heterodyne2_kHz st) = st) /\
  (forall cos_sample dev boost o,
     h1 > Z.min (s_nominal_samples_per_frame st) MAX_REFERENCE_LEN \/
     h2 > Z.min (s_nominal_samples_per_frame st) MAX_REFERENCE_LEN ->
     snd (startAudio cos_sample st dev h1 h2 boost o) = false) /\
  (forall pBuffer : list Z,
     0 < len -> len < h1 <= INT32_MAX ->
     index_in_table (s_reference1_index st) len ->
     len <= Z.of_nat (length pBuffer) ->
     exists j : nat, (1 <= j <= Z.to_nat len)%nat /\
       ~ index_in_table (s_reference1_index (fst (write_audio_output st' (take j pBuffer)))) len) /\
  (forall pBuffer : list Z,
     0 < len -> len < h2 <= INT32_MAX ->
     index_in_table (s_reference2_index st) len ->
     len <= Z.of_nat (length pBuffer) ->
     exists j : nat, (1 <= j <= Z.to_nat len)%nat /\
       ~ index_in_table (s_reference2_index (fst (write_audio_output st' (take j pBuffer)))) len).
Proof.
  intros st' len. split; [|split; [|split]].
  - split; [reflexivity|]. split; [reflexivity|]. destruct st; reflexivity.
  - intros cos_sample dev boost o Hh. unfold startAudio.
    set (n := if s_nominal_samples_per_frame st >? MAX_REFERENCE_LEN
              then MAX_REFERENCE_LEN else s_nominal_samples_per_frame st).
    assert (En : n = Z.min (s_nominal_samples_per_frame st) MAX_REFERENCE_LEN).
    { unfold n. destruct (Z.gtb_spec (s_nominal_samples_per_frame st) MAX_REFERENCE_LEN); lia. }
    rewrite <- En in Hh.
    assert (Hor : (h1 >? n) || (h2 >? n) = true).
    { apply orb_true_iff. destruct Hh; [left|right]; apply Z.gtb_lt; lia. }
    rewrite Hor. reflexivity.
  - intros pBuffer Hl Hh Hi Hb.
    destruct (advance_n_escapes (Z.to_nat len) (s_reference1_index st) h1 len Hl Hh Hi)
      as (j & Hj & Hout); [unfold index_in_table in Hi; lia|].
    exists j. split; [exact Hj|].
    rewrite write_audio_output_index1. rewrite length_take, Nat.min_l by lia. exact Hout.
  - intros pBuffer Hl Hh Hi Hb.
    destruct (advance_n_escapes (Z.to_nat len) (s_reference2_index st) h2 len Hl Hh Hi)
      as (j & Hj & Hout); [unfold index_in_table in Hi; lia|].
    exists j. split; [exact Hj|].
    rewrite write_audio_output_index2. rewrite length_take, Nat.min_l by lia. exact Hout.
Qed.

End Heterodyne.

Lemma C10_setHeterodyne_witness :
  let st := fst (startAudio cos_sample_taylor (stream_setup initial_audio_state 4000 0)
                   0 1 0 0 StreamStarted) in
  0 < s_reference_len st /\ s_reference_len st < 9 <= INT32_MAX /\
  index_in_table (s_reference1_index st) (s_reference_len st) /\
  s_reference_len st <= Z.of_nat (length [1; 1; 1; 1]) /\
  exists j : nat, (1 <= j <= Z.to_nat (s_reference_len st))%nat /\
    ~ index_in_table
        (s_reference1_index (fst (write_audio_output (setHeterodyne st 9 0) (take j [1; 1; 1; 1]))))
        (s_reference_len st).
Proof.
  intros st.
  assert (H1 : 0 < s_reference_len st) by (vm_compute; reflexivity).
  assert (H2 : s_reference_len st < 9 <= INT32_MAX)
    by (vm_compute; split; [reflexivity|discriminate]).
  assert (H3 : index_in_table (s_reference1_index st) (s_reference_len st))
    by (vm_compute; split; [discriminate|reflexivity]).
  assert (H4 : s_reference_len st <= Z.of_nat (length [1; 1; 1; 1])) by (vm_compute; discriminate).
  split; [exact H1|]. split; [exact H2|]. split; [exact H3|]. split; [exact H4|].
  exact (proj1 (proj2 (proj2 (C10_setHeterodyne_unchecked st 9 0))) [1; 1; 1; 1] H1 H2 H3 H4).
Defined.

(** ** The table in every reachable state *)
Section ReachableStates.
Variable cos_sample : Z -> Z -> Z.

Lemma sample_loop_nominal (pBuffer : list Z) (l : audio_loop) :
  s_nominal_samples_per_frame (al_state (fold_left audio_sample_step pBuffer l))
  = s_nominal_samples_per_frame (al_state l).
Proof.
  revert l. induction pBuffer as [|x xs IH]; intros l; simpl; [reflexivity|].
  rewrite IH. unfold audio_sample_step.
  destruct (aa_cascade _ _ _) as [filtered previous]. reflexivity.
Qed.

Lemma startAudio_nominal (st : audio_state) (dev h1 h2 boost : Z) (o : aaudio_outcome) :
  s_nominal_samples_per_frame (fst (startAudio cos_sample st dev h1 h2 boost o))
  = s_nominal_samples_per_frame st.
Proof.
  unfold startAudio. destruct (_ || _); [reflexivity|].
  destruct (start_audio_output o). reflexivity.
Qed.

(** Whatever the host calls and in whatever order, the table is well formed:
    the hypothesis of the table's properties holds in every reachable state. *)
Lemma audio_reachable_reference_ok (st : audio_state) :
  audio_reachable cos_sample st ->
  reference_ok cos_sample st /\ 0 <= s_nominal_samples_per_frame st.
Proof.
  induction 1 as [|st rate c _ [IH1 IH2] Hr|st dev h1 h2 boost o _ [IH1 IH2]
                 |st h1 h2 _ [IH1 IH2]|st pBuffer _ [IH1 IH2]].
  - split; [apply initial_reference_ok|simpl; lia].
  - split; [exact IH1|]. simpl. apply Z.quot_pos; lia.
  - split; [apply startAudio_reference_ok; assumption|].
    rewrite startAudio_nominal. exact IH2.
  - split; [exact IH1|exact IH2].
  - unfold write_audio_output. cbn [fst]. split.
    + destruct (sample_loop_indices pBuffer
                  {| al_state := st; al_decimation_counter := 0; al_downsampled := [] |})
        as (_ & _ & E3 & E4 & _).
      cbn [al_state] in E3, E4. unfold reference_ok. rewrite E3, E4. exact IH1.
    + rewrite sample_loop_nominal. exact IH2.
Qed.

End ReachableStates.

(** ** Anti-alias filter *)
Section AntiAliasFilter.
Variable coeff : Z.
Hypothesis coeff_range : 0 < coeff < 2 ^ 31.

(** No [int64_t] operation of a stage overflows on 32-bit operands. *)
Lemma aa_stage_exact (f p : Z) :
  in_int32 f -> in_int32 p ->
  aa_stage coeff f p = (coeff * f + (2 ^ 31 - coeff) * p) / 2 ^ 31.
Proof.
  unfold in_int32, INT32_MIN, INT32_MAX. intros Hf Hp.
  change (2 ^ 31) with 2147483648 in *.
  unfold aa_stage. change (2 ^ 31) with 2147483648.
  assert (B1 : - 2 ^ 62 <= coeff * f <= 2 ^ 62) by (change (2 ^ 62) with 4611686018427387904; nia).
  assert (B2 : - 2 ^ 62 <= (2147483648 - coeff) * p <= 2 ^ 62)
    by (change (2 ^ 62) with 4611686018427387904; nia).
  change (2 ^ 62) with 4611686018427387904 in *.
  assert (U1 : coeff * f <= coeff * 2147483647) by (apply Z.mul_le_mono_nonneg_l; lia).
  assert (U2 : (2147483648 - coeff) * p <= (2147483648 - coeff) * 2147483647)
    by (apply Z.mul_le_mono_nonneg_l; lia).
  assert (L1 : coeff * (-2147483648) <= coeff * f) by (apply Z.mul_le_mono_nonneg_l; lia).
  assert (L2 : (2147483648 - coeff) * (-2147483648) <= (2147483648 - coeff) * p)
    by (apply Z.mul_le_mono_nonneg_l; lia).
  rewrite (to_int64_small (2147483648 - coeff))
    by (change (2 ^ 63) with 9223372036854775808; lia).
  rewrite (to_int64_small (coeff * f)) by (change (2 ^ 63) with 9223372036854775808; lia).
  rewrite (to_int64_small ((2147483648 - coeff) * p))
    by (change (2 ^ 63) with 9223372036854775808; lia).
  rewrite to_int64_small by (change (2 ^ 63) with 9223372036854775808; lia).
  rewrite Z.shiftr_div_pow2 by lia. reflexivity.
Qed.

(** The new value of a stage lies between its old value and its input. *)
Lemma stage_between (u p : Z) :
  let g := (coeff * u + (2 ^ 31 - coeff) * p) / 2 ^ 31 in
  (p <= u -> p <= g <= u) /\ (u <= p -> u <= g <= p).
Proof.
  change (2 ^ 31) with 2147483648 in *. intros g. unfold g. split; intros H; split.
  - apply Z.div_le_lower_bound; nia.
  - apply Z.div_le_upper_bound; nia.
  - apply Z.div_le_lower_bound; nia.
  - apply Z.div_le_upper_bound; nia.
Qed.

(** A stage at rest under input [u] sits at most [stage_slack] below [u]. *)
Lemma stage_rest_bounds (u p : Z) :
  (coeff * u + (2 ^ 31 - coeff) * p) / 2 ^ 31 = p ->
  u - stage_slack coeff <= p <= u.
Proof.
  unfold stage_slack. change (2 ^ 31) with 2147483648 in *. intros E.
  pose proof (Z.div_mod (coeff * u + (2147483648 - coeff) * p) 2147483648 ltac:(lia)) as D.
  pose proof (Z.mod_pos_bound (coeff * u + (2147483648 - coeff) * p) 2147483648 ltac:(lia)) as B.
  rewrite E in D.
  assert (H : 0 <= coeff * (u - p) <= 2147483648 - 1) by nia.
  split; [|nia].
  assert (u - p <= (2147483648 - 1) / coeff); [|lia].
  apply Z.div_le_lower_bound; lia.
Qed.

(** A stage that moves gets strictly closer to its input. *)
Lemma stage_moves_closer (u p : Z) :
  let g := (coeff * u + (2 ^ 31 - coeff) * p) / 2 ^ 31 in
  g = p \/ Z.abs (u - g) < Z.abs (u - p).
Proof.
  intros g. destruct (Z.eq_dec g p) as [E|E]; [left; exact E|right].
  destruct (stage_between u p) as [Hlo Hhi]. fold g in Hlo, Hhi.
  destruct (Z_le_gt_dec p u) as [H|H].
  - specialize (Hlo H). lia.
  - specialize (Hhi ltac:(lia)). lia.
Qed.

Lemma aa_stage_in_int32 (f p : Z) : in_int32 f -> in_int32 p -> in_int32 (aa_stage coeff f p).
Proof.
  intros Hf Hp. rewrite aa_stage_exact by assumption.
  destruct (stage_between f p) as [Hlo Hhi].
  unfold in_int32 in *.
  destruct (Z_le_gt_dec p f); [specialize (Hlo ltac:(lia)) | specialize (Hhi ltac:(lia))]; lia.
Qed.

Section OneStage.
Variable mixed : nat -> Z.
Variable p0 : Z.
Hypothesis mixed_range : forall n, in_int32 (mixed n).
Hypothesis p0_range : in_int32 p0.

Lemma stage_state_in_int32 (n : nat) : in_int32 (stage_state coeff mixed p0 n).
Proof.
  induction n as [|n IH]; simpl; [exact p0_range|].
  rewrite to_int32_small; apply aa_stage_in_int32; auto.
Qed.

Lemma stage_output_in_int32 (n : nat) : in_int32 (stage_output coeff mixed p0 n).
Proof. apply aa_stage_in_int32; [apply mixed_range | apply stage_state_in_int32]. Qed.

Lemma stage_state_succ (n : nat) :
  stage_state coeff mixed p0 (S n) = stage_output coeff mixed p0 n.
Proof. simpl. apply to_int32_small. apply stage_output_in_int32. Qed.

Lemma stage_output_exact (n : nat) :
  stage_output coeff mixed p0 n =
  (coeff * mixed n + (2 ^ 31 - coeff) * stage_state coeff mixed p0 n) / 2 ^ 31.
Proof. apply aa_stage_exact; [apply mixed_range | apply stage_state_in_int32]. Qed.

Variable u : Z.
Variable N : nat.
Hypothesis mixed_settled : forall n, (N <= n)%nat -> mixed n = u.

(** Under a settled input the stage comes to rest after finitely many samples. *)
Lemma stage_comes_to_rest (m : nat) (n0 : nat) :
  (N <= n0)%nat -> Z.abs (u - stage_state coeff mixed p0 n0) <= Z.of_nat m ->
  exists n1, (n0 <= n1)%nat /\ stage_output coeff mixed p0 n1 = stage_state coeff mixed p0 n1.
Proof.
  revert n0. induction m as [|m IH]; intros n0 Hn0 Hm.
  - exists n0. split; [lia|]. rewrite stage_output_exact, mixed_settled by lia.
    assert (E : stage_state coeff mixed p0 n0 = u) by lia. rewrite E.
    replace (coeff * u + (2 ^ 31 - coeff) * u) with (u * 2 ^ 31) by ring.
    apply Z.div_mul. lia.
  - destruct (stage_moves_closer u (stage_state coeff mixed p0 n0)) as [E|Hc].
    + exists n0. split; [lia|]. rewrite stage_output_exact, mixed_settled by lia. exact E.
    + destruct (IH (S n0)) as (n1 & Hn1 & E); [lia| |].
      * rewrite stage_state_succ, stage_output_exact, mixed_settled by lia. lia.
      * exists n1. split; [lia|exact E].
Qed.

Lemma stage_stays_at_rest (n1 : nat) :
  (N <= n1)%nat ->
  stage_output coeff mixed p0 n1 = stage_state coeff mixed p0 n1 ->
  forall n, (n1 <= n)%nat ->
    stage_state coeff mixed p0 n = stage_state coeff mixed p0 n1 /\
    stage_output coeff mixed p0 n = stage_state coeff mixed p0 n1.
Proof.
  intros Hn1 E n Hn. induction Hn as [|n Hn IH].
  - split; [reflexivity|exact E].
  - destruct IH as [IH1 IH2].
    assert (S1 : stage_state coeff mixed p0 (S n) = stage_state coeff mixed p0 n1)
      by (rewrite stage_state_succ; exact IH2).
    split; [exact S1|].
    rewrite stage_output_exact, S1, mixed_settled by lia.
    rewrite <- E at 2. rewrite stage_output_exact, mixed_settled by lia. reflexivity.
Qed.

(** One stage: a settled input [u] gives a settled output between
    [u - stage_slack] and [u]. *)
Lemma stage_settles :
  exists (N' : nat) (v : Z),
    u - stage_slack coeff <= v <= u /\
    forall n, (N' <= n)%nat -> stage_output coeff mixed p0 n = v.
Proof.
  destruct (stage_comes_to_rest (Z.to_nat (Z.abs (u - stage_state coeff mixed p0 N))) N)
    as (n1 & Hn1 & E); [lia|lia|].
  exists n1, (stage_state coeff mixed p0 n1). split.
  - apply stage_rest_bounds. rewrite <- E at 2.
    rewrite stage_output_exact, mixed_settled by lia. reflexivity.
  - intros n Hn. apply (stage_stays_at_rest n1 Hn1 E n Hn).
Qed.

(** A stage that never starts below its input follows it down exactly. *)
Section FromAbove.
Hypothesis mixed_decreasing : forall n, mixed (S n) <= mixed n.
Hypothesis p0_above : mixed 0 <= p0.

Lemma stage_state_above (n : nat) : mixed n <= stage_state coeff mixed p0 n.
Proof.
  induction n as [|n IH]; [exact p0_above|].
  rewrite stage_state_succ, stage_output_exact.
  destruct (stage_between (mixed n) (stage_state coeff mixed p0 n)) as [_ Hhi].
  specialize (Hhi IH). specialize (mixed_decreasing n). lia.
Qed.

Lemma stage_output_below_state (n : nat) :
  mixed n <= stage_output coeff mixed p0 n <= stage_state coeff mixed p0 n.
Proof.
  rewrite stage_output_exact.
  destruct (stage_between (mixed n) (stage_state coeff mixed p0 n)) as [_ Hhi].
  apply Hhi. apply stage_state_above.
Qed.

Lemma stage_output_decreasing (n : nat) :
  stage_output coeff mixed p0 (S n) <= stage_output coeff mixed p0 n.
Proof.
  pose proof (stage_output_below_state (S n)) as H. rewrite stage_state_succ in H. lia.
Qed.

Lemma stage_settles_from_above :
  exists N' : nat, forall n, (N' <= n)%nat -> stage_output coeff mixed p0 n = u.
Proof.
  destruct stage_settles as (N' & v & Hv & Hout).
  exists (Nat.max N N'). intros n Hn.
  pose proof (stage_output_below_state n) as H.
  rewrite mixed_settled in H by lia. rewrite Hout in * by lia. lia.
Qed.

End FromAbove.

End OneStage.

(** The cascade is its first stage followed by the cascade of the others. *)
Lemma filter_state_after_cons (mixed : nat -> Z) (p : Z) (ps : list Z) (n : nat) :
  filter_state_after coeff mixed (p :: ps) n =
  stage_state coeff mixed p n :: filter_state_after coeff (stage_output coeff mixed p) ps n.
Proof.
  induction n as [|n IH]; [reflexivity|].
  cbn [filter_state_after]. rewrite IH. cbn [aa_cascade].
  fold (stage_output coeff mixed p n).
  destruct (aa_cascade coeff (stage_output coeff mixed p n)
              (filter_state_after coeff (stage_output coeff mixed p) ps n)) as [out ps'] eqn:E.
  cbn [snd stage_state]. reflexivity.
Qed.

Lemma filter_output_cons (mixed : nat -> Z) (p : Z) (ps : list Z) (n : nat) :
  filter_output coeff mixed (p :: ps) n =
  filter_output coeff (stage_output coeff mixed p) ps n.
Proof.
  unfold filter_output. rewrite filter_state_after_cons. cbn [aa_cascade].
  fold (stage_output coeff mixed p n).
  destruct (aa_cascade coeff (stage_output coeff mixed p n)
              (filter_state_after coeff (stage_output coeff mixed p) ps n)) as [out ps'].
  reflexivity.
Qed.

Lemma filter_output_nil (mixed : nat -> Z) (n : nat) : filter_output coeff mixed [] n = mixed n.
Proof.
  unfold filter_output.
  assert (E : filter_state_after coeff mixed [] n = []).
  { induction n as [|n IH]; [reflexivity|]. simpl. rewrite IH. reflexivity. }
  rewrite E. reflexivity.
Qed.

(** The cascade: each stage adds at most [stage_slack] to the distance
    between the settled output and the settled input. *)
Lemma cascade_settles (previous : list Z) :
  Forall in_int32 previous ->
  forall (mixed : nat -> Z) (u : Z) (N : nat),
    (forall n, in_int32 (mixed n)) ->
    (forall n, (N <= n)%nat -> mixed n = u) ->
    exists (N' : nat) (v : Z),
      u - Z.of_nat (length previous) * stage_slack coeff <= v <= u /\
      forall n, (N' <= n)%nat -> filter_output coeff mixed previous n = v.
Proof.
  assert (Hslack : 0 <= stage_slack coeff).
  { unfold stage_slack. apply Z.div_pos; lia. }
  induction 1 as [|p ps Hp Hps IH]; intros mixed u N Hrange Hsettled.
  - exists N, u. split; [simpl; lia|]. intros n Hn. rewrite filter_output_nil. auto.
  - destruct (stage_settles mixed p Hrange Hp u N Hsettled) as (N1 & v1 & Hv1 & Hout1).
    destruct (IH (stage_output coeff mixed p) v1 N1) as (N2 & v & Hv & Hout).
    + intros n. apply stage_output_in_int32; assumption.
    + exact Hout1.
    + exists N2, v. split.
      * cbn [length]. rewrite Nat2Z.inj_succ. nia.
      * intros n Hn. rewrite filter_output_cons. apply Hout. exact Hn.
Qed.

(** The cascade from above: when no stage starts below what feeds it, the
    output settles at the input itself. *)
Lemma cascade_settles_from_above (previous : list Z) :
  Forall in_int32 previous ->
  forall (mixed : nat -> Z) (b u : Z) (N : nat),
    (forall n, in_int32 (mixed n)) ->
    (forall n, mixed (S n) <= mixed n) ->
    (forall n, (N <= n)%nat -> mixed n = u) ->
    mixed 0%nat <= b -> ascending b previous ->
    exists N' : nat, forall n, (N' <= n)%nat -> filter_output coeff mixed previous n = u.
Proof.
  induction 1 as [|p ps Hp Hps IH]; intros mixed b u N Hrange Hdec Hsettled Hb Hasc.
  - exists N. intros n Hn. rewrite filter_output_nil. auto.
  - destruct Hasc as [Hbp Hasc].
    destruct (stage_settles_from_above mixed p Hrange Hp u N Hsettled Hdec ltac:(lia))
      as (N1 & Hout1).
    destruct (IH (stage_output coeff mixed p) p u N1) as (N2 & Hout).
    + intros n. apply stage_output_in_int32; assumption.
    + intros n. apply stage_output_decreasing; [assumption|assumption|assumption|lia].
    + exact Hout1.
    + pose proof (stage_output_below_state mixed p Hrange Hp Hdec ltac:(lia) 0%nat) as H0.
      simpl in H0. lia.
    + exact Hasc.
    + exists N2. intros n Hn. rewrite filter_output_cons. apply Hout. exact Hn.
Qed.

End AntiAliasFilter.

(** A state that one sample leaves unchanged is kept by every later sample. *)
Lemma filter_fixed_state (coeff x v : Z) (previous rest : list Z) (N : nat) :
  filter_state_after coeff (fun _ => x) previous N = rest ->
  aa_cascade coeff x rest = (v, rest) ->
  forall n, (N <= n)%nat -> filter_output coeff (fun _ => x) previous n = v.
Proof.
  intros HN Hfix n Hn.
  assert (E : filter_state_after coeff (fun _ => x) previous n = rest).
  { induction Hn as [|n Hn IH]; [exact HN|]. simpl. rewrite IH, Hfix. reflexivity. }
  unfold filter_output. rewrite E, Hfix. reflexivity.
Qed.

(** C6 as stated fails, because [>> 31] truncates.  From the reset state and
    with coefficient 2^30 the constant input 1 gives the output 0 for ever.
    With the coefficient of a 384 kHz session (102868919, for the 3 kHz
    cutoff) the constant input 32766 - a constant sample 1 mixed with the
    table's first entry - settles at 32686, which is 4 * 20 below it. *)
Lemma C6_filter_counterexample :
  (forall n : nat, filter_output (2 ^ 30) (fun _ => 1) [0; 0; 0; 0] n = 0) /\
  (forall n : nat, (400 <= n)%nat ->
     filter_output 102868919 (fun _ => 32766) [0; 0; 0; 0] n = 32686) /\
  stage_slack 102868919 = 20.
Proof.
  split; [|split].
  - intros n. apply (filter_fixed_state _ _ _ _ [0; 0; 0; 0] 0); [reflexivity|reflexivity|lia].
  - apply (filter_fixed_state _ _ _ _ [32746; 32726; 32706; 32686]); vm_compute; reflexivity.
  - reflexivity.
Qed.

(** C6, amended.  For a coefficient in (0, 2^31), a constant 32-bit input x
    and any 32-bit filter state, the output of the cascade becomes constant
    after finitely many samples, at a value v with
    x - stages * ((2^31 - 1) / coeff) <= v <= x: each of the stages can rest up
    to [stage_slack] below its input, and never above it.  When no stage
    starts below what feeds it (x <= previous[0] <= previous[1] <= ..., as
    after a reset with x <= 0), v is x itself. *)
Theorem C6_filter_settles_near_input (coeff x : Z) (previous : list Z) :
  0 < coeff < 2 ^ 31 -> in_int32 x -> Forall in_int32 previous ->
  exists (N : nat) (v : Z),
    x - Z.of_nat (length previous) * stage_slack coeff <= v <= x /\
    (ascending x previous -> v = x) /\
    forall n : nat, (N <= n)%nat -> filter_output coeff (fun _ => x) previous n = v.
Proof.
  intros Hc Hx Hp.
  destruct (cascade_settles coeff Hc previous Hp (fun _ => x) x 0%nat) as (N & v & Hv & Hout);
    auto.
  exists N, v. split; [exact Hv|]. split; [|exact Hout].
  intros Hasc.
  destruct (cascade_settles_from_above coeff Hc previous Hp (fun _ => x) x x 0%nat)
    as (N' & Hout'); auto; try lia.
  rewrite <- (Hout (Nat.max N N')) by lia. apply Hout'. lia.
Qed.

Lemma C6_filter_witness :
  exists (N : nat) (v : Z),
    -32766 - Z.of_nat (length [0; 0; 0; 0]) * stage_slack 102868919 <= v <= -32766 /\
    (ascending (-32766) [0; 0; 0; 0] -> v = -32766) /\
    forall n : nat, (N <= n)%nat ->
      filter_output 102868919 (fun _ => -32766) [0; 0; 0; 0] n = v.
Proof.
  apply (C6_filter_settles_near_input 102868919 (-32766) [0; 0; 0; 0]).
  - change (2 ^ 31) with 2147483648. lia.
  - unfold in_int32, INT32_MIN, INT32_MAX. lia.
  - repeat constructor; unfold INT32_MIN, INT32_MAX; lia.
Defined.

(** An input at which every stage already rests is kept exactly. *)
Lemma filter_keeps_its_input (coeff x : Z) (n : nat) :
  0 < coeff < 2 ^ 31 -> in_int32 x ->
  filter_output coeff (fun _ => x) (replicate DOWNSAMPLING_AA_STAGES x) n = x.
Proof.
  intros Hc Hx.
  assert (S1 : aa_stage coeff x x = x).
  { rewrite aa_stage_exact by assumption.
    replace (coeff * x + (2 ^ 31 - coeff) * x) with (x * 2 ^ 31) by ring.
    apply Z.div_mul. lia. }
  apply (filter_fixed_state _ _ _ _ (replicate DOWNSAMPLING_AA_STAGES x) 0);
    [reflexivity| |lia].
  simpl. rewrite !S1, to_int32_small by exact Hx. reflexivity.
Qed.

Lemma filter_state_after_shift (coeff m : Z) (previous : list Z) (k : nat) :
  filter_state_after coeff (fun _ => m) previous (S k) =
  filter_state_after coeff (fun _ => m) (snd (aa_cascade coeff m previous)) k.
Proof.
  induction k as [|k IH]; [reflexivity|].
  change (filter_state_after coeff (fun _ => m) previous (S (S k)))
    with (snd (aa_cascade coeff m (filter_state_after coeff (fun _ => m) previous (S k)))).
  rewrite IH. reflexivity.
Qed.

Lemma advance_index_zero_step (index len : Z) :
  index_in_table index len -> len <= MAX_REFERENCE_LEN -> advance_index index 0 len = index.
Proof.
  unfold index_in_table, advance_index, MAX_REFERENCE_LEN. intros Hi Hl.
  rewrite Z.add_0_r, to_int32_small by (unfold in_int32, INT32_MIN, INT32_MAX; lia).
  destruct (Z.geb_spec index len); lia.
Qed.

(** [write_audio_output] on a run of equal samples, with both tone steps 0:
    the filter sees the constant [sample * table[index]]. *)
Lemma write_audio_output_constant_input (k : nat) (x : Z) (l : audio_loop) :
  let st := al_state l in
  s_heterodyne1_kHz st = 0 -> s_heterodyne2_kHz st = 0 ->
  index_in_table (s_reference1_index st) (s_reference_len st) ->
  s_reference_len st <= MAX_REFERENCE_LEN ->
  s_downsampling_filter_state (al_state (fold_left audio_sample_step (replicate k x) l)) =
  filter_state_after (s_downsampling_iir_coefficient st)
    (fun _ => x * reference_at (s_reference_data st) (s_reference1_index st))
    (s_downsampling_filter_state st) k.
Proof.
  revert l. induction k as [|k IH]; intros l st H1 H2 Hi Hl; [reflexivity|].
  rewrite filter_state_after_shift. cbn [replicate fold_left].
  assert (E : let s1 := al_state (audio_sample_step l x) in
              s_heterodyne1_kHz s1 = 0 /\ s_heterodyne2_kHz s1 = 0 /\
              s_reference_len s1 = s_reference_len st /\
              s_reference_data s1 = s_reference_data st /\
              s_reference1_index s1 = s_reference1_index st /\
              s_downsampling_iir_coefficient s1 = s_downsampling_iir_coefficient st /\
              s_downsampling_filter_state s1 =
                snd (aa_cascade (s_downsampling_iir_coefficient st)
                       (x * reference_at (s_reference_data st) (s_reference1_index st))
                       (s_downsampling_filter_state st))).
  { unfold audio_sample_step. fold st. rewrite H2. cbn [Z.eqb].
    destruct (aa_cascade _ _ _) as [filtered previous]. cbn.
    rewrite H1, advance_index_zero_step by assumption. repeat split. }
  destruct E as (E1 & E2 & E3 & E4 & E5 & E6 & E7).
  rewrite IH; rewrite ?E1, ?E2, ?E3, ?E4, ?E5, ?E6, ?E7; auto.
Qed.

(** The heterodyne path of a 384 kHz session end to end (under the stand-in
    cosine): with both tone steps 0, a run of 600 samples of value 1 leaves
    the last filter stage at 32686, not at the mixed input 1 * 32766; and
    after [setHeterodyne 1000 0] a single sample moves the first phase index
    to 616, beyond the 384 entries of the table. *)
Example heterodyne_session_384k :
  let st0 := stream_setup initial_audio_state 384000 102868919 in
  let st1 := fst (startAudio cos_sample_taylor st0 0 0 0 0 StreamStarted) in
  s_reference_len st1 = 384 /\
  reference_at (s_reference_data st1) 0 = 32766 /\
  s_downsampling_filter_state (fst (write_audio_output st1 (replicate 600 1)))
    = [32746; 32726; 32706; 32686] /\
  s_reference1_index (fst (write_audio_output (setHeterodyne st1 1000 0) [1])) = 616.
Proof. vm_compute. repeat split. Qed.

(** ** The capture loop *)
Section CaptureLoop.

(** The juggling loop keeps its count in step with the device: in every step
    after the initial submissions, [balls_in_the_air] changes exactly as the
    number of transfers in flight does. *)
Lemma main_loop_tracks_in_flight (c : capture) (o : observation) :
  in_main_loop c ->
  balls_in_the_air (capture_step c o) - in_flight (capture_step c o)
  = balls_in_the_air c - in_flight c.
Proof.
  unfold in_main_loop, capture_step. destruct (cp_pc c); intros H; try contradiction;
    simpl; destruct (ob_ret o =? 0); lia.
Qed.

Lemma main_loop_is_closed (c : capture) (o : observation) :
  in_main_loop c -> in_main_loop (capture_step c o).
Proof.
  unfold in_main_loop, capture_step. destruct (cp_pc c) eqn:E; intros H; try contradiction; simpl.
  - destruct (negb (ob_cancel o) || (balls_in_the_air c >? 0)); exact I.
  - destruct (interrupted o && negb (ob_cancel o)); [exact I|].
    destruct (negb (ob_ret o =? 0)); [destruct (ob_errno o =? ENODEV)|]; exact I.
  - destruct (ob_cancel o); exact I.
  - destruct (interrupted o); [exact I|].
    destruct (negb (ob_ret o =? 0) && (ob_errno o =? ENODEV)); exact I.
  - rewrite E. exact I.
Qed.

(** The bookkeeping of the juggling loop, clause by clause.  The loop goes
    on exactly while cancellation is not pending or the count is positive. *)
Lemma loop_test_continues (c : capture) (o : observation) :
  cp_pc c = LoopTest ->
  (cp_pc (capture_step c o) = Reap <-> ob_cancel o = false \/ 0 < balls_in_the_air c).
Proof.
  intros H. unfold capture_step. rewrite H. simpl.
  destruct (ob_cancel o); simpl.
  - destruct (Z.gtb_spec (balls_in_the_air c) 0) as [Hb|Hb]; split; intros Hx;
      try reflexivity; try discriminate; [right; lia|].
    destruct Hx as [Hx|Hx]; [discriminate|lia].
  - split; [left|]; reflexivity.
Qed.

(** A reap that returns 0 takes one off the count. *)
Lemma reap_decrements (c : capture) (o : observation) :
  cp_pc c = Reap -> ob_ret o = 0 ->
  balls_in_the_air (capture_step c o) = balls_in_the_air c - 1.
Proof. intros H Hr. unfold capture_step. rewrite H. simpl. rewrite Hr. reflexivity. Qed.

(** A slot is re-submitted only after a read of [s_cancel_pending] that found
    it clear, or as the retry of an interrupted re-submission. *)
Lemma resubmit_only_when_not_cancelled (c : capture) (o : observation) :
  in_main_loop c -> cp_pc (capture_step c o) = Resubmit ->
  (cp_pc c = Recycle /\ ob_cancel o = false) \/
  (cp_pc c = Resubmit /\ interrupted o = true).
Proof.
  unfold in_main_loop, capture_step. destruct (cp_pc c) eqn:E; try contradiction; simpl; intros _ H.
  - destruct (negb (ob_cancel o) || (balls_in_the_air c >? 0)); discriminate.
  - destruct (interrupted o && negb (ob_cancel o)); [discriminate|].
    destruct (negb (ob_ret o =? 0)); [destruct (ob_errno o =? ENODEV)|]; discriminate.
  - left. destruct (ob_cancel o); [discriminate|]. split; reflexivity.
  - right. destruct (interrupted o); [split; reflexivity|].
    destruct (negb (ob_ret o =? 0) && (ob_errno o =? ENODEV)); discriminate.
  - rewrite E in H. discriminate.
Qed.

(** In the juggling loop the count grows only by a re-submission that
    returned 0. *)
Lemma main_loop_increment_is_success (c : capture) (o : observation) :
  in_main_loop c -> balls_in_the_air c < balls_in_the_air (capture_step c o) ->
  cp_pc c = Resubmit /\ ob_ret o = 0.
Proof.
  unfold in_main_loop, capture_step. destruct (cp_pc c) eqn:E; try contradiction; simpl; intros _ H;
    try lia.
  - destruct (ob_ret o =? 0); lia.
  - destruct (Z.eqb_spec (ob_ret o) 0); [split; [reflexivity|assumption]|lia].
Qed.

(** The initial submissions count every attempt, also one that failed. *)
Lemma initial_submit_counts_every_attempt (c : capture) (o : observation) (i : Z) :
  cp_pc c = InitialSubmit i ->
  balls_in_the_air (capture_step c o) = balls_in_the_air c + 1 /\
  (ob_ret o <> 0 -> in_flight (capture_step c o) = in_flight c).
Proof.
  intros H. unfold capture_step. rewrite H. simpl. split; [reflexivity|].
  intros Hr. destruct (Z.eqb_spec (ob_ret o) 0); lia.
Qed.

(** Over any run, the count exceeds the transfers in flight by the number of
    initial attempts that failed: by nothing when every initial submission
    succeeded at once, and for good otherwise. *)
Lemma count_exceeds_in_flight_by_failed_attempts (os : list observation) (c : capture) :
  balls_in_the_air (capture_run c os) - in_flight (capture_run c os)
  = balls_in_the_air c - in_flight c + failed_initial_attempts c os.
Proof.
  revert c. induction os as [|o os IH]; intros c; simpl; [lia|].
  unfold capture_run in *. rewrite IH.
  destruct (cp_pc c) eqn:E.
  - pose proof (initial_submit_counts_every_attempt c o i E) as [H1 H2].
    unfold capture_step in *. rewrite E in *. simpl in *.
    destruct (Z.eqb_spec (ob_ret o) 0); lia.
  - rewrite <- (main_loop_tracks_in_flight c o); [lia|unfold in_main_loop; rewrite E; exact I].
  - rewrite <- (main_loop_tracks_in_flight c o); [lia|unfold in_main_loop; rewrite E; exact I].
  - rewrite <- (main_loop_tracks_in_flight c o); [lia|unfold in_main_loop; rewrite E; exact I].
  - rewrite <- (main_loop_tracks_in_flight c o); [lia|unfold in_main_loop; rewrite E; exact I].
  - rewrite <- (main_loop_tracks_in_flight c o); [lia|unfold in_main_loop; rewrite E; exact I].
Qed.

(** C1, at the failing input.  The first SUBMITURB is interrupted (EINTR) and
    retried; all ten slots are then submitted.  The loop is entered with a
    count of 11 for 10 transfers in flight.  Cancellation is then requested
    and the ten transfers are reaped: the count is still 1, so the loop test
    passes and the thread waits in REAPURB for a transfer that does not
    exist.  The re-submission at line 423 counts a submission only when it
    returned 0; line 311 does not test. *)
Theorem C1_initial_submission_overcounts :
  let c1 := capture_run capture_start (eintr :: replicate 10 ok) in
  let drain := concat (replicate 10 [cancel_seen; cancel_seen; cancel_seen]) in
  let c2 := capture_run c1 (drain ++ [cancel_seen]) in
  cp_pc c1 = LoopTest /\ balls_in_the_air c1 = 11 /\ in_flight c1 = 10 /\
  cp_pc c2 = Reap /\ balls_in_the_air c2 = 1 /\ in_flight c2 = 0.
Proof. vm_compute. repeat split. Qed.

(** Without the interruption the same run ends: the count reaches 0 with the
    last reap and [stream] returns 0. *)
Example capture_run_without_interruption :
  let c1 := capture_run capture_start (replicate 10 ok) in
  let drain := concat (replicate 10 [cancel_seen; cancel_seen; cancel_seen]) in
  let c2 := capture_run c1 (drain ++ [cancel_seen]) in
  balls_in_the_air c1 = 10 /\ in_flight c1 = 10 /\
  cp_pc c2 = Finished 0 /\ balls_in_the_air c2 = 0 /\ in_flight c2 = 0.
Proof. vm_compute. repeat split. Qed.

End CaptureLoop.

(** ** The colour map *)
Section ColourMap.

(** Nothing sets [s_already_initialized]: the assignment stands in the branch
    that is taken only when it is already set. *)
Lemma already_initialized_stays_false (st : colour_state) (m : option (list Z)) (n c : Z) :
  s_already_initialized st = false ->
  s_already_initialized (fst (nativeInitialize st m n c)) = false.
Proof.
  intros H. unfold nativeInitialize. rewrite H. destruct m; reflexivity.
Qed.

(** Every call that is given a table stores a copy of that table. *)
Lemma nativeInitialize_stores_argument (st : colour_state) (pData : list Z) (n c : Z) :
  s_already_initialized st = false ->
  s_colourMapData (fst (nativeInitialize st (Some pData) n c)) = Some (copy_colour_map pData n) /\
  s_colourMapDataSize (fst (nativeInitialize st (Some pData) n c)) = n.
Proof. intros H. unfold nativeInitialize. rewrite H. split; reflexivity. Qed.

(** Repeating a call with the same arguments gives the same stored state. *)
Lemma nativeInitialize_repeat (st : colour_state) (m : option (list Z)) (n c : Z) :
  nativeInitialize (fst (nativeInitialize st m n c)) m n c = nativeInitialize st m n c.
Proof.
  unfold nativeInitialize.
  destruct (s_already_initialized st) eqn:E; simpl; [reflexivity|].
  destruct m; simpl; rewrite ?E; reflexivity.
Qed.

(** C9, at the failing input.  After a first successful call with the table
    [10; 20], a second call with the table [30] replaces the stored copy:
    the flag that should make later calls return early is still clear. *)
Theorem C9_second_call_replaces_colour_map :
  let r1 := nativeInitialize initial_colour_state (Some [10; 20]) 2 65535 in
  let r2 := nativeInitialize (fst r1) (Some [30]) 1 65535 in
  snd r1 = 0 /\ s_colourMapData (fst r1) = Some [10; 20] /\
  s_already_initialized (fst r1) = false /\
  snd r2 = 0 /\ s_colourMapData (fst r2) = Some [30] /\ s_colourMapDataSize (fst r2) = 1.
Proof. vm_compute. repeat split. Qed.

(** The clamp of colour mapping, whatever the conversion to [int] gave. *)
Lemma colour_index_in_range (value offset multiplier : Q) (size : Z) :
  1 <= size -> 0 <= colour_index value offset multiplier size <= size - 1.
Proof.
  intros Hs. unfold colour_index. cbn zeta.
  generalize (float_to_int (colour_scale value offset multiplier)). intros int_value.
  destruct (Z.gtb_spec int_value (size - 1)); [lia|].
  destruct (Z.ltb_spec int_value 0); lia.
Qed.

Lemma colour_lookup_in_range (st : colour_state) (table : list Z) (int_value : Z) :
  s_colourMapData st = Some table -> Z.of_nat (length table) = s_colourMapDataSize st ->
  0 <= int_value <= s_colourMapDataSize st - 1 ->
  exists colour, colour_lookup st int_value = Some colour.
Proof.
  intros Ht Hl Hi. unfold colour_lookup. rewrite Ht.
  destruct (Z.ltb_spec int_value 0); [lia|].
  apply lookup_lt_is_Some_2. lia.
Qed.

Lemma colour_row_in_bounds (st : colour_state) (table : list Z) (data : list Q)
    (offset multiplier : Q) (fbc stride timeBucket : Z) (count : nat) (fb : Z) (ii : Z)
    (pixels : list Z) :
  s_colourMapData st = Some table -> Z.of_nat (length table) = s_colourMapDataSize st ->
  1 <= s_colourMapDataSize st ->
  exists pixels',
    colour_row st data offset multiplier fbc stride timeBucket count fb ii pixels = Some pixels'.
Proof.
  intros Ht Hl Hs. revert fb ii pixels.
  induction count as [|count IH]; intros fb ii pixels; simpl; [eauto|].
  destruct (colour_lookup_in_range st table
              (colour_index (rdQ_at data ii) offset multiplier (s_colourMapDataSize st)) Ht Hl)
    as [colour ->]; [apply colour_index_in_range; exact Hs|].
  apply IH.
Qed.

Lemma colour_rows_in_bounds (st : colour_state) (table : list Z) (data : list Q)
    (offset multiplier : Q) (fbc stride : Z) (count : nat) (timeBucket : Z) (ii : Z)
    (pixels : list Z) :
  s_colourMapData st = Some table -> Z.of_nat (length table) = s_colourMapDataSize st ->
  1 <= s_colourMapDataSize st ->
  exists pixels',
    colour_rows st data offset multiplier fbc stride count timeBucket ii pixels = Some pixels'.
Proof.
  intros Ht Hl Hs. revert timeBucket ii pixels.
  induction count as [|count IH]; intros timeBucket ii pixels; simpl; [eauto|].
  destruct (colour_row_in_bounds st table data offset multiplier fbc stride timeBucket
              (Z.to_nat fbc) 0 ii pixels Ht Hl Hs) as [pixels' ->].
  apply IH.
Qed.

(** C8.  With a colour table of at least one entry, whatever the dB value,
    offset and multiplier, the clamped index lies in [0, table_size - 1], and
    no table read of a rendering pass falls outside the table. *)
Theorem C8_colour_index_clamped (st : colour_state) (table : list Z)
    (value offset multiplier : Q) :
  s_colourMapData st = Some table -> Z.of_nat (length table) = s_colourMapDataSize st ->
  1 <= s_colourMapDataSize st ->
  let size := s_colourMapDataSize st in
  0 <= colour_index value offset multiplier size <= size - 1 /\
  (exists colour,
     colour_lookup st (colour_index value offset multiplier size) = Some colour) /\
  (forall first second data fbc stride pixels,
     exists pixels',
       doColourMapping st first second data fbc stride pixels offset multiplier = Some pixels').
Proof.
  intros Ht Hl Hs. split; [|split].
  - apply colour_index_in_range. exact Hs.
  - apply (colour_lookup_in_range st table); [exact Ht|exact Hl|].
    apply colour_index_in_range. exact Hs.
  - intros first second data fbc stride pixels. unfold doColourMapping.
    apply (colour_rows_in_bounds st table); assumption.
Qed.

End ColourMap.

(** After a call that was given a table of at least [size] >= 0 entries, the
    stored table has [s_colourMapDataSize] entries. *)
Lemma nativeInitialize_table_size (st : colour_state) (pData : list Z) (n c : Z) :
  s_already_initialized st = false -> 0 <= n ->
  exists table,
    s_colourMapData (fst (nativeInitialize st (Some pData) n c)) = Some table /\
    Z.of_nat (length table) = s_colourMapDataSize (fst (nativeInitialize st (Some pData) n c)).
Proof.
  intros H Hn. unfold nativeInitialize. rewrite H. simpl.
  exists (copy_colour_map pData n). split; [reflexivity|].
  unfold copy_colour_map. rewrite length_map, length_seq. lia.
Qed.

Lemma C8_colour_index_witness :
  let st := fst (nativeInitialize initial_colour_state (Some [7; 8; 9]) 3 0) in
  0 <= colour_index (1000 # 1)%Q 0%Q 1%Q (s_colourMapDataSize st) <= s_colourMapDataSize st - 1 /\
  (exists colour,
     colour_lookup st (colour_index (1000 # 1)%Q 0%Q 1%Q (s_colourMapDataSize st)) = Some colour) /\
  (forall first second data fbc stride pixels,
     exists pixels',
       doColourMapping st first second data fbc stride pixels 0%Q 1%Q = Some pixels').
Proof.
  intros st.
  apply (C8_colour_index_clamped st [7; 8; 9] (1000 # 1)%Q 0%Q 1%Q);
    [reflexivity | reflexivity | vm_compute; discriminate].
Defined.

(** Values below, inside and above the table, and a pass over two time
    buckets of three frequency buckets, with the frequency axis turned over. *)
Example colour_mapping_examples :
  let st := fst (nativeInitialize initial_colour_state (Some [7; 8; 9]) 3 0) in
  colour_index (-50 # 1)%Q 0%Q 1%Q 3 = 0 /\
  colour_index (3 # 2)%Q 0%Q 1%Q 3 = 1 /\
  colour_index (1000 # 1)%Q 0%Q 1%Q 3 = 2 /\
  doColourMapping st 0 2 [0 # 1; 1 # 1; 2 # 1; 5 # 1; -1 # 1; 1 # 1]%Q 3 2 (replicate 6 0)
    0%Q 1%Q
  = Some [9; 8; 8; 7; 7; 9].
Proof. vm_compute. repeat split. Qed.

(** ** The transform on silence *)
Section TransformOnSilence.
Variable lib : float_library.
Local Open Scope Q_scope.

(** Rounding keeps 0: the products and the sum of line 243 are exact on
    silence. *)
Lemma binary32_zero (q : Q) : q == 0 -> binary32 q = 0.
Proof.
  intros H. destruct q as [n d]. unfold Qeq in H. simpl in H.
  assert (n = 0%Z) as -> by lia. reflexivity.
Qed.

Lemma bucket_dB_silence (normalizer2 minDB : Q) (c : kiss_fft_cpx) :
  cpx_r c == 0 -> cpx_i c == 0 -> bucket_dB lib normalizer2 minDB c = minDB.
Proof.
  intros Hr Hi. unfold bucket_dB, mag_squared, fmul32, fadd32. cbn zeta.
  rewrite (binary32_zero (cpx_r c * cpx_r c)) by (rewrite Hr; ring).
  rewrite (binary32_zero (cpx_i c * cpx_i c)) by (rewrite Hi; ring).
  rewrite (binary32_zero (0 + 0)) by ring.
  rewrite (binary32_zero (0 * normalizer2)) by ring.
  reflexivity.
Qed.

Lemma store_at_nonneg (data : list Q) (base : Z) (i : nat) (v : Q) :
  (0 <= base)%Z ->
  store_at data (base + Z.of_nat i) v = <[(Z.to_nat base + i)%nat := v]> data.
Proof.
  intros Hb. unfold store_at. destruct (Z.ltb_spec (base + Z.of_nat i) 0); [lia|].
  f_equal. lia.
Qed.

Lemma cpx_at_silence (temp_buffer : list kiss_fft_cpx) (j : nat) :
  Forall (fun c => cpx_r c == 0 /\ cpx_i c == 0) temp_buffer ->
  cpx_r (cpx_at temp_buffer j) == 0 /\ cpx_i (cpx_at temp_buffer j) == 0.
Proof.
  intros H. unfold cpx_at. destruct (temp_buffer !! j) as [c|] eqn:E; simpl.
  - rewrite Forall_forall in H. apply H. eapply list_elem_of_lookup_2. exact E.
  - split; reflexivity.
Qed.

(** One window of silence: [count] cells of the output receive the floor, and
    the flag is raised when a bucket of the range meets a threshold that the
    floor reaches. *)
Lemma fft_buckets_silence (temp_buffer : list kiss_fft_cpx)
    (normalizer2 minDB threshold : Q) (base minb maxb : Z) (count j : nat) (l : fft_loop) :
  (0 <= base)%Z ->
  Forall (fun c => cpx_r c == 0 /\ cpx_i c == 0) temp_buffer ->
  (Z.to_nat base + fl_transformedIndex l + count <= length (fl_transformedData l))%nat ->
  let l' := fft_buckets lib temp_buffer normalizer2 minDB threshold base minb maxb count j l in
  fl_transformedIndex l' = (fl_transformedIndex l + count)%nat /\
  length (fl_transformedData l') = length (fl_transformedData l) /\
  (forall m : nat,
     fl_transformedData l' !! m =
     if decide (Z.to_nat base + fl_transformedIndex l <= m
                < Z.to_nat base + fl_transformedIndex l + count)%nat
     then Some minDB else fl_transformedData l !! m) /\
  fl_triggered l' =
    fl_triggered l
    || (existsb (in_trigger_range minb maxb) (seq j count) && Qle_bool threshold minDB).
Proof.
  intros Hbase Hz. revert j l.
  induction count as [|count IH]; intros j l Hlen; cbn [fft_buckets].
  - cbn zeta. split; [lia|]. split; [reflexivity|]. split.
    + intros m. case_decide; [lia|reflexivity].
    + simpl. rewrite orb_false_r. reflexivity.
  - destruct (cpx_at_silence temp_buffer j Hz) as [Hr Hi].
    rewrite (bucket_dB_silence normalizer2 minDB _ Hr Hi).
    rewrite store_at_nonneg by exact Hbase.
    match goal with |- context [fft_buckets _ _ _ _ _ _ _ _ _ _ ?x] => set (l1 := x) end.
    specialize (IH (S j) l1).
    assert (Hlen1 : (Z.to_nat base + fl_transformedIndex l1 + count
                     <= length (fl_transformedData l1))%nat).
    { unfold l1. cbn [fl_transformedIndex fl_transformedData]. rewrite length_insert. lia. }
    destruct (IH Hlen1) as (I1 & I2 & I3 & I4). cbn zeta.
    split; [rewrite I1; unfold l1; cbn; lia|].
    split; [rewrite I2; unfold l1; cbn; apply length_insert|].
    split.
    + intros m. rewrite I3. unfold l1. cbn [fl_transformedIndex fl_transformedData].
      repeat case_decide; try lia; try reflexivity.
      * assert (m = Z.to_nat base + fl_transformedIndex l)%nat as -> by lia.
        apply list_lookup_insert_eq. lia.
      * apply list_lookup_insert_ne. lia.
    + rewrite I4. unfold l1. cbn [fl_triggered seq existsb].
      destruct (in_trigger_range minb maxb j), (Qle_bool threshold minDB), (fl_triggered l),
        (existsb (in_trigger_range minb maxb) (seq (S j) count)); reflexivity.
Qed.

(** All the windows of a slice buffer of silence. *)
Lemma fft_windows_silence (fs : fft_state) (raw : list Q)
    (normalizer2 minDB threshold : Q) (base minb maxb : Z) (count w : nat) (l : fft_loop) :
  (0 <= base)%Z ->
  fft_of_silence_is_zero lib fs -> silence raw ->
  let buckets := Z.to_nat (s_fft_frequency_buckets fs) in
  (Z.to_nat base + fl_transformedIndex l + count * buckets <= length (fl_transformedData l))%nat ->
  let l' := fft_windows lib fs raw normalizer2 minDB threshold base minb maxb count w l in
  fl_transformedIndex l' = (fl_transformedIndex l + count * buckets)%nat /\
  length (fl_transformedData l') = length (fl_transformedData l) /\
  (forall m : nat,
     fl_transformedData l' !! m =
     if decide (Z.to_nat base + fl_transformedIndex l <= m
                < Z.to_nat base + fl_transformedIndex l + count * buckets)%nat
     then Some minDB else fl_transformedData l !! m) /\
  fl_triggered l' =
    fl_triggered l
    || (match count with O => false | S _ => true end
        && trigger_range_hit fs minb maxb && Qle_bool threshold minDB).
Proof.
  intros Hbase Hfft Hraw buckets. revert w l.
  induction count as [|count IH]; intros w l Hlen; cbn [fft_windows].
  - cbn zeta. split; [lia|]. split; [reflexivity|]. split.
    + intros m. case_decide; [lia|reflexivity].
    + simpl. rewrite orb_false_r. reflexivity.
  - set (window := take (Z.to_nat (s_fft_window_size fs))
                     (drop (w * Z.to_nat (s_fft_window_size fs)) raw)).
    assert (Hw : silence window) by (apply Forall_take, Forall_drop; exact Hraw).
    pose proof (fft_buckets_silence (kiss_fftr lib (s_fft_window_size fs) window)
                  normalizer2 minDB threshold base minb maxb buckets 0 l Hbase (Hfft window Hw)
                  ltac:(lia)) as B.
    cbn zeta in B. fold buckets.
    set (l1 := fft_buckets lib (kiss_fftr lib (s_fft_window_size fs) window) normalizer2 minDB
                 threshold base minb maxb buckets 0 l) in *.
    destruct B as (B1 & B2 & B3 & B4).
    destruct (IH (S w) l1 ltac:(lia)) as (I1 & I2 & I3 & I4). cbn zeta.
    split; [lia|]. split; [congruence|]. split.
    + intros m. rewrite I3, B3, B1. repeat case_decide; try lia; reflexivity.
    + rewrite I4, B4.
      change (existsb (in_trigger_range minb maxb) (seq 0 buckets))
        with (trigger_range_hit fs minb maxb).
      destruct (match count with O => false | S _ => true end),
        (trigger_range_hit fs minb maxb), (Qle_bool threshold minDB), (fl_triggered l);
        reflexivity.
Qed.

End TransformOnSilence.

Section SilenceClaim.
Local Open Scope Q_scope.

(** C5 as stated fails when the threshold does not exceed the floor: one
    window of silence with floor -100 dB, trigger range 0..2 and threshold
    -120 dB writes -100 to the three buckets and sets the trigger flag. *)
Lemma C5_silence_triggers_counterexample :
  doFft float_library_4 (initFft 4) 1 [0; 0; 0; 0] [0; 0; 0] 0 (-100 # 1) 0 2 (-120 # 1)
  = ([-100 # 1; -100 # 1; -100 # 1], true, 1%Z).
Proof. vm_compute. reflexivity. Qed.

(** C5, amended.  Over slices of silence, for every window count, trigger
    range and threshold, doFft writes the floor dB value to every frequency
    bucket of every window in the output, and sets the trigger flag exactly
    when there is a window, a bucket of a window lies in the trigger range,
    and the threshold is at most the floor; with a threshold above the floor
    it never sets the flag. *)
Theorem C5_silence_gives_floor (lib : float_library) (fs : fft_state) (num_windows : Z)
    (raw out : list Q) (base : Z) (minDB : Q) (minb maxb : Z) (threshold : Q) :
  fft_of_silence_is_zero lib fs -> silence raw ->
  (0 <= base)%Z -> (0 <= s_fft_frequency_buckets fs)%Z ->
  (base + Z.max 0 num_windows * s_fft_frequency_buckets fs <= Z.of_nat (length out))%Z ->
  let r := doFft lib fs num_windows raw out base minDB minb maxb threshold in
  snd r = Z.max 0 num_windows /\
  (forall w j : Z, (0 <= w < num_windows)%Z -> (0 <= j < s_fft_frequency_buckets fs)%Z ->
     fst (fst r) !! Z.to_nat (base + w * s_fft_frequency_buckets fs + j) = Some minDB) /\
  snd (fst r) =
    (0 <? num_windows)%Z && trigger_range_hit fs minb maxb && Qle_bool threshold minDB /\
  (minDB < threshold -> snd (fst r) = false).
Proof.
  intros Hfft Hraw Hb Hbk Hlen r.
  pose proof (fft_windows_silence lib fs raw (fft_normalizer2 fs)
                minDB threshold base minb maxb (Z.to_nat num_windows) 0
                {| fl_transformedData := out; fl_transformedIndex := 0; fl_triggered := false |}
                Hb Hfft Hraw) as W.
  cbn zeta in W. cbn [fl_transformedIndex fl_transformedData fl_triggered] in W.
  destruct W as (_ & _ & W3 & W4); [nia|].
  assert (T : snd (fst r) =
              (0 <? num_windows)%Z && trigger_range_hit fs minb maxb && Qle_bool threshold minDB).
  { unfold r, doFft. cbn [fst snd]. rewrite W4. cbn [orb]. f_equal. f_equal.
    destruct (Z.ltb_spec 0 num_windows) as [H|H].
    - destruct (Z.to_nat num_windows) eqn:E; [lia|reflexivity].
    - destruct (Z.to_nat num_windows) eqn:E; [reflexivity|lia]. }
  split; [|split; [|split]].
  - reflexivity.
  - intros w j Hw Hj. unfold r, doFft. cbn [fst]. rewrite W3.
    case_decide as D; [reflexivity|]. exfalso. apply D. nia.
  - exact T.
  - intros Hlt. rewrite T.
    assert (Qle_bool threshold minDB = false) as ->.
    { destruct (Qle_bool threshold minDB) eqn:E; [|reflexivity].
      apply Qle_bool_iff in E. exfalso. exact (Qlt_not_le _ _ Hlt E). }
    apply andb_false_r.
Qed.

Lemma rdQ_silence (timedata : list Q) (i : nat) : silence timedata -> rdQ timedata i == 0.
Proof.
  intros H. unfold rdQ. destruct (timedata !! i) as [x|] eqn:E; simpl; [|reflexivity].
  unfold silence in H. rewrite Forall_forall in H. apply H. eapply list_elem_of_lookup_2. exact E.
Qed.

(** The 4-point DFT of silence is zero. *)
Lemma float_library_4_silence : fft_of_silence_is_zero float_library_4 (initFft 4).
Proof.
  intros timedata H. simpl. unfold dft4.
  pose proof (rdQ_silence timedata 0 H) as E0. pose proof (rdQ_silence timedata 1 H) as E1.
  pose proof (rdQ_silence timedata 2 H) as E2. pose proof (rdQ_silence timedata 3 H) as E3.
  repeat constructor; simpl; rewrite ?E0, ?E1, ?E2, ?E3; reflexivity.
Qed.

Lemma C5_silence_witness :
  let r := doFft float_library_4 (initFft 4) 2 (replicate 8 0) (replicate 7 (1 # 1)) 1
             (-100 # 1) 0 2 (-50 # 1) in
  snd r = Z.max 0 2 /\
  (forall w j : Z, (0 <= w < 2)%Z -> (0 <= j < s_fft_frequency_buckets (initFft 4))%Z ->
     fst (fst r) !! Z.to_nat (1 + w * s_fft_frequency_buckets (initFft 4) + j) = Some (-100 # 1)) /\
  snd (fst r) =
    (0 <? 2)%Z && trigger_range_hit (initFft 4) 0 2 && Qle_bool (-50 # 1) (-100 # 1) /\
  (-100 # 1 < -50 # 1 -> snd (fst r) = false).
Proof.
  apply (C5_silence_gives_floor float_library_4 (initFft 4) 2 (replicate 8 0)
           (replicate 7 (1 # 1)) 1 (-100 # 1) 0 2 (-50 # 1)).
  - exact float_library_4_silence.
  - repeat constructor.
  - lia.
  - vm_compute; discriminate.
  - vm_compute; discriminate.
Defined.

(** A non-silent window under the same library: the constant 1 has all its
    energy in bucket 0, and the other buckets stay at the floor. *)
Example doFft_constant_window :
  map Qred (fst (fst (doFft float_library_4 (initFft 4) 1 [1 # 1; 1 # 1; 1 # 1; 1 # 1]
                        [0; 0; 0] 0 (-100 # 1) 0 2 (0 # 1))))
  = [12626113 # 2097152; -100 # 1; -100 # 1].
Proof. vm_compute. reflexivity. Qed.

End SilenceClaim.

(* ===================================================================== *)
(** * Part III: further properties of the code                             *)
(* ===================================================================== *)

(** ** De-padding of a reaped transfer *)
Section Depadding.
Context {A : Type}.
Implicit Types (orig buf : list A) (descs : list iso_packet_desc).

Lemma payloads_length orig (src : nat) descs :
  Forall (fun d => ipd_actual_length d <= ipd_length d)%nat descs ->
  (src + requested_bytes descs <= length orig)%nat ->
  length (payloads orig src descs) = received_bytes descs.
Proof.
  intros Hd. revert src. induction Hd as [|d ds Hle Hds IH]; intros src Hlen; simpl in *.
  - reflexivity.
  - rewrite length_app, length_take, length_drop, IH by lia. lia.
Qed.

(** The compaction works in place because a packet is never moved to the
    right: the destination runs behind the source, and what lies from the
    source on is still as received. *)
Lemma compact_frames_spec orig descs :
  forall (frame dst src : nat) buf,
    Forall (fun d => ipd_actual_length d <= ipd_length d)%nat descs ->
    (dst <= src)%nat -> (frame = 0%nat -> dst = src) ->
    (src + requested_bytes descs <= length orig)%nat -> length buf = length orig ->
    (forall i, (src <= i)%nat -> buf !! i = orig !! i) ->
    let r := compact_frames descs frame dst src buf in
    snd r = (dst + received_bytes descs)%nat /\
    length (fst r) = length buf /\
    (forall i, (i < dst)%nat -> fst r !! i = buf !! i) /\
    (forall i, (i < received_bytes descs)%nat ->
       fst r !! (dst + i)%nat = payloads orig src descs !! i).
Proof.
  induction descs as [|d ds IH]; intros frame dst src buf Hd Hds H0 Hlen Hbuf Hsame; simpl.
  - split; [lia|]. split; [reflexivity|]. split; [auto|]. intros i Hi. lia.
  - inversion Hd as [|? ? Hle Hd']; subst. simpl in Hlen.
    set (act := ipd_actual_length d) in *. set (len := ipd_length d) in *.
    set (buf' := if (0 <? frame)%nat && (0 <? act)%nat then memmove dst src act buf else buf).
    assert (Hlen' : length buf' = length orig).
    { unfold buf', memmove. destruct (_ && _); [rewrite length_inserts|]; exact Hbuf. }
    assert (Hchunk : length (take act (drop src buf)) = act).
    { rewrite length_take, length_drop. lia. }
    assert (Hlow : forall i, (i < dst)%nat -> buf' !! i = buf !! i).
    { intros i Hi. unfold buf', memmove. destruct (_ && _); [|reflexivity].
      apply list_lookup_inserts_lt. exact Hi. }
    assert (Hhigh : forall i, (src + len <= i)%nat -> buf' !! i = orig !! i).
    { intros i Hi. unfold buf', memmove. destruct (_ && _); [|apply Hsame; lia].
      rewrite list_lookup_inserts_ge by lia. apply Hsame. lia. }
    assert (Hmid : forall i, (i < act)%nat -> buf' !! (dst + i)%nat = orig !! (src + i)%nat).
    { intros i Hi. unfold buf', memmove.
      destruct (Nat.ltb_spec 0 frame) as [Hf|Hf]; simpl.
      - destruct (Nat.ltb_spec 0 act); [|lia].
        rewrite list_lookup_inserts by lia.
        replace (dst + i - dst)%nat with i by lia.
        rewrite lookup_take_lt, lookup_drop by lia. apply Hsame. lia.
      - rewrite (H0 ltac:(lia)). apply Hsame. lia. }
    destruct (IH (S frame) (dst + act)%nat (src + len)%nat buf' Hd' ltac:(lia)
                ltac:(intros; lia) ltac:(lia) Hlen' Hhigh) as (R1 & R2 & R3 & R4).
    cbn zeta in *. fold buf'.
    split; [rewrite R1; lia|]. split; [rewrite R2; congruence|]. split.
    + intros i Hi. rewrite R3 by lia. apply Hlow. exact Hi.
    + intros i Hi.
      assert (Hp : length (take act (drop src orig)) = act).
      { rewrite length_take, length_drop. lia. }
      destruct (decide (i < act)%nat) as [Hia|Hia].
      * rewrite lookup_app_l by lia. rewrite R3 by lia. rewrite Hmid by lia.
        rewrite lookup_take_lt, lookup_drop by lia. reflexivity.
      * rewrite lookup_app_r by lia. rewrite Hp.
        replace (dst + i)%nat with (dst + act + (i - act))%nat by lia.
        apply R4. lia.
Qed.

(** No packet is moved beyond the bytes received so far: whatever the
    descriptors say, the cells from the final destination offset on are not
    written. *)
Lemma compact_frames_beyond descs :
  forall (frame dst src : nat) buf (i : nat),
    (dst + received_bytes descs <= i)%nat ->
    fst (compact_frames descs frame dst src buf) !! i = buf !! i.
Proof.
  induction descs as [|d ds IH]; intros frame dst src buf i Hi; simpl in *; [reflexivity|].
  rewrite IH by lia.
  destruct (_ && _); [|reflexivity].
  unfold memmove. apply list_lookup_inserts_ge.
  rewrite length_take. lia.
Qed.

(** X1.  When every packet received at most what was requested and the
    requested lengths fit the buffer, the de-padding loop leaves at the front
    of the buffer exactly the bytes that the packets carried, packet after
    packet, and as many of them as the packets' actual lengths add up to;
    the buffer behind them, the sentinel at its end included, is not
    written. *)
Theorem X1_depadding_concatenates_payloads orig descs :
  Forall (fun d => ipd_actual_length d <= ipd_length d)%nat descs ->
  (requested_bytes descs <= length orig)%nat ->
  snd (compact_packets descs orig) = received_bytes descs /\
  length (fst (compact_packets descs orig)) = length orig /\
  take (received_bytes descs) (fst (compact_packets descs orig)) = payloads orig 0 descs /\
  drop (received_bytes descs) (fst (compact_packets descs orig))
  = drop (received_bytes descs) orig.
Proof.
  intros Hd Hlen.
  destruct (compact_frames_spec orig descs 0 0 0 orig Hd ltac:(lia) ltac:(reflexivity)
              ltac:(simpl; lia) eq_refl ltac:(reflexivity)) as (R1 & R2 & _ & R4).
  cbn zeta in *. unfold compact_packets.
  split; [exact R1|]. split; [exact R2|]. split.
  - apply list_eq. intros i.
    destruct (decide (i < received_bytes descs)%nat) as [Hi|Hi].
    + rewrite lookup_take_lt by lia. apply (R4 i Hi).
    + rewrite lookup_take_ge by lia. symmetry. apply lookup_ge_None.
      rewrite payloads_length by (try assumption; simpl; lia). lia.
  - apply list_eq. intros i. rewrite !lookup_drop.
    apply compact_frames_beyond. lia.
Qed.

End Depadding.

Lemma X1_depadding_witness :
  let descs := [ {| ipd_length := 4; ipd_actual_length := 2 |};
                 {| ipd_length := 4; ipd_actual_length := 4 |};
                 {| ipd_length := 4; ipd_actual_length := 0 |};
                 {| ipd_length := 4; ipd_actual_length := 3 |} ] in
  let orig := map Z.of_nat (seq 1 16) in
  snd (compact_packets descs orig) = received_bytes descs /\
  length (fst (compact_packets descs orig)) = length orig /\
  take (received_bytes descs) (fst (compact_packets descs orig))
  = [1; 2; 5; 6; 7; 8; 13; 14; 15] /\
  drop (received_bytes descs) (fst (compact_packets descs orig))
  = [10; 11; 12; 13; 14; 15; 16].
Proof.
  intros descs orig.
  assert (Hd : Forall (fun d => ipd_actual_length d <= ipd_length d)%nat descs)
    by (repeat constructor; simpl; lia).
  assert (Hlen : (requested_bytes descs <= length orig)%nat) by (simpl; lia).
  destruct (X1_depadding_concatenates_payloads orig descs Hd Hlen) as (H1 & H2 & H3 & H4).
  split; [exact H1|]. split; [exact H2|]. split; [rewrite H3|rewrite H4]; reflexivity.
Defined.

(** ** The capture loop: how it ends *)
Section CaptureLoopEnds.

(** X2.  The count and the transfers in flight.  From the start of [stream],
    after any sequence of system calls and whatever they return,
    [balls_in_the_air] equals the number of transfers in flight plus the
    number of initial submission attempts that failed: the initial loop
    counts every attempt, and every later change of the count goes with a
    reaped or accepted transfer. *)
Theorem X2_count_and_in_flight (os : list observation) :
  balls_in_the_air (capture_run capture_start os)
  = in_flight (capture_run capture_start os) + failed_initial_attempts capture_start os.
Proof.
  pose proof (count_exceeds_in_flight_by_failed_attempts os capture_start) as H.
  cbn [capture_start balls_in_the_air in_flight] in H. lia.
Qed.

(** X3.  The drain phase ends.  From the loop test with n >= 0 transfers
    counted, if every later read of [s_cancel_pending] finds it set and every
    reap returns 0, the loop takes exactly 3 n + 1 steps (test, reap and
    recycle test per transfer, and a last test), no slot is re-submitted, the
    count ends at 0 and [stream] returns 0 (or, with nothing to reap, the
    code of the last call before). *)
Theorem X3_drain_ends (n : nat) (c : capture) (os : list observation) :
  cp_pc c = LoopTest -> balls_in_the_air c = Z.of_nat n ->
  Forall (fun o => ob_cancel o = true /\ ob_ret o = 0) os ->
  length os = (3 * n + 1)%nat ->
  cp_pc (capture_run c os)
    = Finished (match n with O => exit_code (cp_ret c) (cp_errno c) | S _ => 0 end) /\
  balls_in_the_air (capture_run c os) = 0 /\
  in_flight (capture_run c os) = in_flight c - Z.of_nat n.
Proof.
  revert c os. induction n as [|n IH]; intros c os Hpc Hb Hos Hlen.
  - destruct os as [|o [|? ?]]; try discriminate.
    inversion Hos as [|? ? [Hc _] _]; subst.
    unfold capture_run. simpl. unfold capture_step. rewrite Hpc, Hc, Hb. simpl.
    split; [reflexivity|]. split; [reflexivity | lia].
  - destruct os as [|o1 [|o2 [|o3 os]]]; try (simpl in Hlen; lia).
    inversion Hos as [|? ? [Hc1 _] Hos1]; subst.
    inversion Hos1 as [|? ? [_ Hr2] Hos2]; subst.
    inversion Hos2 as [|? ? [Hc3 _] Hos3]; subst.
    unfold capture_run. cbn [fold_left].
    set (c1 := capture_step c o1).
    assert (E1 : cp_pc c1 = Reap /\ balls_in_the_air c1 = balls_in_the_air c
                 /\ in_flight c1 = in_flight c).
    { unfold c1, capture_step. rewrite Hpc, Hc1. simpl.
      destruct (Z.gtb_spec (balls_in_the_air c) 0); [repeat split|lia]. }
    destruct E1 as (P1 & B1 & F1).
    set (c2 := capture_step c1 o2).
    assert (E2 : cp_pc c2 = Recycle /\ balls_in_the_air c2 = balls_in_the_air c - 1
                 /\ in_flight c2 = in_flight c - 1 /\ cp_ret c2 = 0).
    { unfold c2, capture_step, interrupted. rewrite P1, Hr2, B1, F1. simpl. repeat split. }
    destruct E2 as (P2 & B2 & F2 & R2).
    set (c3 := capture_step c2 o3).
    assert (E3 : cp_pc c3 = LoopTest /\ balls_in_the_air c3 = balls_in_the_air c - 1
                 /\ in_flight c3 = in_flight c - 1 /\ cp_ret c3 = 0).
    { unfold c3, capture_step. rewrite P2, Hc3, B2, F2, R2. simpl. repeat split. }
    destruct E3 as (P3 & B3 & F3 & R3).
    destruct (IH c3 os P3 ltac:(lia) Hos3 ltac:(simpl in Hlen; lia)) as (I1 & I2 & I3).
    unfold capture_run in *. rewrite I1, I2, I3. split; [|split; [reflexivity|lia]].
    destruct n; [|reflexivity]. rewrite R3. reflexivity.
Qed.

Lemma X3_drain_witness :
  let c := capture_run capture_start (replicate 10 ok) in
  let os := replicate 31 cancel_seen in
  cp_pc c = LoopTest /\ balls_in_the_air c = Z.of_nat 10 /\
  cp_pc (capture_run c os) = Finished 0 /\
  balls_in_the_air (capture_run c os) = 0 /\
  in_flight (capture_run c os) = in_flight c - Z.of_nat 10.
Proof.
  intros c os.
  assert (Hpc : cp_pc c = LoopTest) by reflexivity.
  assert (Hb : balls_in_the_air c = Z.of_nat 10) by reflexivity.
  assert (Hos : Forall (fun o => ob_cancel o = true /\ ob_ret o = 0) os)
    by (repeat constructor).
  split; [exact Hpc|]. split; [exact Hb|].
  exact (X3_drain_ends 10 c os Hpc Hb Hos eq_refl).
Defined.

(** X4.  Why [stream] returns.  A step ends the capture only in one of three
    ways: an initial submission failed with an error other than EINTR; the
    loop test found cancellation pending and no transfer counted; or a reap
    or a re-submission failed with ENODEV.  In particular, while cancellation
    is not pending and the device is present, no error ends the loop. *)
Theorem X4_why_stream_returns (c : capture) (o : observation) (rc : Z) :
  (forall rc0, cp_pc c <> Finished rc0) ->
  cp_pc (capture_step c o) = Finished rc ->
  (exists i, cp_pc c = InitialSubmit i /\ ob_ret o <> 0 /\ interrupted o = false
             /\ rc = ob_errno o) \/
  (cp_pc c = LoopTest /\ ob_cancel o = true /\ balls_in_the_air c <= 0
   /\ rc = exit_code (cp_ret c) (cp_errno c)) \/
  ((cp_pc c = Reap \/ cp_pc c = Resubmit) /\ ob_ret o <> 0 /\ ob_errno o = ENODEV
   /\ rc = exit_code (ob_ret o) ENODEV).
Proof.
  intros Hrun. unfold capture_step. destruct (cp_pc c) eqn:E; simpl; intros H.
  - left. exists i. destruct (interrupted o); [discriminate|].
    destruct (Z.eqb_spec (ob_ret o) 0) as [Hr|Hr]; simpl in H.
    + destruct (i + 1 <? URBS_TO_JUGGLE); discriminate.
    + injection H as <-. repeat split; assumption.
  - right; left. destruct (ob_cancel o); simpl in H; [|discriminate].
    destruct (Z.gtb_spec (balls_in_the_air c) 0); [discriminate|].
    injection H as <-. repeat split; lia.
  - right; right. destruct (interrupted o && negb (ob_cancel o)); [discriminate|].
    destruct (Z.eqb_spec (ob_ret o) 0) as [Hr|Hr]; simpl in H; [discriminate|].
    destruct (Z.eqb_spec (ob_errno o) ENODEV) as [He|He]; [|discriminate].
    injection H as <-. rewrite He. repeat split; auto.
  - destruct (ob_cancel o); discriminate.
  - right; right. destruct (interrupted o); [discriminate|].
    destruct (Z.eqb_spec (ob_ret o) 0) as [Hr|Hr]; simpl in H; [discriminate|].
    destruct (Z.eqb_spec (ob_errno o) ENODEV) as [He|He]; [|discriminate].
    injection H as <-. rewrite He. repeat split; auto.
  - exfalso. exact (Hrun rc0 eq_refl).
Qed.

Lemma X4_why_stream_returns_witness :
  let c := {| cp_pc := Reap; balls_in_the_air := 3; cp_ret := 0; cp_errno := 0; in_flight := 3 |} in
  let o := {| ob_ret := -1; ob_errno := ENODEV; ob_cancel := false |} in
  cp_pc (capture_step c o) = Finished ENODEV /\
  ((exists i, cp_pc c = InitialSubmit i /\ ob_ret o <> 0 /\ interrupted o = false
              /\ ENODEV = ob_errno o) \/
   (cp_pc c = LoopTest /\ ob_cancel o = true /\ balls_in_the_air c <= 0
    /\ ENODEV = exit_code (cp_ret c) (cp_errno c)) \/
   ((cp_pc c = Reap \/ cp_pc c = Resubmit) /\ ob_ret o <> 0 /\ ob_errno o = ENODEV
    /\ ENODEV = exit_code (ob_ret o) ENODEV)).
Proof.
  intros c o. split; [reflexivity|].
  apply (X4_why_stream_returns c o ENODEV); [intros rc0; discriminate|reflexivity].
Defined.

End CaptureLoopEnds.

(** ** Recording: who closes the descriptors *)
Section Recording.

Lemma recording_step_ledger (st : recording_state) (c : recording_call) :
  closed_fds (recording_step st c) ++ open_fds (recording_step st c)
  = closed_fds st ++ open_fds st ++ accepted_fds [c].
Proof.
  unfold recording_step, startRecordingFd, start_recording, stopRecording, stop_recording,
    open_fds, accepted_fds.
  destruct st as [f cl]. destruct c as [fd|]; cbn [omap list_omap s_fd_file closed_fds].
  - destruct (fd >=? 0) eqn:Hfd; cbn [fst s_fd_file closed_fds].
    + rewrite Hfd. destruct (f >=? 0); cbn [s_fd_file closed_fds];
        rewrite ?app_nil_r, <- ?app_assoc; reflexivity.
    + rewrite !app_nil_r. reflexivity.
  - destruct (f >=? 0) eqn:Hf; cbn [s_fd_file closed_fds].
    + rewrite !app_nil_r. reflexivity.
    + rewrite Hf, !app_nil_r. reflexivity.
Qed.

(** X5.  Ownership of the recording descriptors.  Whatever sequence of
    startRecordingFd and stopRecording calls the host makes, the descriptors
    it handed over (those that were not negative) are, in order, the ones
    that have been closed followed by the one being recorded to; so each is
    closed once, none is lost, and a refused descriptor is never closed. *)
Theorem X5_recording_descriptors (calls : list recording_call) :
  let st := fold_left recording_step calls initial_recording_state in
  closed_fds st ++ open_fds st = accepted_fds calls.
Proof.
  cbn zeta.
  assert (G : forall st0,
             closed_fds (fold_left recording_step calls st0)
             ++ open_fds (fold_left recording_step calls st0)
             = closed_fds st0 ++ open_fds st0 ++ accepted_fds calls).
  { induction calls as [|c cs IH]; intros st0; cbn [fold_left].
    - unfold accepted_fds. simpl. rewrite app_nil_r. reflexivity.
    - rewrite IH, app_assoc, recording_step_ledger.
      assert (E : accepted_fds (c :: cs) = accepted_fds [c] ++ accepted_fds cs).
      { unfold accepted_fds. simpl. destruct c as [fd|]; [destruct (fd >=? 0)|]; reflexivity. }
      rewrite E, <- !app_assoc. reflexivity. }
  rewrite G. reflexivity.
Qed.

(** After stopRecording nothing is open, and a second stop closes nothing. *)
Example recording_sequence :
  let st := fold_left recording_step
              [CallStartRecordingFd 7; CallStartRecordingFd (-1); CallStartRecordingFd 9;
               CallStopRecording; CallStopRecording] initial_recording_state in
  closed_fds st = [7; 9] /\ s_fd_file st = -1.
Proof. repeat split. Qed.

End Recording.

(** ** Ring export at any offset *)
Section RingExportAnywhere.

(** X6.  Exporting k <= cap samples into a ring of capacity cap at any offset
    returns k and lays the samples out in ring order: sample i is in cell
    (offset + i) mod cap, and every cell that is not one of these keeps its
    value.  A null target array gives -1. *)
Theorem X6_ring_export_in_ring_order (src dst : list Z) (k off cap : Z) :
  Z.of_nat (length dst) = cap -> 0 <= off <= cap -> 0 <= k <= cap ->
  snd (copyURBBufferData src k None off cap) = -1 /\
  exists dst',
    copyURBBufferData src k (Some dst) off cap = (Some dst', k) /\
    length dst' = length dst /\
    (forall i : nat, Z.of_nat i < k ->
       dst' !! Z.to_nat ((off + Z.of_nat i) mod cap) = Some (rd src i)) /\
    (forall m : nat,
       (forall i : nat, Z.of_nat i < k -> Z.of_nat m <> (off + Z.of_nat i) mod cap) ->
       dst' !! m = dst !! m).
Proof.
  intros Hlen Hoff Hk. split; [reflexivity|]. unfold copyURBBufferData.
  destruct (Z.gtb_spec k (cap - off)) as [Hwrap|Hfit].
  - (* two parts *)
    destruct (Z.gtb_spec (k - (cap - off)) 0) as [_|?]; [|lia].
    destruct (Z.gtb_spec (k - (cap - off)) cap) as [?|_]; [lia|].
    eexists. split; [|split; [|split]].
    + f_equal. lia.
    + rewrite !copy_loop_length. reflexivity.
    + intros i Hi. destruct (Z_lt_ge_dec (off + Z.of_nat i) cap) as [Hlo|Hhi].
      * rewrite Z.mod_small by lia.
        rewrite copy_loop_lookup by (rewrite copy_loop_length; lia).
        case_decide; [lia|].
        rewrite copy_loop_lookup by lia.
        case_decide; [|lia]. do 2 f_equal. lia.
      * replace ((off + Z.of_nat i) mod cap) with (off + Z.of_nat i - cap).
        2:{ apply (Z.mod_unique (off + Z.of_nat i) cap 1); lia. }
        rewrite copy_loop_lookup by (rewrite copy_loop_length; lia).
        case_decide; [|lia]. do 2 f_equal. lia.
    + intros m Hm.
      rewrite copy_loop_lookup by (rewrite copy_loop_length; lia).
      case_decide as Hin.
      * exfalso. apply (Hm (Z.to_nat (cap - off) + m)%nat); [lia|].
        replace (off + Z.of_nat (Z.to_nat (cap - off) + m)) with (Z.of_nat m + 1 * cap) by lia.
        rewrite Z.mod_add by lia. rewrite Z.mod_small; lia.
      * rewrite copy_loop_lookup by lia.
        case_decide as Hin1; [|reflexivity].
        exfalso. apply (Hm (m - Z.to_nat off)%nat); [lia|].
        rewrite Z.mod_small; lia.
  - (* one part *)
    destruct (Z.gtb_spec (k - k) 0) as [?|_]; [lia|].
    eexists. split; [|split; [|split]].
    + f_equal. lia.
    + rewrite copy_loop_length. reflexivity.
    + intros i Hi. rewrite Z.mod_small by lia.
      rewrite copy_loop_lookup by lia.
      case_decide; [|lia]. do 2 f_equal. lia.
    + intros m Hm. rewrite copy_loop_lookup by lia.
      case_decide as Hin; [|reflexivity].
      exfalso. apply (Hm (m - Z.to_nat off)%nat); [lia|].
      rewrite Z.mod_small; lia.
Qed.

End RingExportAnywhere.

Lemma X6_ring_export_witness :
  exists dst',
    copyURBBufferData [1; 2; 3; 4; 5; 6] 6 (Some (replicate 8 0)) 6 8 = (Some dst', 6) /\
    dst' = [3; 4; 5; 6; 0; 0; 1; 2].
Proof.
  destruct (X6_ring_export_in_ring_order [1; 2; 3; 4; 5; 6] (replicate 8 0) 6 6 8
              eq_refl ltac:(lia) ltac:(lia)) as (_ & dst' & E & _).
  exists dst'. split; [exact E|].
  vm_compute in E. injection E as <-. reflexivity.
Defined.

(** ** The audio path: decimation, amplitudes, phase indices *)
Section AudioOutput.

Lemma audio_sample_step_counter (l : audio_loop) (x : Z) :
  let d := s_decimation_factor (al_state l) in
  let c := al_decimation_counter l + 1 in
  s_decimation_factor (al_state (audio_sample_step l x)) = d /\
  al_decimation_counter (audio_sample_step l x) = (if c =? d then 0 else c) /\
  length (al_downsampled (audio_sample_step l x))
  = (length (al_downsampled l) + if (c =? d)%Z then 1 else 0)%nat.
Proof.
  unfold audio_sample_step. destruct (aa_cascade _ _ _) as [f p].
  cbn [al_state al_decimation_counter al_downsampled s_decimation_factor].
  destruct (_ =? _); rewrite ?length_app; cbn [length]; repeat split; lia.
Qed.

Lemma sample_loop_count (pBuffer : list Z) (l : audio_loop) :
  let d := s_decimation_factor (al_state l) in
  let c := al_decimation_counter l in
  let l' := fold_left audio_sample_step pBuffer l in
  0 <= c -> (0 < d -> c < d) ->
  length (al_downsampled l')
  = (length (al_downsampled l)
     + Z.to_nat (if d >? 0 then (c + Z.of_nat (length pBuffer)) / d else 0)%Z)%nat.
Proof.
  revert l. induction pBuffer as [|x xs IH]; intros l d c l' Hc Hd.
  - unfold l'. cbn [fold_left length]. destruct (Z.gtb_spec d 0); [|lia].
    rewrite Z.add_0_r, Z.div_small by lia. lia.
  - unfold l'. cbn [fold_left].
    destruct (audio_sample_step_counter l x) as (E1 & E2 & E3). fold d c in E1, E2, E3.
    rewrite IH; rewrite ?E1, ?E2, ?E3.
    + destruct (Z.gtb_spec d 0) as [Hpos|Hneg].
      * destruct (Z.eqb_spec (c + 1) d) as [Heq|Hne].
        -- replace (c + Z.of_nat (length (x :: xs))) with (Z.of_nat (length xs) + 1 * d)
             by (cbn [length]; lia).
           rewrite Z.div_add by lia. rewrite Z.add_0_l.
           assert (0 <= Z.of_nat (length xs) / d) by (apply Z.div_pos; lia). lia.
        -- replace (c + Z.of_nat (length (x :: xs))) with (c + 1 + Z.of_nat (length xs))
             by (cbn [length]; lia).
           lia.
      * destruct (Z.eqb_spec (c + 1) d); lia.
    + destruct (Z.eqb_spec (c + 1) d); lia.
    + intros Hpos. specialize (Hd Hpos). destruct (Z.eqb_spec (c + 1) d); lia.
Qed.

(** X7.  Decimation.  A call of [write_audio_output] on n samples hands
    floor(n / d) samples to the audio stream, d being the decimation factor;
    the counter restarts at every call, so the n mod d samples after the last
    full group of a call are dropped.  Before any stream has set the factor
    (d = 0) nothing is emitted. *)
Theorem X7_decimation_count (st : audio_state) (pBuffer : list Z) :
  length (snd (write_audio_output st pBuffer))
  = Z.to_nat (if s_decimation_factor st >? 0
              then Z.of_nat (length pBuffer) / s_decimation_factor st else 0).
Proof.
  unfold write_audio_output. cbn [snd].
  rewrite sample_loop_count;
    cbn [al_state al_decimation_counter al_downsampled length Nat.add]; [|lia|lia].
  rewrite Z.add_0_l. reflexivity.
Qed.

Example decimation_restarts_each_call :
  let st := stream_setup initial_audio_state 384000 102868919 in
  s_decimation_factor st = 8 /\
  length (snd (write_audio_output st (replicate 20 0))) = 2%nat /\
  length (snd (write_audio_output (fst (write_audio_output st (replicate 20 0)))
                 (replicate 20 0))) = 2%nat /\
  length (snd (write_audio_output st (replicate 40 0))) = 5%nat.
Proof. vm_compute. repeat split. Qed.

(** *** Amplitudes *)

Lemma aa_cascade_within (coeff B : Z) (previous : list Z) (f : Z) :
  0 < coeff < 2 ^ 31 -> 0 <= B <= INT32_MAX ->
  within B f -> Forall (within B) previous ->
  within B (fst (aa_cascade coeff f previous)) /\
  Forall (within B) (snd (aa_cascade coeff f previous)).
Proof.
  intros Hc HB. revert f. induction previous as [|p ps IH]; intros f Hf Hps.
  - split; [exact Hf|constructor].
  - inversion Hps as [|? ? Hp Hps']; subst. cbn [aa_cascade].
    assert (Hs : within B (aa_stage coeff f p)).
    { unfold within, INT32_MAX in *.
      rewrite aa_stage_exact
        by (try assumption; unfold in_int32, INT32_MIN, INT32_MAX; lia).
      destruct (stage_between coeff Hc f p) as [Hlo Hhi].
      destruct (Z_le_gt_dec p f);
        [specialize (Hlo ltac:(lia)) | specialize (Hhi ltac:(lia))]; lia. }
    destruct (IH _ Hs Hps') as [I1 I2].
    destruct (aa_cascade coeff (aa_stage coeff f p) ps) as [out ps'] eqn:E.
    cbn [fst snd] in *. split; [exact I1|]. constructor; [|exact I2].
    rewrite to_int32_small; [exact Hs|].
    unfold within, in_int32, INT32_MIN, INT32_MAX in *. lia.
Qed.

Lemma one_tone_product (x r : Z) :
  in_int16 x -> within REFERENCE_AMPLITUDE r -> within ONE_TONE_MAX (x * r).
Proof.
  unfold in_int16, INT16_MIN, INT16_MAX, within, ONE_TONE_MAX, REFERENCE_AMPLITUDE.
  intros Hx Hr. nia.
Qed.

Lemma one_tone_output (f : Z) :
  within ONE_TONE_MAX f ->
  to_int16 (saturate16 (Z.shiftr f 15)) = f / 2 ^ 15 /\
  within REFERENCE_AMPLITUDE (f / 2 ^ 15).
Proof.
  unfold within, ONE_TONE_MAX, REFERENCE_AMPLITUDE. intros Hf.
  rewrite Z.shiftr_div_pow2 by lia. change (2 ^ 15) with 32768.
  assert (H : -32766 <= f / 32768 <= 32766).
  { split; [apply Z.div_le_lower_bound | apply Z.div_le_upper_bound]; lia. }
  split; [|exact H].
  unfold saturate16, INT16_MAX, INT16_MIN.
  destruct (Z.gtb_spec (f / 32768) 32767); [lia|].
  destruct (Z.ltb_spec (f / 32768) (-32768)); [lia|].
  apply to_int16_small. unfold in_int16, INT16_MIN, INT16_MAX. lia.
Qed.

Lemma one_tone_step (l : audio_loop) (x : Z) :
  let st := al_state l in
  let st' := al_state (audio_sample_step l x) in
  0 < s_downsampling_iir_coefficient st < 2 ^ 31 ->
  s_heterodyne2_kHz st = 0 -> s_audio_boost_shift st = 0 ->
  0 < s_reference_len st <= MAX_REFERENCE_LEN ->
  0 <= s_heterodyne1_kHz st <= s_reference_len st ->
  index_in_table (s_reference1_index st) (s_reference_len st) ->
  table_amplitude_ok st ->
  Forall (within ONE_TONE_MAX) (s_downsampling_filter_state st) ->
  Forall (within REFERENCE_AMPLITUDE) (al_downsampled l) ->
  in_int16 x ->
  (s_downsampling_iir_coefficient st' = s_downsampling_iir_coefficient st /\
   s_heterodyne2_kHz st' = 0 /\ s_audio_boost_shift st' = 0 /\
   s_reference_len st' = s_reference_len st /\
   s_heterodyne1_kHz st' = s_heterodyne1_kHz st /\
   s_reference_data st' = s_reference_data st) /\
  index_in_table (s_reference1_index st') (s_reference_len st) /\
  Forall (within ONE_TONE_MAX) (s_downsampling_filter_state st') /\
  Forall (within REFERENCE_AMPLITUDE) (al_downsampled (audio_sample_step l x)).
Proof.
  intros st st' Hc H2 Hb Hl Hh Hi Ht Hf Ho Hx. unfold st', audio_sample_step. fold st.
  rewrite H2, Hb. cbn [Z.eqb]. change (15 - 0) with 15.
  assert (Hm : within ONE_TONE_MAX
                 (x * reference_at (s_reference_data st) (s_reference1_index st))).
  { apply one_tone_product; [exact Hx|].
    unfold reference_at, index_in_table in *.
    destruct (Z.ltb_spec (s_reference1_index st) 0); [lia|].
    apply Ht. lia. }
  destruct (aa_cascade_within (s_downsampling_iir_coefficient st) ONE_TONE_MAX
              (s_downsampling_filter_state st) _ Hc ltac:(vm_compute; split; discriminate)
              Hm Hf) as [C1 C2].
  destruct (aa_cascade _ _ _) as [filtered previous].
  cbn [fst snd al_state al_downsampled s_downsampling_iir_coefficient s_heterodyne2_kHz
         s_audio_boost_shift s_reference_len s_heterodyne1_kHz s_reference_data
         s_reference1_index s_downsampling_filter_state] in *.
  split; [repeat split|]. split; [|split; [exact C2|]].
  - apply advance_index_in_table; [exact Hh|lia|exact Hi].
  - destruct (_ =? _); [|exact Ho].
    apply Forall_app. split; [exact Ho|]. constructor; [|constructor].
    destruct (one_tone_output filtered C1) as [E B]. rewrite E. exact B.
Qed.

Lemma one_tone_loop (pBuffer : list Z) (l : audio_loop) :
  let st := al_state l in
  let l' := fold_left audio_sample_step pBuffer l in
  0 < s_downsampling_iir_coefficient st < 2 ^ 31 ->
  s_heterodyne2_kHz st = 0 -> s_audio_boost_shift st = 0 ->
  0 < s_reference_len st <= MAX_REFERENCE_LEN ->
  0 <= s_heterodyne1_kHz st <= s_reference_len st ->
  index_in_table (s_reference1_index st) (s_reference_len st) ->
  table_amplitude_ok st ->
  Forall (within ONE_TONE_MAX) (s_downsampling_filter_state st) ->
  Forall (within REFERENCE_AMPLITUDE) (al_downsampled l) ->
  Forall in_int16 pBuffer ->
  Forall (within ONE_TONE_MAX) (s_downsampling_filter_state (al_state l')) /\
  Forall (within REFERENCE_AMPLITUDE) (al_downsampled l').
Proof.
  revert l. induction pBuffer as [|x xs IH]; intros l st l' Hc H2 Hb Hl Hh Hi Ht Hf Ho Hx.
  - split; assumption.
  - inversion Hx as [|? ? Hx1 Hxs]; subst.
    destruct (one_tone_step l x Hc H2 Hb Hl Hh Hi Ht Hf Ho Hx1)
      as ((E1 & E2 & E3 & E4 & E5 & E6) & S1 & S2 & S3).
    unfold l'. cbn [fold_left].
    apply IH; rewrite ?E1, ?E2, ?E3, ?E4, ?E5; try assumption; try reflexivity.
    unfold table_amplitude_ok. rewrite E4, E6. exact Ht.
Qed.

(** X8.  Headroom with one tone and no boost.  When the second tone is off,
    the boost shift is 0, the tone step was accepted by [startAudio] and the
    filter cells lie within 32768 * 0x7FFE of zero (as after a reset), a call
    of [write_audio_output] on 16-bit samples never overflows a product, a
    filter stage or the cast to 16 bits: every sample handed to the audio
    stream lies within 0x7FFE of zero, so neither saturation limit is ever
    reached, and the filter cells stay within the same bound for the next
    call. *)
Theorem X8_one_tone_headroom (st : audio_state) (pBuffer : list Z) :
  0 < s_downsampling_iir_coefficient st < 2 ^ 31 ->
  s_heterodyne2_kHz st = 0 -> s_audio_boost_shift st = 0 ->
  0 < s_reference_len st <= MAX_REFERENCE_LEN ->
  0 <= s_heterodyne1_kHz st <= s_reference_len st ->
  index_in_table (s_reference1_index st) (s_reference_len st) ->
  table_amplitude_ok st ->
  Forall (within ONE_TONE_MAX) (s_downsampling_filter_state st) ->
  Forall in_int16 pBuffer ->
  Forall (within REFERENCE_AMPLITUDE) (snd (write_audio_output st pBuffer)) /\
  Forall (within ONE_TONE_MAX)
    (s_downsampling_filter_state (fst (write_audio_output st pBuffer))).
Proof.
  intros Hc H2 Hb Hl Hh Hi Ht Hf Hx. unfold write_audio_output. cbn [fst snd].
  destruct (one_tone_loop pBuffer
              {| al_state := st; al_decimation_counter := 0; al_downsampled := [] |}
              Hc H2 Hb Hl Hh Hi Ht Hf (Forall_nil_2 _) Hx) as [A B].
  split; assumption.
Qed.

End AudioOutput.

Lemma X8_one_tone_headroom_witness :
  let st := fst (startAudio cos_sample_taylor
                   (stream_setup initial_audio_state 4000 102868919) 0 1 0 0 StreamStarted) in
  let pBuffer := [32767; -32768; 32767; -32768; 1000; 0] in
  table_amplitude_ok st /\ Forall in_int16 pBuffer /\
  Forall (within REFERENCE_AMPLITUDE) (snd (write_audio_output st pBuffer)) /\
  Forall (within ONE_TONE_MAX)
    (s_downsampling_filter_state (fst (write_audio_output st pBuffer))).
Proof.
  intros st pBuffer.
  assert (Hc : 0 < s_downsampling_iir_coefficient st < 2 ^ 31)
    by (vm_compute; split; reflexivity).
  assert (Hl : 0 < s_reference_len st <= MAX_REFERENCE_LEN)
    by (vm_compute; split; [reflexivity|discriminate]).
  assert (Hh : 0 <= s_heterodyne1_kHz st <= s_reference_len st)
    by (vm_compute; split; discriminate).
  assert (Hi : index_in_table (s_reference1_index st) (s_reference_len st))
    by (vm_compute; split; [discriminate|reflexivity]).
  assert (Ht : table_amplitude_ok st).
  { intros i Hi'. assert (E : s_reference_len st = 4) by (vm_compute; reflexivity).
    rewrite E in Hi'.
    destruct i as [|[|[|[|i]]]]; try (vm_compute; split; discriminate). lia. }
  assert (Hf : Forall (within ONE_TONE_MAX) (s_downsampling_filter_state st))
    by (repeat constructor; vm_compute; discriminate).
  assert (Hx : Forall in_int16 pBuffer) by (repeat constructor; vm_compute; discriminate).
  split; [exact Ht|]. split; [exact Hx|].
  exact (X8_one_tone_headroom st pBuffer Hc eq_refl eq_refl Hl Hh Hi Ht Hf Hx).
Defined.

(** With both tones on, the same full-scale input does reach the limit. *)
Example two_tones_saturate :
  let st := fst (startAudio cos_sample_taylor
                   (stream_setup initial_audio_state 4000 2147483647) 0 4 4 0 StreamStarted) in
  snd (write_audio_output st [32767]) = [32767].
Proof. vm_compute. reflexivity. Qed.

(** *** Phase indices over a session *)
Section Session.
Variable cos_sample : Z -> Z -> Z.

Lemma write_audio_output_keeps (st : audio_state) (pBuffer : list Z) :
  let st' := fst (write_audio_output st pBuffer) in
  s_heterodyne1_kHz st' = s_heterodyne1_kHz st /\
  s_heterodyne2_kHz st' = s_heterodyne2_kHz st /\
  s_reference_len st' = s_reference_len st /\
  s_reference_data st' = s_reference_data st.
Proof.
  destruct (sample_loop_indices pBuffer
              {| al_state := st; al_decimation_counter := 0; al_downsampled := [] |})
    as (E1 & E2 & E3 & E4 & _).
  unfold write_audio_output. cbn [fst al_state] in *. repeat split; assumption.
Qed.

Lemma advance_n_in_table (k : nat) (index step len : Z) :
  0 <= step <= len -> len <= MAX_REFERENCE_LEN -> index_in_table index len ->
  index_in_table (advance_n k index step len) len.
Proof.
  intros Hs Hl. revert index. induction k as [|k IH]; intros index Hi; [exact Hi|].
  cbn [advance_n]. apply IH. apply advance_index_in_table; assumption.
Qed.

Lemma write_audio_outputs_in_table (buffers : list (list Z)) (st : audio_state) :
  0 < s_reference_len st <= MAX_REFERENCE_LEN ->
  0 <= s_heterodyne1_kHz st <= s_reference_len st ->
  0 <= s_heterodyne2_kHz st <= s_reference_len st ->
  index_in_table (s_reference1_index st) (s_reference_len st) ->
  index_in_table (s_reference2_index st) (s_reference_len st) ->
  let st' := write_audio_outputs st buffers in
  s_reference_len st' = s_reference_len st /\
  s_reference_data st' = s_reference_data st /\
  index_in_table (s_reference1_index st') (s_reference_len st) /\
  index_in_table (s_reference2_index st') (s_reference_len st).
Proof.
  revert st. induction buffers as [|b bs IH]; intros st Hl H1 H2 I1 I2.
  - split; [reflexivity|]. split; [reflexivity|]. split; assumption.
  - unfold write_audio_outputs. cbn [fold_left].
    destruct (write_audio_output_keeps st b) as (E1 & E2 & E3 & E4).
    destruct (IH (fst (write_audio_output st b))) as (R1 & R2 & R3 & R4);
      rewrite ?E1, ?E2, ?E3; try assumption.
    + rewrite write_audio_output_index1. apply advance_n_in_table; [assumption|lia|assumption].
    + rewrite write_audio_output_index2. apply advance_n_in_table; [assumption|lia|assumption].
    + unfold write_audio_outputs in *. rewrite R1, R2, E3, E4. rewrite E3 in R3, R4.
      split; [reflexivity|]. split; [reflexivity|]. split; assumption.
Qed.

(** X9.  A session that starts well stays in the table.  After [startAudio]
    returned true for tones that are not negative, in a session of s >= 1
    samples per millisecond, every later sequence of [write_audio_output]
    calls leaves both phase indices inside the table of min(s, 512) entries,
    and the entries they select are cosine samples of that table: no sample
    is ever mixed with the sentinel or with a cell beyond it. *)
Theorem X9_session_stays_in_table (st : audio_state) (dev h1 h2 boost : Z) (o : aaudio_outcome)
    (buffers : list (list Z)) :
  reference_ok cos_sample st ->
  1 <= s_nominal_samples_per_frame st ->
  0 <= h1 -> 0 <= h2 ->
  snd (startAudio cos_sample st dev h1 h2 boost o) = true ->
  let len := Z.min (s_nominal_samples_per_frame st) MAX_REFERENCE_LEN in
  let st' := write_audio_outputs (fst (startAudio cos_sample st dev h1 h2 boost o)) buffers in
  s_reference_len st' = len /\
  index_in_table (s_reference1_index st') len /\
  index_in_table (s_reference2_index st') len /\
  reference_at (s_reference_data st') (s_reference1_index st')
    = cos_sample (s_reference1_index st') len /\
  reference_at (s_reference_data st') (s_reference2_index st')
    = cos_sample (s_reference2_index st') len.
Proof.
  intros Hok Hs Hh1 Hh2 Hrc len st'.
  pose proof (startAudio_reference_ok cos_sample st dev h1 h2 boost o Hok ltac:(lia)) as Hok1.
  set (st1 := fst (startAudio cos_sample st dev h1 h2 boost o)) in *.
  assert (F : s_reference_len st1 = len /\ s_heterodyne1_kHz st1 = h1 /\
              s_heterodyne2_kHz st1 = h2 /\ s_reference1_index st1 = 0 /\
              s_reference2_index st1 = 0 /\ h1 <= len /\ h2 <= len).
  { unfold st1 in *. unfold startAudio in *.
    assert (En : (if s_nominal_samples_per_frame st >? MAX_REFERENCE_LEN
                  then MAX_REFERENCE_LEN else s_nominal_samples_per_frame st) = len).
    { unfold len. destruct (Z.gtb_spec (s_nominal_samples_per_frame st) MAX_REFERENCE_LEN); lia. }
    rewrite En in *.
    destruct (Z.gtb_spec h1 len); [discriminate Hrc|].
    destruct (Z.gtb_spec h2 len); [discriminate Hrc|].
    cbn [orb] in *. destruct (start_audio_output o) as [stream rc].
    cbn [fst s_reference_len s_heterodyne1_kHz s_heterodyne2_kHz s_reference1_index
           s_reference2_index].
    destruct (Z.eqb_spec len (s_reference_len st)); cbn [negb]; repeat split; auto. }
  destruct F as (F1 & F2 & F3 & F4 & F5 & F6 & F7).
  assert (Hlen : 1 <= len <= MAX_REFERENCE_LEN) by (unfold len, MAX_REFERENCE_LEN in *; lia).
  destruct (write_audio_outputs_in_table buffers st1) as (R1 & R2 & R3 & R4);
    rewrite ?F1, ?F2, ?F3, ?F4, ?F5; unfold index_in_table; try lia.
  fold st' in R1, R2, R3, R4. rewrite F1 in *.
  destruct Hok1 as (_ & _ & Htab). destruct (Htab ltac:(lia)) as [T _]. rewrite F1 in T.
  assert (Rd : forall idx, index_in_table idx len ->
                 reference_at (s_reference_data st') idx = cos_sample idx len).
  { intros idx [Hlo Hhi]. unfold reference_at, rd.
    destruct (Z.ltb_spec idx 0); [lia|].
    rewrite R2, (T (Z.to_nat idx)) by lia. simpl. rewrite Z2Nat.id by lia. reflexivity. }
  split; [exact R1|]. split; [exact R3|]. split; [exact R4|].
  split; apply Rd; assumption.
Qed.

(** X10.  [startAudio] checks the tones from above only.  A negative first
    tone is accepted, and from the first sample on the first phase index is
    negative: after k samples it stands at k * h1, below the table. *)
Theorem X10_negative_tone_accepted (st : audio_state) (dev h1 h2 boost : Z) (pBuffer : list Z) :
  0 <= s_nominal_samples_per_frame st ->
  h1 < 0 -> h2 <= Z.min (s_nominal_samples_per_frame st) MAX_REFERENCE_LEN ->
  INT32_MIN <= Z.of_nat (length pBuffer) * h1 ->
  let r := startAudio cos_sample st dev h1 h2 boost StreamStarted in
  snd r = true /\
  s_reference1_index (fst (write_audio_output (fst r) pBuffer)) = Z.of_nat (length pBuffer) * h1.
Proof.
  intros Hs Hh1 Hh2 Hk r.
  assert (F : snd r = true /\ s_heterodyne1_kHz (fst r) = h1 /\
              s_reference1_index (fst r) = 0 /\ 0 <= s_reference_len (fst r)).
  { unfold r, startAudio.
    set (n := if s_nominal_samples_per_frame st >? MAX_REFERENCE_LEN
              then MAX_REFERENCE_LEN else s_nominal_samples_per_frame st).
    assert (En : n = Z.min (s_nominal_samples_per_frame st) MAX_REFERENCE_LEN).
    { unfold n. destruct (Z.gtb_spec (s_nominal_samples_per_frame st) MAX_REFERENCE_LEN); lia. }
    assert (Hn : 0 <= n) by (unfold MAX_REFERENCE_LEN in *; lia).
    destruct (Z.gtb_spec h1 n); [lia|]. destruct (Z.gtb_spec h2 n); [lia|].
    cbn [orb start_audio_output fst snd s_heterodyne1_kHz s_reference1_index s_reference_len].
    destruct (Z.eqb_spec n (s_reference_len st)); cbn [negb]; repeat split; lia. }
  destruct F as (F1 & F2 & F3 & F4). split; [exact F1|].
  rewrite write_audio_output_index1, F2, F3.
  generalize (s_reference_len (fst r)) F4. intros len Hlen.
  assert (G : forall (k : nat) idx, idx <= 0 -> INT32_MIN <= idx + Z.of_nat k * h1 ->
                advance_n k idx h1 len = idx + Z.of_nat k * h1).
  { induction k as [|k IH]; intros idx Hidx Hb; cbn [advance_n]; [lia|].
    assert (E : advance_index idx h1 len = idx + h1).
    { unfold advance_index, INT32_MIN in *.
      rewrite to_int32_small by (unfold in_int32, INT32_MIN, INT32_MAX; nia).
      destruct (Z.geb_spec (idx + h1) len); [lia|reflexivity]. }
    rewrite E, IH by (unfold INT32_MIN in *; lia). lia. }
  rewrite G by lia. lia.
Qed.

End Session.

Lemma X9_session_witness :
  let st := stream_setup initial_audio_state 4000 102868919 in
  let st' := write_audio_outputs (fst (startAudio cos_sample_taylor st 0 3 4 0 StreamStarted))
               [[1; 2; 3]; []; [4; 5; 6; 7; 8]] in
  snd (startAudio cos_sample_taylor st 0 3 4 0 StreamStarted) = true /\
  s_reference_len st' = Z.min (s_nominal_samples_per_frame st) MAX_REFERENCE_LEN /\
  index_in_table (s_reference1_index st')
    (Z.min (s_nominal_samples_per_frame st) MAX_REFERENCE_LEN) /\
  index_in_table (s_reference2_index st')
    (Z.min (s_nominal_samples_per_frame st) MAX_REFERENCE_LEN).
Proof.
  intros st st'.
  assert (Hok : reference_ok cos_sample_taylor st)
    by exact (initial_reference_ok cos_sample_taylor).
  assert (Hs : 1 <= s_nominal_samples_per_frame st) by (vm_compute; discriminate).
  assert (Hrc : snd (startAudio cos_sample_taylor st 0 3 4 0 StreamStarted) = true)
    by (vm_compute; reflexivity).
  split; [exact Hrc|].
  destruct (X9_session_stays_in_table cos_sample_taylor st 0 3 4 0 StreamStarted
              [[1; 2; 3]; []; [4; 5; 6; 7; 8]] Hok Hs ltac:(lia) ltac:(lia) Hrc)
    as (R1 & R2 & R3 & _).
  split; [exact R1|]. split; [exact R2|exact R3].
Defined.

Lemma X10_negative_tone_witness :
  let st := stream_setup initial_audio_state 4000 102868919 in
  let r := startAudio cos_sample_taylor st 0 (-1) 0 0 StreamStarted in
  snd r = true /\
  s_reference1_index (fst (write_audio_output (fst r) [5; 6; 7]))
  = Z.of_nat (length [5; 6; 7]) * -1.
Proof.
  intros st.
  exact (X10_negative_tone_accepted cos_sample_taylor st 0 (-1) 0 0 [5; 6; 7]
           ltac:(vm_compute; discriminate) ltac:(lia) ltac:(vm_compute; discriminate)
           ltac:(vm_compute; discriminate)).
Defined.

(** X11.  The table and its sentinel in every reachable state.  Whatever
    the host calls and in whatever order (stream set-up, startAudio,
    setHeterodyne, write_audio_output), the table array keeps its 513 cells,
    the table length stays within 0..512, and once a table has been built its
    cells below the length are the cosine samples for that length and the
    cell at the length holds the sentinel: no entry point overwrites it. *)
Theorem X11_table_in_every_reachable_state (cos_sample : Z -> Z -> Z) (st : audio_state) :
  audio_reachable cos_sample st ->
  length (s_reference_data st) = 513%nat /\
  0 <= s_reference_len st <= MAX_REFERENCE_LEN /\
  0 <= s_nominal_samples_per_frame st /\
  (s_reference_len st <> 0 ->
   (forall i : nat, Z.of_nat i < s_reference_len st ->
      s_reference_data st !! i = Some (cos_sample (Z.of_nat i) (s_reference_len st))) /\
   s_reference_data st !! Z.to_nat (s_reference_len st) = Some CANARY_DATA_VALUE).
Proof.
  intros Hr.
  destruct (audio_reachable_reference_ok cos_sample st Hr) as ((H1 & H2 & H3) & H4).
  split; [exact H1|]. split; [exact H2|]. split; [exact H4|exact H3].
Qed.

Lemma X11_reachable_witness :
  let st := fst (write_audio_output
                   (setHeterodyne
                      (fst (startAudio cos_sample_taylor
                              (stream_setup initial_audio_state 4000 102868919)
                              0 1 0 0 StreamStarted)) 2 1)
                   [1; 2; 3]) in
  audio_reachable cos_sample_taylor st /\
  length (s_reference_data st) = 513%nat /\
  0 <= s_reference_len st <= MAX_REFERENCE_LEN.
Proof.
  intros st.
  assert (Hr : audio_reachable cos_sample_taylor st).
  { apply reach_write_audio_output, reach_setHeterodyne, reach_startAudio, reach_stream;
      [apply reach_initial|lia]. }
  split; [exact Hr|].
  destruct (X11_table_in_every_reachable_state cos_sample_taylor st Hr) as (H1 & H2 & _).
  split; [exact H1|exact H2].
Defined.

(** ** The transform on any input *)
Section TransformFrame.
Variable lib : float_library.

Lemma fft_buckets_spec (temp_buffer : list kiss_fft_cpx) (normalizer2 minDB thr : Q)
    (base lo hi : Z) (count j : nat) (l : fft_loop) :
  (0 <= base)%Z ->
  let l' := fft_buckets lib temp_buffer normalizer2 minDB thr base lo hi count j l in
  let start := (Z.to_nat base + fl_transformedIndex l)%nat in
  fl_transformedIndex l' = (fl_transformedIndex l + count)%nat /\
  length (fl_transformedData l') = length (fl_transformedData l) /\
  ((start + count <= length (fl_transformedData l))%nat ->
   forall m : nat,
     fl_transformedData l' !! m =
     if decide (start <= m < start + count)%nat
     then Some (bucket_dB lib normalizer2 minDB (cpx_at temp_buffer (j + (m - start))))
     else fl_transformedData l !! m) /\
  fl_triggered l' =
    fl_triggered l
    || existsb (fun k => in_trigger_range lo hi k
                         && Qle_bool thr (bucket_dB lib normalizer2 minDB (cpx_at temp_buffer k)))
         (seq j count).
Proof.
  intros Hbase. revert j l. induction count as [|c IH]; intros j l; cbn zeta.
  - cbn [fft_buckets seq existsb]. rewrite Nat.add_0_r, orb_false_r.
    split; [reflexivity|]. split; [reflexivity|]. split; [|reflexivity].
    intros _ m. case_decide; [lia|reflexivity].
  - cbn [fft_buckets seq existsb]. rewrite store_at_nonneg by exact Hbase.
    match goal with |- context [fft_buckets _ _ _ _ _ _ _ _ c (S j) ?l1] =>
      destruct (IH (S j) l1) as (I1 & I2 & I3 & I4) end.
    cbn [fl_transformedIndex fl_transformedData fl_triggered] in I1, I2, I3, I4.
    rewrite I1, I2, I4, length_insert.
    split; [lia|]. split; [reflexivity|]. split.
    + intros Hfit m. rewrite I3 by (rewrite length_insert; lia).
      repeat case_decide; try lia.
      * do 3 f_equal. lia.
      * assert (m = (Z.to_nat base + fl_transformedIndex l)%nat) as -> by lia.
        rewrite list_lookup_insert_eq by lia. do 3 f_equal. lia.
      * rewrite list_lookup_insert_ne by lia. reflexivity.
    + destruct (in_trigger_range lo hi j && Qle_bool thr _); cbn [orb];
        rewrite ?orb_true_r; reflexivity.
Qed.

Lemma fft_windows_spec (fs : fft_state) (raw : list Q) (normalizer2 minDB thr : Q)
    (base lo hi : Z) (count wi : nat) (l : fft_loop) :
  (0 <= base)%Z ->
  let B := Z.to_nat (s_fft_frequency_buckets fs) in
  let size := Z.to_nat (s_fft_window_size fs) in
  let dB := fun (w k : nat) =>
    bucket_dB lib normalizer2 minDB
      (cpx_at (kiss_fftr lib (s_fft_window_size fs) (take size (drop (w * size) raw))) k) in
  let l' := fft_windows lib fs raw normalizer2 minDB thr base lo hi count wi l in
  let start := (Z.to_nat base + fl_transformedIndex l)%nat in
  (start + count * B <= length (fl_transformedData l))%nat ->
  fl_transformedIndex l' = (fl_transformedIndex l + count * B)%nat /\
  length (fl_transformedData l') = length (fl_transformedData l) /\
  (forall w k : nat, (w < count)%nat -> (k < B)%nat ->
     fl_transformedData l' !! (start + w * B + k)%nat = Some (dB (wi + w)%nat k)) /\
  (forall m : nat, (m < start \/ start + count * B <= m)%nat ->
     fl_transformedData l' !! m = fl_transformedData l !! m) /\
  fl_triggered l' =
    fl_triggered l
    || existsb (fun w => existsb (fun k => in_trigger_range lo hi k && Qle_bool thr (dB w k))
                           (seq 0 B))
         (seq wi count).
Proof.
  intros Hbase B size dB. revert wi l.
  induction count as [|c IH]; intros wi l l' start Hfit.
  - unfold l'. cbn [fft_windows seq existsb]. rewrite orb_false_r.
    split; [lia|]. split; [reflexivity|]. split; [intros; lia|]. split; reflexivity.
  - unfold l'. cbn [fft_windows seq existsb]. fold size B.
    set (temp := kiss_fftr lib (s_fft_window_size fs) (take size (drop (wi * size) raw))).
    destruct (fft_buckets_spec temp normalizer2 minDB thr base lo hi B 0 l Hbase)
      as (S1 & S2 & S3 & S4).
    set (l1 := fft_buckets lib temp normalizer2 minDB thr base lo hi B 0 l) in *.
    fold start in S3. specialize (S3 ltac:(lia)).
    destruct (IH (S wi) l1) as (I1 & I2 & I3 & I4 & I5); [rewrite S1, S2; lia|].
    rewrite I1, I2, I5, S1, S2, S4.
    split; [lia|]. split; [reflexivity|]. split; [|split].
    + intros w k Hw Hk. destruct w as [|w].
      * rewrite I4 by (rewrite S1; lia). rewrite S3.
        case_decide; [|lia]. unfold dB. fold temp.
        replace (wi + 0)%nat with wi by lia.
        do 3 f_equal. lia.
      * replace (start + S w * B + k)%nat
          with (Z.to_nat base + fl_transformedIndex l1 + w * B + k)%nat by (rewrite S1; lia).
        rewrite I3 by lia. do 2 f_equal. lia.
    + intros m Hm. rewrite I4 by (rewrite S1; lia). rewrite S3.
      case_decide; [lia|reflexivity].
    + rewrite orb_assoc. reflexivity.
Qed.

(** X12.  What doFft writes.  Take n windows of B buckets each, an output
    array that holds them from [transformed_buffer_index] >= 0 on, an input
    that holds the n windows, a window size of at least 1, and spectra on
    which no float operation of the dB conversion overflows.  Then doFft
    returns n, writes the dB value of bucket k of window w (window w being
    the w-th block of [s_fft_window_size] floats of the input) to cell
    [transformed_buffer_index + w * B + k] of the output array, leaves every
    cell outside [transformed_buffer_index, transformed_buffer_index + n * B)
    as it was, and raises the trigger flag exactly when some bucket in the
    trigger range of some window is at or above the threshold.  The dB value
    is the one of lines 241-262 with every operation rounded to [float]: a
    squared magnitude that underflows to 0 gives the floor. *)
Theorem X12_doFft_frame (fs : fft_state) (n : nat) (raw out : list Q) (base : Z) (minDB : Q)
    (lo hi : Z) (thr : Q) :
  let B := Z.to_nat (s_fft_frequency_buckets fs) in
  let size := Z.to_nat (s_fft_window_size fs) in
  let bin := fun (w k : nat) =>
    cpx_at (kiss_fftr lib (s_fft_window_size fs) (take size (drop (w * size) raw))) k in
  let dB := fun (w k : nat) => bucket_dB lib (fft_normalizer2 fs) minDB (bin w k) in
  let r := doFft lib fs (Z.of_nat n) raw out base minDB lo hi thr in
  (0 <= base)%Z ->
  (Z.to_nat base + n * B <= length out)%nat ->
  (n * size <= length raw)%nat ->
  (1 <= s_fft_window_size fs)%Z ->
  (forall w k : nat, (w < n)%nat -> (k < B)%nat ->
     bucket_finite lib (fft_normalizer2 fs) (bin w k) = true) ->
  snd r = Z.of_nat n /\
  length (fst (fst r)) = length out /\
  (forall w k : nat, (w < n)%nat -> (k < B)%nat ->
     fst (fst r) !! (Z.to_nat base + w * B + k)%nat = Some (dB w k)) /\
  (forall m : nat, (m < Z.to_nat base \/ Z.to_nat base + n * B <= m)%nat ->
     fst (fst r) !! m = out !! m) /\
  (snd (fst r) = true <->
   exists w k : nat, (w < n)%nat /\ (k < B)%nat /\
     (lo <= Z.of_nat k <= hi)%Z /\ (thr <= dB w k)%Q).
Proof.
  intros B size bin dB r Hbase Hfit Hraw Hsize Hfin. unfold r, doFft. cbn [fst snd].
  rewrite Nat2Z.id.
  destruct (fft_windows_spec fs raw (fft_normalizer2 fs) minDB thr base lo hi n 0
              {| fl_transformedData := out; fl_transformedIndex := 0; fl_triggered := false |}
              Hbase)
    as (W1 & W2 & W3 & W4 & W5).
  { cbn [fl_transformedData fl_transformedIndex]. fold B. lia. }
  cbn [fl_transformedData fl_transformedIndex fl_triggered] in W1, W2, W3, W4, W5.
  fold B size in W3, W5.
  split; [lia|]. split; [exact W2|]. split; [|split].
  - intros w k Hw Hk. specialize (W3 w k Hw Hk).
    rewrite Nat.add_0_r in W3. exact W3.
  - intros m Hm. apply W4. fold B. lia.
  - rewrite W5. cbn [orb]. rewrite existsb_exists. split.
    + intros (w & Hw & Hex). apply in_seq in Hw.
      apply existsb_exists in Hex. destruct Hex as (k & Hk & Hhit). apply in_seq in Hk.
      apply andb_true_iff in Hhit. destruct Hhit as [Hr Ht].
      unfold in_trigger_range in Hr. apply andb_true_iff in Hr. destruct Hr as [Hr1 Hr2].
      exists w, k. split; [lia|]. split; [lia|]. split; [lia|].
      apply Qle_bool_iff. exact Ht.
    + intros (w & k & Hw & Hk & Hr & Ht). exists w. split; [apply in_seq; lia|].
      apply existsb_exists. exists k. split; [apply in_seq; lia|].
      apply andb_true_iff. split.
      * unfold in_trigger_range. apply andb_true_iff. split; lia.
      * apply Qle_bool_iff. exact Ht.
Qed.

End TransformFrame.

Lemma X12_doFft_frame_witness :
  let r := doFft float_library_4 (initFft 4) (Z.of_nat 2)
             [1; 1; 1; 1; 0; 0; 0; 0]%Q (replicate 8 7%Q) 1 (-100)%Q 0 0 (-50)%Q in
  snd r = Z.of_nat 2 /\ length (fst (fst r)) = length (replicate 8 7%Q) /\
  fst (fst r) !! 0%nat = Some 7%Q /\ fst (fst r) !! 7%nat = Some 7%Q /\
  fst (fst r) !! 2%nat = Some (-100)%Q.
Proof.
  intros r.
  assert (Hfin : forall w k : nat, (w < 2)%nat ->
            (k < Z.to_nat (s_fft_frequency_buckets (initFft 4)))%nat ->
            bucket_finite float_library_4 (fft_normalizer2 (initFft 4))
              (cpx_at (kiss_fftr float_library_4 (s_fft_window_size (initFft 4))
                         (take (Z.to_nat (s_fft_window_size (initFft 4)))
                            (drop (w * Z.to_nat (s_fft_window_size (initFft 4)))
                               [1; 1; 1; 1; 0; 0; 0; 0]%Q))) k) = true).
  { intros w k Hw Hk. change (Z.to_nat (s_fft_frequency_buckets (initFft 4))) with 3%nat in Hk.
    destruct w as [|[|w]]; [| |lia]; destruct k as [|[|[|k]]]; try lia;
      vm_compute; reflexivity. }
  destruct (X12_doFft_frame float_library_4 (initFft 4) 2
              [1; 1; 1; 1; 0; 0; 0; 0]%Q (replicate 8 7%Q) 1 (-100)%Q 0 0 (-50)%Q
              ltac:(lia) ltac:(vm_compute; lia) ltac:(vm_compute; lia) ltac:(simpl; lia)
              Hfin) as (R1 & R2 & R3 & R4 & _).
  split; [exact R1|]. split; [exact R2|].
  split; [exact (R4 0%nat ltac:(vm_compute; lia))|].
  split; [exact (R4 7%nat ltac:(vm_compute; lia))|].
  exact (R3 0%nat 1%nat ltac:(lia) ltac:(vm_compute; lia)).
Defined.

(** Rounding to [float] at work.  A bin of 2^-80 has a squared magnitude
    that underflows to 0 and gets the floor; in exact arithmetic it would
    get a dB value.  With the output array starting behind cell 0
    ([transformed_buffer_index] = -2) the first two buckets are written in
    front of the array, and cell 0 receives the third. *)
Example doFft_underflow_and_negative_index :
  bucket_dB float_library_4 (fft_normalizer2 (initFft 4)) (-100)%Q
    {| cpx_r := 1 # (2 ^ 80); cpx_i := 0 |} = (-100)%Q /\
  bucket_dB float_library_4 (fft_normalizer2 (initFft 4)) (-100)%Q
    {| cpx_r := 1 # (2 ^ 70); cpx_i := 0 |} <> (-100)%Q /\
  fst (fst (doFft float_library_4 (initFft 4) 1 [1; 0; 0; 0]%Q [7; 7; 7]%Q (-2)
              (-100)%Q 0 0 0%Q))
  = [bucket_dB float_library_4 (fft_normalizer2 (initFft 4)) (-100)%Q
       {| cpx_r := 1; cpx_i := 0 |}; 7%Q; 7%Q].
Proof.
  split; [vm_compute; reflexivity|]. split; [vm_compute; discriminate|].
  vm_compute. reflexivity.
Qed.

(** ** Where the pixels go *)
Section BitmapLayout.

Lemma bitmap_offset_value (x y max_y stride : Z) :
  0 <= x < stride -> 0 <= y < max_y -> max_y * stride <= 2 ^ 32 ->
  XYToBitmapOffset x y max_y stride = (max_y - 1 - y) * stride + x /\
  0 <= (max_y - 1 - y) * stride + x < max_y * stride.
Proof.
  intros Hx Hy Hm. unfold XYToBitmapOffset.
  assert (B : 0 <= (max_y - 1 - y) * stride + x < max_y * stride) by nia.
  assert (B1 : 0 <= (max_y - 1 - y) * stride) by nia.
  replace (max_y - y - 1) with (max_y - 1 - y) by lia.
  rewrite (Z.mod_small ((max_y - 1 - y) * stride)) by lia.
  rewrite Z.mod_small by lia. split; [reflexivity|exact B].
Qed.

Lemma bitmap_offset_inj (max_y stride x y x' y' : Z) :
  0 <= x < stride -> 0 <= x' < stride ->
  (max_y - 1 - y) * stride + x = (max_y - 1 - y') * stride + x' -> x = x' /\ y = y'.
Proof.
  intros Hx Hx' E.
  assert (Hy : y = y').
  { destruct (Z_lt_ge_dec y y'); [nia|]. destruct (Z_lt_ge_dec y' y); [nia|]. lia. }
  subst. lia.
Qed.

(** X13.  The bitmap offset turns the y axis over.  For a pixel (x, y) of a
    bitmap of [max_y] rows of [indexStride] cells that fits 32-bit offsets,
    the offset is [(max_y - 1 - y) * indexStride + x]: row [max_y - 1 - y]
    from the top, inside the bitmap, with no wrap of the unsigned
    arithmetic, and different pixels get different offsets. *)
Theorem X13_bitmap_offset (x y x' y' max_y indexStride : Z) :
  0 <= x < indexStride -> 0 <= y < max_y ->
  0 <= x' < indexStride -> 0 <= y' < max_y ->
  max_y * indexStride <= 2 ^ 32 ->
  XYToBitmapOffset x y max_y indexStride = (max_y - 1 - y) * indexStride + x /\
  0 <= XYToBitmapOffset x y max_y indexStride < max_y * indexStride /\
  (XYToBitmapOffset x y max_y indexStride = XYToBitmapOffset x' y' max_y indexStride ->
   x = x' /\ y = y').
Proof.
  intros Hx Hy Hx' Hy' Hm.
  destruct (bitmap_offset_value x y max_y indexStride Hx Hy Hm) as [E B].
  destruct (bitmap_offset_value x' y' max_y indexStride Hx' Hy' Hm) as [E' B'].
  rewrite E, E'. split; [reflexivity|]. split; [exact B|].
  apply bitmap_offset_inj; assumption.
Qed.

Lemma X13_bitmap_offset_witness :
  XYToBitmapOffset 2 0 3 4 = (3 - 1 - 0) * 4 + 2 /\
  0 <= XYToBitmapOffset 2 0 3 4 < 3 * 4 /\
  (XYToBitmapOffset 2 0 3 4 = XYToBitmapOffset 1 2 3 4 -> 2 = 1 /\ 0 = 2).
Proof.
  apply (X13_bitmap_offset 2 0 1 2 3 4); lia.
Defined.

(** Without the bound the unsigned arithmetic wraps: a y at or beyond
    [max_y] gives an offset far outside the bitmap. *)
Example bitmap_offset_wraps : XYToBitmapOffset 0 3 3 4 = 2 ^ 32 - 4.
Proof. reflexivity. Qed.

Section ColourPixels.
Variable st : colour_state.
Variable table : list Z.
Variable data : list Q.
Variables offset multiplier : Q.
Variables fbc stride : Z.
Hypothesis table_stored : s_colourMapData st = Some table.
Hypothesis table_length : Z.of_nat (length table) = s_colourMapDataSize st.
Hypothesis table_not_empty : 1 <= s_colourMapDataSize st.
Hypothesis bitmap_fits : fbc * stride <= 2 ^ 32.

(** The pixel that the dB value in cell [i] of the input becomes. *)
Let px (i : Z) : Z :=
  to_uint16 (to_int16 (rd table (Z.to_nat (colour_index (rdQ_at data i) offset multiplier
                                             (s_colourMapDataSize st))))).

Let cell (t f : Z) : nat := Z.to_nat ((fbc - 1 - f) * stride + t).

Lemma colour_lookup_value (v : Q) :
  colour_lookup st (colour_index v offset multiplier (s_colourMapDataSize st))
  = Some (rd table (Z.to_nat (colour_index v offset multiplier (s_colourMapDataSize st)))).
Proof.
  pose proof (colour_index_in_range v offset multiplier _ table_not_empty) as Hr.
  unfold colour_lookup. rewrite table_stored.
  destruct (Z.ltb_spec (colour_index v offset multiplier (s_colourMapDataSize st)) 0); [lia|].
  unfold rd.
  destruct (lookup_lt_is_Some_2 table
              (Z.to_nat (colour_index v offset multiplier (s_colourMapDataSize st)))
              ltac:(lia)) as [c ->].
  reflexivity.
Qed.

Lemma cell_inj (t f t' f' : Z) :
  0 <= t < stride -> 0 <= t' < stride -> 0 <= f < fbc -> 0 <= f' < fbc ->
  cell t f = cell t' f' -> t = t' /\ f = f'.
Proof.
  intros Ht Ht' Hf Hf' E. unfold cell in E.
  apply Z2Nat.inj in E; [|nia|nia].
  apply (bitmap_offset_inj fbc stride); assumption.
Qed.

Lemma colour_row_pixels (t : Z) (count : nat) (fb : Z) (ii : Z) (pixels : list Z) :
  0 <= t < stride -> 0 <= fb -> fb + Z.of_nat count <= fbc ->
  fbc * stride <= Z.of_nat (length pixels) ->
  exists pixels',
    colour_row st data offset multiplier fbc stride t count fb ii pixels = Some pixels' /\
    length pixels' = length pixels /\
    (forall k : nat, (k < count)%nat ->
       pixels' !! cell t (fb + Z.of_nat k) = Some (px (ii + Z.of_nat k))) /\
    (forall m : nat, (forall k : nat, (k < count)%nat -> m <> cell t (fb + Z.of_nat k)) ->
       pixels' !! m = pixels !! m).
Proof.
  intros Ht. revert fb ii pixels.
  induction count as [|c IH]; intros fb ii pixels Hfb Hfit Hlen.
  - exists pixels. cbn [colour_row]. split; [reflexivity|]. split; [reflexivity|].
    split; [intros; lia|]. reflexivity.
  - cbn [colour_row]. rewrite colour_lookup_value.
    destruct (bitmap_offset_value t fb fbc stride Ht ltac:(lia) bitmap_fits) as [E B].
    rewrite E. fold (cell t fb). fold (px ii).
    assert (Hcell : (cell t fb < length pixels)%nat) by (unfold cell; lia).
    destruct (IH (fb + 1) (ii + 1) (<[cell t fb := px ii]> pixels))
      as (pixels' & R & L & P & U); [lia|lia|rewrite length_insert; lia|].
    exists pixels'. split; [exact R|]. split; [rewrite L; apply length_insert|]. split.
    + intros k Hk. destruct k as [|k].
      * replace (fb + Z.of_nat 0) with fb by lia. replace (ii + Z.of_nat 0) with ii by lia.
        rewrite U.
        -- apply list_lookup_insert_eq. exact Hcell.
        -- intros k Hk' Heq.
           apply cell_inj in Heq; [lia|lia|lia|lia|lia].
      * replace (fb + Z.of_nat (S k)) with (fb + 1 + Z.of_nat k) by lia.
        replace (ii + Z.of_nat (S k)) with (ii + 1 + Z.of_nat k) by lia.
        apply P. lia.
    + intros m Hm. rewrite U.
      * apply list_lookup_insert_ne. intros Heq. apply (Hm 0%nat); [lia|].
        replace (fb + Z.of_nat 0) with fb by lia. congruence.
      * intros k Hk Heq. apply (Hm (S k)); [lia|].
        replace (fb + Z.of_nat (S k)) with (fb + 1 + Z.of_nat k) by lia. exact Heq.
Qed.

Lemma colour_rows_pixels (count : nat) (tb : Z) (ii : Z) (pixels : list Z) :
  0 <= fbc -> 0 <= tb -> tb + Z.of_nat count <= stride ->
  fbc * stride <= Z.of_nat (length pixels) ->
  exists pixels',
    colour_rows st data offset multiplier fbc stride count tb ii pixels = Some pixels' /\
    length pixels' = length pixels /\
    (forall j f : nat, (j < count)%nat -> Z.of_nat f < fbc ->
       pixels' !! cell (tb + Z.of_nat j) (Z.of_nat f)
       = Some (px (ii + Z.of_nat j * fbc + Z.of_nat f))) /\
    (forall m : nat,
       (forall j f : nat, (j < count)%nat -> Z.of_nat f < fbc ->
          m <> cell (tb + Z.of_nat j) (Z.of_nat f)) ->
       pixels' !! m = pixels !! m).
Proof.
  intros Hfbc. revert tb ii pixels.
  induction count as [|c IH]; intros tb ii pixels Htb Hfit Hlen.
  - exists pixels. cbn [colour_rows]. split; [reflexivity|]. split; [reflexivity|].
    split; [intros; lia|]. reflexivity.
  - cbn [colour_rows]. rewrite Z.max_r by exact Hfbc.
    destruct (colour_row_pixels tb (Z.to_nat fbc) 0 ii pixels)
      as (p1 & R1 & L1 & P1 & U1); [lia|lia|lia|lia|].
    rewrite R1.
    destruct (IH (tb + 1) (ii + fbc) p1)
      as (pixels' & R & L & P & U); [lia|lia|lia|].
    exists pixels'. split; [exact R|]. split; [congruence|]. split.
    + intros j f Hj Hf. destruct j as [|j].
      * replace (tb + Z.of_nat 0) with tb by lia.
        rewrite U.
        -- specialize (P1 f ltac:(lia)).
           replace (0 + Z.of_nat f) with (Z.of_nat f) in P1 by lia.
           rewrite P1. do 2 f_equal. lia.
        -- intros j' f' Hj' Hf' Heq. apply cell_inj in Heq; lia.
      * replace (tb + Z.of_nat (S j)) with (tb + 1 + Z.of_nat j) by lia.
        rewrite P by lia. do 2 f_equal. lia.
    + intros m Hm. rewrite U.
      * apply U1. intros k Hk Heq. apply (Hm 0%nat k); [lia|lia|].
        replace (tb + Z.of_nat 0) with tb by lia.
        replace (0 + Z.of_nat k) with (Z.of_nat k) in Heq by lia. exact Heq.
      * intros j f Hj Hf Heq. apply (Hm (S j) f); [lia|lia|].
        replace (tb + Z.of_nat (S j)) with (tb + 1 + Z.of_nat j) by lia. exact Heq.
Qed.

(** X14.  What doColourMapping draws.  With a colour table in place, a
    bitmap of [fbc] rows of [stride] cells and an input array that holds the
    time buckets [first, second) (within the row), whose scaled values can
    be cast to [int], a pass succeeds; the dB value of frequency bucket f of
    time bucket t, cell [t * fbc + f] of the input, decides the pixel in
    column t of row [fbc - 1 - f] (the frequency axis is turned over): it is
    the table entry at the clamped index of [(value - offset) * multiplier],
    computed in [float], stored through [jshort] in the [uint16_t] pixel;
    and no other pixel changes. *)
Theorem X14_doColourMapping_pixels (first second : Z) (pixels : list Z) :
  0 <= fbc -> 0 <= first <= second -> second <= stride ->
  fbc * stride <= Z.of_nat (length pixels) ->
  second * fbc <= Z.of_nat (length data) -> Z.of_nat (length data) <= INT32_MAX ->
  (forall t f : Z, first <= t < second -> 0 <= f < fbc ->
     cast_defined (rdQ data (Z.to_nat (t * fbc + f))) offset multiplier = true) ->
  exists pixels',
    doColourMapping st first second data fbc stride pixels offset multiplier = Some pixels' /\
    length pixels' = length pixels /\
    (forall t f : Z, first <= t < second -> 0 <= f < fbc ->
       pixels' !! Z.to_nat ((fbc - 1 - f) * stride + t)
       = Some (to_uint16
                 (to_int16
                    (rd table (Z.to_nat (colour_index (rdQ data (Z.to_nat (t * fbc + f)))
                                           offset multiplier (s_colourMapDataSize st))))))) /\
    (forall m : nat,
       (forall t f : Z, first <= t < second -> 0 <= f < fbc ->
          m <> Z.to_nat ((fbc - 1 - f) * stride + t)) ->
       pixels' !! m = pixels !! m).
Proof.
  intros Hfbc Hfs Hsec Hlen Hdata Hmax Hcast. unfold doColourMapping, INT32_MAX in *.
  rewrite to_int32_small by (unfold in_int32, INT32_MIN, INT32_MAX; nia).
  destruct (colour_rows_pixels (Z.to_nat (second - first)) first (first * fbc) pixels)
    as (pixels' & R & L & P & U); [lia|lia|lia|lia|].
  exists pixels'. split; [exact R|]. split; [exact L|]. split.
  - intros t f Ht Hf.
    specialize (P (Z.to_nat (t - first)) (Z.to_nat f) ltac:(lia) ltac:(lia)).
    unfold cell, px in P.
    replace (first + Z.of_nat (Z.to_nat (t - first))) with t in P by lia.
    replace (Z.of_nat (Z.to_nat f)) with f in P by lia.
    replace (first * fbc + Z.of_nat (Z.to_nat (t - first)) * fbc + f) with (t * fbc + f) in P
      by nia.
    rewrite P. unfold rdQ_at. destruct (Z.ltb_spec (t * fbc + f) 0); [nia|]. reflexivity.
  - intros m Hm. apply U. intros j f Hj Hf. unfold cell. apply Hm; lia.
Qed.

End ColourPixels.
End BitmapLayout.

Lemma X14_doColourMapping_witness :
  let st := fst (nativeInitialize initial_colour_state (Some [10; 20; 30; -2048]) 4 0) in
  exists pixels',
    doColourMapping st 1 3 [0; 0; 0; 1; 2; 3; 9; (-5); 0]%Q 3 4 (replicate 12 7) 0%Q 1%Q
    = Some pixels' /\
    pixels' = [7; 63488; 10; 7;
               7; 30; 10; 7;
               7; 20; 63488; 7].
Proof.
  intros st.
  assert (Hcast : forall t f : Z, 1 <= t < 3 -> 0 <= f < 3 ->
            cast_defined (rdQ [0; 0; 0; 1; 2; 3; 9; (-5); 0]%Q (Z.to_nat (t * 3 + f)))
              0%Q 1%Q = true).
  { intros t f Ht Hf.
    assert (Et : t = 1 \/ t = 2) by lia. assert (Ef : f = 0 \/ f = 1 \/ f = 2) by lia.
    destruct Et as [->| ->]; destruct Ef as [->|[->| ->]]; vm_compute; reflexivity. }
  destruct (X14_doColourMapping_pixels st [10; 20; 30; 63488]
              [0; 0; 0; 1; 2; 3; 9; (-5); 0]%Q
              0%Q 1%Q 3 4 eq_refl eq_refl ltac:(vm_compute; discriminate)
              ltac:(vm_compute; discriminate) 1 3 (replicate 12 7)
              ltac:(lia) ltac:(lia) ltac:(lia) ltac:(vm_compute; discriminate)
              ltac:(vm_compute; discriminate) ltac:(vm_compute; discriminate) Hcast)
    as (pixels' & E & _).
  exists pixels'. split; [exact E|].
  vm_compute in E. injection E as <-. reflexivity.
Defined.

(** The scaling is the one of the [float] arithmetic: with offset -100 and
    multiplier 2.55f the value 0 scales to 255 exactly, where the exact
    product 254.99999523 would truncate to 254; and an entry with the top bit
    set, such as 0xF800, reaches the pixel as it is. *)
Example colour_scale_rounds_to_float :
  colour_index 0%Q (-100)%Q (binary32 (255 # 100)) 256 = 255 /\
  Qtrunc ((0 - (-100)) * binary32 (255 # 100)) = 254 /\
  to_uint16 (to_int16 63488) = 63488.
Proof. vm_compute. repeat split. Qed.

(** ** The dB range of a selection *)
Section BnCRange.

Lemma Qlt_bool_true (a b : Q) : Qlt_bool a b = true -> (a < b)%Q.
Proof.
  unfold Qlt_bool. intros H. apply negb_true_iff in H.
  apply Qnot_le_lt. intros Hle. apply Qle_bool_iff in Hle. congruence.
Qed.

Lemma Qlt_bool_false (a b : Q) : Qlt_bool a b = false -> (b <= a)%Q.
Proof.
  unfold Qlt_bool. intros H. apply negb_false_iff in H. apply Qle_bool_iff. exact H.
Qed.

Lemma bnc_cell_next (l : bnc_loop) (v : Q) :
  bl_first l = false ->
  let l1 := bnc_cell l v in
  bl_first l1 = false /\
  (bl_minDB l1 <= v)%Q /\ (bl_minDB l1 <= bl_minDB l)%Q /\
  (v <= bl_maxDB l1)%Q /\ (bl_maxDB l <= bl_maxDB l1)%Q /\
  (bl_minDB l1 = v \/ bl_minDB l1 = bl_minDB l) /\
  (bl_maxDB l1 = v \/ bl_maxDB l1 = bl_maxDB l).
Proof.
  intros Hf. unfold bnc_cell. rewrite Hf. cbn [bl_first bl_minDB bl_maxDB].
  split; [reflexivity|].
  destruct (Qlt_bool v (bl_minDB l)) eqn:E1; destruct (Qlt_bool (bl_maxDB l) v) eqn:E2;
    try apply Qlt_bool_true in E1; try apply Qlt_bool_false in E1;
    try apply Qlt_bool_true in E2; try apply Qlt_bool_false in E2;
    repeat split; auto using Qle_refl, Qlt_le_weak.
Qed.

Lemma bnc_cell_first (l : bnc_loop) (v : Q) :
  bl_first l = true ->
  bl_first (bnc_cell l v) = false /\ bl_minDB (bnc_cell l v) = v /\ bl_maxDB (bnc_cell l v) = v.
Proof. intros Hf. unfold bnc_cell. rewrite Hf. repeat split. Qed.

(** The running minimum and maximum over the cells read so far. *)
Lemma bnc_cells_started (vs : list Q) (l : bnc_loop) :
  bl_first l = false ->
  let l' := fold_left bnc_cell vs l in
  bl_first l' = false /\
  (bl_minDB l' <= bl_minDB l)%Q /\ (bl_maxDB l <= bl_maxDB l')%Q /\
  Forall (fun v => bl_minDB l' <= v <= bl_maxDB l')%Q vs /\
  (bl_minDB l' = bl_minDB l \/ bl_minDB l' ∈ vs) /\
  (bl_maxDB l' = bl_maxDB l \/ bl_maxDB l' ∈ vs).
Proof.
  revert l. induction vs as [|v vs IH]; intros l Hf; cbn [fold_left].
  - split; [exact Hf|]. split; [apply Qle_refl|]. split; [apply Qle_refl|].
    split; [constructor|]. split; left; reflexivity.
  - destruct (bnc_cell_next l v Hf) as (S1 & S2 & S3 & S4 & S5 & S6 & S7).
    destruct (IH (bnc_cell l v) S1) as (I1 & I2 & I3 & I4 & I5 & I6).
    split; [exact I1|].
    split; [eapply Qle_trans; [exact I2|exact S3]|].
    split; [eapply Qle_trans; [exact S5|exact I3]|].
    split; [constructor; [split; eapply Qle_trans; eauto|exact I4]|]. split.
    + destruct I5 as [I5|I5]; [|right; right; exact I5].
      destruct S6 as [S6|S6]; [right; rewrite I5, S6; left|left; congruence].
    + destruct I6 as [I6|I6]; [|right; right; exact I6].
      destruct S7 as [S7|S7]; [right; rewrite I6, S7; left|left; congruence].
Qed.

Lemma bnc_cells_range (vs : list Q) (l : bnc_loop) :
  bl_first l = true -> vs <> [] ->
  let l' := fold_left bnc_cell vs l in
  Forall (fun v => bl_minDB l' <= v <= bl_maxDB l')%Q vs /\
  bl_minDB l' ∈ vs /\ bl_maxDB l' ∈ vs.
Proof.
  intros Hf Hne. destruct vs as [|v vs]; [contradiction|]. cbn [fold_left].
  destruct (bnc_cell_first l v Hf) as (S1 & S2 & S3).
  destruct (bnc_cells_started vs (bnc_cell l v) S1) as (I1 & I2 & I3 & I4 & I5 & I6).
  rewrite S2 in I2, I5. rewrite S3 in I3, I6.
  split; [constructor; [split; assumption|exact I4]|]. split.
  - destruct I5 as [I5|I5]; [rewrite I5; left|right; exact I5].
  - destruct I6 as [I6|I6]; [rewrite I6; left|right; exact I6].
Qed.

(** The loops read the cells of the region in order. *)
Lemma bnc_frequencies_fold (data : list Q) (offset : Z) (count : nat) (fi : Z) (l : bnc_loop) :
  bnc_frequencies data offset count fi l
  = fold_left bnc_cell
      (map (fun f => rdQ_at data (offset + f)) (seqZ fi (Z.of_nat count))) l.
Proof.
  revert fi l. induction count as [|c IH]; intros fi l; [reflexivity|].
  rewrite seqZ_cons by lia. cbn [bnc_frequencies map fold_left]. rewrite IH.
  replace (Z.pred (Z.of_nat (S c))) with (Z.of_nat c) by lia. reflexivity.
Qed.

Lemma bnc_times_fold (data : list Q) (fb y1 y2 : Z) (count : nat) (ti : Z) (l : bnc_loop) :
  bnc_times data fb y1 y2 count ti l
  = fold_left bnc_cell
      (flat_map (fun t =>
                   map (fun f => rdQ_at data (to_int32 (t * fb) + f))
                     (seqZ y1 (Z.of_nat (Z.to_nat (y2 - y1 + 1)))))
         (seqZ ti (Z.of_nat count))) l.
Proof.
  revert ti l. induction count as [|c IH]; intros ti l; [reflexivity|].
  rewrite (seqZ_cons ti) by lia. cbn [bnc_times flat_map].
  rewrite fold_left_app, IH, bnc_frequencies_fold.
  replace (Z.pred (Z.of_nat (S c))) with (Z.of_nat c) by lia. reflexivity.
Qed.

(** X15.  The dB range of a selection.  For a selection with x_min < x_max
    and y_min < y_max inside the data, findBnCRange returns the least and the
    greatest dB value of the region that spans the time buckets x_min to
    x_max and the display rows y_min to y_max, both ends included, row y
    being frequency bucket [frequency_buckets - 1 - y]: every cell of the
    region lies between the two results and each result is the value of a
    cell of the region. *)
Theorem X15_findBnCRange (x_min x_max y_min y_max fb : Z) (data : list Q) :
  0 <= x_min < x_max -> 0 <= y_min < y_max -> y_max < fb ->
  (x_max + 1) * fb <= Z.of_nat (length data) -> Z.of_nat (length data) <= INT32_MAX ->
  let cell := fun t y : Z => rdQ data (Z.to_nat (t * fb + (fb - 1 - y))) in
  exists lo hi : Q,
    findBnCRange x_min x_max y_min y_max fb (Some data) true = Some (lo, hi) /\
    (forall t y : Z, x_min <= t <= x_max -> y_min <= y <= y_max ->
       (lo <= cell t y <= hi)%Q) /\
    (exists t y : Z, x_min <= t <= x_max /\ y_min <= y <= y_max /\ lo = cell t y) /\
    (exists t y : Z, x_min <= t <= x_max /\ y_min <= y <= y_max /\ hi = cell t y).
Proof.
  intros Hx Hy Hfb Hlen Hmax cell. unfold findBnCRange, INT32_MAX in *.
  destruct (Z.eqb_spec x_min x_max); [lia|]. destruct (Z.eqb_spec y_min y_max); [lia|].
  cbn [orb].
  assert (Hfbmax : fb <= 2147483647) by nia.
  rewrite !to_int32_small by (unfold in_int32, INT32_MIN, INT32_MAX; lia).
  rewrite bnc_times_fold.
  set (vs := flat_map _ _).
  assert (Hin : forall v, v ∈ vs <->
            exists t y : Z, x_min <= t <= x_max /\ y_min <= y <= y_max /\ v = cell t y).
  { intros v. unfold vs. rewrite list_elem_of_In, in_flat_map. split.
    - intros (t & Ht & Hv). apply list_elem_of_In, elem_of_seqZ in Ht.
      apply in_map_iff in Hv. destruct Hv as (f & <- & Hf).
      apply list_elem_of_In, elem_of_seqZ in Hf.
      exists t, (fb - 1 - f). split; [lia|]. split; [lia|].
      rewrite to_int32_small by (unfold in_int32, INT32_MIN, INT32_MAX; nia).
      unfold rdQ_at, cell. destruct (Z.ltb_spec (t * fb + f) 0); [nia|].
      do 2 f_equal. lia.
    - intros (t & y & Ht & Hy' & ->). exists t.
      split; [apply list_elem_of_In, elem_of_seqZ; lia|].
      apply in_map_iff. exists (fb - 1 - y).
      split; [|apply list_elem_of_In, elem_of_seqZ; lia].
      rewrite to_int32_small by (unfold in_int32, INT32_MIN, INT32_MAX; nia).
      unfold rdQ_at, cell. destruct (Z.ltb_spec (t * fb + (fb - 1 - y)) 0); [nia|].
      reflexivity. }
  assert (Hne : vs <> []).
  { intros E. assert (H0 : cell x_min y_min ∈ vs)
      by (apply Hin; exists x_min, y_min; repeat split; lia).
    rewrite E in H0. inversion H0. }
  destruct (bnc_cells_range vs
              {| bl_minDB := FLT_MAX; bl_maxDB := - FLT_MAX; bl_first := true |}
              eq_refl Hne) as (RF & Rlo & Rhi).
  eexists _, _. split; [reflexivity|]. split; [|split].
  - intros t y Ht Hy'. rewrite Forall_forall in RF. apply RF.
    apply Hin. exists t, y. repeat split; lia.
  - apply Hin. exact Rlo.
  - apply Hin. exact Rhi.
Qed.

End BnCRange.

Lemma X15_findBnCRange_witness :
  exists lo hi : Q,
    findBnCRange 1 2 0 1 3 (Some [0; 0; 0; 5; (-7); 9; 4; 8; 100]%Q) true = Some (lo, hi) /\
    lo = (-7)%Q /\ hi = 100%Q.
Proof.
  destruct (X15_findBnCRange 1 2 0 1 3 [0; 0; 0; 5; (-7); 9; 4; 8; 100]%Q
              ltac:(lia) ltac:(lia) ltac:(lia) ltac:(vm_compute; discriminate)
              ltac:(vm_compute; discriminate)) as (lo & hi & E & _).
  exists lo, hi. split; [exact E|].
  vm_compute in E. injection E as <- <-. split; reflexivity.
Defined.

(** A selection of a single column or row gives no range, although the loops
    take both ends in; a selection given backwards reads nothing and returns
    the two sentinels. *)
Example findBnCRange_edges :
  findBnCRange 1 1 0 2 3 (Some [0; 0; 0; 5; (-7); 9]%Q) true = None /\
  findBnCRange 0 1 2 2 3 (Some [0; 0; 0; 5; (-7); 9]%Q) true = None /\
  findBnCRange 1 0 0 2 3 (Some [0; 0; 0; 5; (-7); 9]%Q) true = Some (FLT_MAX, (- FLT_MAX)%Q).
Proof. repeat split. Qed.

(** ** Cutting the recording into windows *)
Section UnwrapSlices.
Variable fmul : Q -> Q -> Q.
Variable rawData : list Z.
Variable windowData : list Q.

Lemma unwrap_window_length (count : nat) (j : Z) (wi ui : nat) (slice : list Q) :
  length (unwrap_window fmul rawData windowData count j wi ui slice) = length slice.
Proof.
  revert j wi ui slice. induction count as [|c IH]; intros j wi ui slice; [reflexivity|].
  cbn [unwrap_window]. rewrite IH. apply length_insert.
Qed.

Lemma unwrap_window_lookup (count : nat) (j : Z) (wi ui : nat) (slice : list Q) (m : nat) :
  (ui + count <= length slice)%nat ->
  unwrap_window fmul rawData windowData count j wi ui slice !! m =
  if decide (ui <= m < ui + count)%nat
  then Some (fmul (inject_Z (raw_at rawData (j + Z.of_nat (m - ui))))
               (rdQ windowData (wi + (m - ui))))
  else slice !! m.
Proof.
  revert j wi ui slice. induction count as [|c IH]; intros j wi ui slice Hlen.
  - cbn [unwrap_window]. case_decide; [lia|reflexivity].
  - cbn [unwrap_window]. rewrite IH by (rewrite length_insert; lia).
    repeat case_decide; try lia.
    + do 2 f_equal; [do 2 f_equal; lia|f_equal; lia].
    + assert (m = ui) as -> by lia.
      rewrite list_lookup_insert_eq by lia.
      replace (ui - ui)%nat with 0%nat by lia.
      do 2 f_equal; [do 2 f_equal; lia|f_equal; lia].
    + rewrite list_lookup_insert_ne by lia. reflexivity.
Qed.

Lemma unwrap_windows_spec (entries stride N : Z) (count : nat) :
  0 <= N -> 0 <= stride ->
  forall (fit : nat) (start : Z) (ui : nat) (slice : list Q),
  (fit <= count)%nat -> 0 <= start ->
  (forall i : nat, (i < fit)%nat -> start + Z.of_nat i * stride + N <= entries) ->
  (forall i : nat, (fit <= i < count)%nat -> entries < start + Z.of_nat i * stride + N) ->
  start + Z.of_nat count * stride + N <= INT32_MAX ->
  (ui + fit * Z.to_nat N <= length slice)%nat ->
  let r := unwrap_windows fmul rawData entries stride windowData N count start ui slice in
  snd r = (ui + fit * Z.to_nat N)%nat /\
  length (fst r) = length slice /\
  (forall i k : nat, (i < fit)%nat -> Z.of_nat k < N ->
     fst r !! (ui + i * Z.to_nat N + k)%nat
     = Some (fmul (inject_Z (raw_at rawData (start + Z.of_nat i * stride + Z.of_nat k)))
               (rdQ windowData k))) /\
  (forall m : nat, (m < ui \/ ui + fit * Z.to_nat N <= m)%nat -> fst r !! m = slice !! m).
Proof.
  intros HN Hs. induction count as [|c IH]; intros fit start ui slice Hfit Hst Hin Hout Hmax Hlen.
  - assert (fit = 0)%nat as -> by lia. cbn [unwrap_windows fst snd].
    split; [lia|]. split; [reflexivity|]. split; [intros; lia|]. reflexivity.
  - cbn [unwrap_windows]. unfold INT32_MAX in *.
    rewrite !to_int32_small by (unfold in_int32, INT32_MIN, INT32_MAX; nia).
    replace (start + N - start) with N by lia.
    destruct fit as [|f].
    + (* the window does not fit, nor do the later ones *)
      pose proof (Hout 0%nat ltac:(lia)) as H0.
      destruct (Z.leb_spec (start + N) entries) as [?|_]; [lia|].
      assert (Hout' : forall i : nat, (0 <= i < c)%nat ->
                entries < start + stride + Z.of_nat i * stride + N).
      { intros i Hi. specialize (Hout (S i) ltac:(lia)). lia. }
      destruct (IH 0%nat (start + stride) ui slice ltac:(lia) ltac:(lia)
                  ltac:(intros; lia) Hout' ltac:(lia) ltac:(lia)) as (R1 & R2 & R3 & R4).
      split; [exact R1|]. split; [exact R2|]. split; [intros; lia|exact R4].
    + (* the window fits *)
      pose proof (Hin 0%nat ltac:(lia)) as H0.
      destruct (Z.leb_spec (start + N) entries) as [_|?]; [|lia].
      set (s1 := unwrap_window fmul rawData windowData (Z.to_nat N) start 0 ui slice).
      assert (L1 : length s1 = length slice) by apply unwrap_window_length.
      assert (Hin' : forall i : nat, (i < f)%nat ->
                start + stride + Z.of_nat i * stride + N <= entries).
      { intros i Hi. specialize (Hin (S i) ltac:(lia)). lia. }
      assert (Hout' : forall i : nat, (f <= i < c)%nat ->
                entries < start + stride + Z.of_nat i * stride + N).
      { intros i Hi. specialize (Hout (S i) ltac:(lia)). lia. }
      destruct (IH f (start + stride) (ui + Z.to_nat N)%nat s1 ltac:(lia) ltac:(lia)
                  Hin' Hout' ltac:(lia) ltac:(lia)) as (R1 & R2 & R3 & R4).
      split; [rewrite R1; lia|]. split; [congruence|]. split.
      * intros i k Hi Hk. destruct i as [|i].
        -- rewrite R4 by lia. unfold s1. rewrite unwrap_window_lookup by lia.
           case_decide; [|lia].
           do 2 f_equal; [do 2 f_equal; lia|f_equal; lia].
        -- replace (ui + S i * Z.to_nat N + k)%nat
             with (ui + Z.to_nat N + i * Z.to_nat N + k)%nat by lia.
           rewrite R3 by lia. do 4 f_equal. lia.
      * intros m Hm. rewrite R4 by lia. unfold s1.
        rewrite unwrap_window_lookup by lia. case_decide; [lia|reflexivity].
Qed.

(** X16.  What unwrapSlices writes.  Of [window_count] windows that start
    [fft_stride] samples apart, let the first [fit] lie inside the
    [raw_data_entries] samples and the others reach beyond them.  Then the
    call returns 0, window i < fit fills cells [i * N, (i + 1) * N) of the
    slice buffer with its samples times the window function
    ([slice[i * N + k] = raw[start + i * stride + k] * window[k]]), the windows
    that reach beyond the data are skipped without leaving a gap, and the
    slice buffer from cell [fit * N] on is left as it was.  Without a raw or
    a slice array the call returns -1. *)
Theorem X16_unwrapSlices (entries start stride N : Z) (count fit : nat) (slice : list Q) :
  0 <= N -> 0 <= stride -> 0 <= start -> (fit <= count)%nat ->
  (forall i : nat, (i < fit)%nat -> start + Z.of_nat i * stride + N <= entries) ->
  (forall i : nat, (fit <= i < count)%nat -> entries < start + Z.of_nat i * stride + N) ->
  start + Z.of_nat count * stride + N <= INT32_MAX ->
  (fit * Z.to_nat N <= length slice)%nat ->
  snd (unwrapSlices fmul None entries start (Z.of_nat count) stride windowData N (Some slice))
    = -1 /\
  snd (unwrapSlices fmul (Some rawData) entries start (Z.of_nat count) stride windowData N None)
    = -1 /\
  exists slice',
    unwrapSlices fmul (Some rawData) entries start (Z.of_nat count) stride windowData N
      (Some slice) = (Some slice', 0) /\
    length slice' = length slice /\
    (forall i k : nat, (i < fit)%nat -> Z.of_nat k < N ->
       slice' !! (i * Z.to_nat N + k)%nat
       = Some (fmul (inject_Z (raw_at rawData (start + Z.of_nat i * stride + Z.of_nat k)))
                 (rdQ windowData k))) /\
    (forall m : nat, (fit * Z.to_nat N <= m)%nat -> slice' !! m = slice !! m).
Proof.
  intros HN Hs Hst Hfit Hin Hout Hmax Hlen.
  split; [reflexivity|]. split; [reflexivity|].
  unfold unwrapSlices. rewrite Nat2Z.id.
  destruct (unwrap_windows_spec entries stride N count HN Hs fit start 0%nat slice
              Hfit Hst Hin Hout Hmax ltac:(lia)) as (_ & R2 & R3 & R4).
  eexists. split; [reflexivity|]. split; [exact R2|]. split.
  - intros i k Hi Hk. specialize (R3 i k Hi Hk). exact R3.
  - intros m Hm. apply R4. lia.
Qed.

End UnwrapSlices.

Lemma X16_unwrapSlices_witness :
  exists slice',
    unwrapSlices Qmult (Some [1; 2; 3; 4; 5; 6; 7]) 7 1 (Z.of_nat 4) 2 [1; 10; 100]%Q 3
      (Some (replicate 12 (-1)%Q)) = (Some slice', 0) /\
    slice' = [2; 30; 400; 4; 50; 600; -1; -1; -1; -1; -1; -1]%Q.
Proof.
  assert (Hin : forall i : nat, (i < 2)%nat -> 1 + Z.of_nat i * 2 + 3 <= 7) by (intros; lia).
  assert (Hout : forall i : nat, (2 <= i < 4)%nat -> 7 < 1 + Z.of_nat i * 2 + 3)
    by (intros; lia).
  assert (Hmax : 1 + Z.of_nat 4 * 2 + 3 <= INT32_MAX) by (vm_compute; discriminate).
  assert (Hlen : (2 * Z.to_nat 3 <= length (replicate 12 (-1)%Q))%nat) by (simpl; lia).
  destruct (X16_unwrapSlices Qmult [1; 2; 3; 4; 5; 6; 7] [1; 10; 100]%Q 7 1 2 3 4 2
              (replicate 12 (-1)%Q) ltac:(lia) ltac:(lia) ltac:(lia) ltac:(lia)
              Hin Hout Hmax Hlen)
    as (_ & _ & slice' & E & _).
  exists slice'. split; [exact E|].
  vm_compute in E. injection E as <-. reflexivity.
Defined.

(** ** The amplitude graph *)
Section AmplitudeGraph.
Variable amplitude_row : Z -> Q -> Z.

Lemma window_range_spec (data : list Q) (count : nat) (p : nat) (lo hi : Q) :
  (lo <= hi)%Q ->
  let r := window_range data count p lo hi in
  (fst r <= lo)%Q /\ (hi <= snd r)%Q /\ (fst r <= snd r)%Q /\
  (forall i : nat, (i < count)%nat -> (fst r <= rdQ data (p + i) <= snd r)%Q).
Proof.
  revert p lo hi. induction count as [|c IH]; intros p lo hi Hle.
  - cbn [window_range fst snd]. split; [apply Qle_refl|]. split; [apply Qle_refl|].
    split; [exact Hle|]. intros; lia.
  - cbn [window_range].
    set (v := rdQ data p).
    set (lo' := if Qlt_bool v lo then v else lo).
    set (hi' := if Qlt_bool hi v then v else hi).
    assert (S : (lo' <= v)%Q /\ (lo' <= lo)%Q /\ (v <= hi')%Q /\ (hi <= hi')%Q).
    { unfold lo', hi'.
      destruct (Qlt_bool v lo) eqn:E1; destruct (Qlt_bool hi v) eqn:E2;
        try apply Qlt_bool_true in E1; try apply Qlt_bool_false in E1;
        try apply Qlt_bool_true in E2; try apply Qlt_bool_false in E2;
        repeat split; auto using Qle_refl, Qlt_le_weak. }
    destruct S as (S1 & S2 & S3 & S4).
    assert (Hle' : (lo' <= hi')%Q) by (apply (Qle_trans _ v); assumption).
    destruct (IH (S p) lo' hi' Hle') as (I1 & I2 & I3 & I4).
    split; [apply (Qle_trans _ lo'); assumption|].
    split; [apply (Qle_trans _ hi'); assumption|].
    split; [exact I3|].
    intros i Hi. destruct i as [|i].
    + rewrite Nat.add_0_r. fold v.
      split; [apply (Qle_trans _ lo'); assumption|apply (Qle_trans _ hi'); assumption].
    + replace (p + S i)%nat with (S p + i)%nat by lia. apply I4. lia.
Qed.

Section Column.
Variables graph_colour y_min y_max stride maxOffset H : Z.
Hypothesis rows_ordered : y_min <= y_max.
Hypothesis stride_pos : 1 <= stride.
Hypothesis height_small : 0 <= H < INT32_MAX.
Hypothesis maxOffset_small : maxOffset < 2 ^ 32.
Hypothesis stride_small : stride < 2 ^ 32.

(** The colour of row y (counted from the bottom, 1 to H). *)
Let shade (y : Z) : Z :=
  if (y_min <=? y) && (y <=? y_max) && (y_max <=? H) then graph_colour else 0.

Lemma draw_column_spec (count : nat) (colour offset : Z) (pixels : list Z) :
  Z.of_nat count <= H -> colour = shade (Z.of_nat count + 1) -> 0 <= offset ->
  offset + (Z.of_nat count - 1) * stride <= maxOffset \/ count = 0%nat ->
  maxOffset < Z.of_nat (length pixels) ->
  let pixels' :=
    draw_column graph_colour y_min y_max stride maxOffset count (Z.of_nat count)
      colour offset pixels in
  length pixels' = length pixels /\
  (forall j : nat, (j < count)%nat ->
     pixels' !! Z.to_nat (offset + Z.of_nat j * stride)
     = Some (to_uint16 (shade (Z.of_nat count - Z.of_nat j)))) /\
  (forall m : nat,
     (forall j : nat, (j < count)%nat -> m <> Z.to_nat (offset + Z.of_nat j * stride)) ->
     pixels' !! m = pixels !! m).
Proof.
  revert colour offset pixels.
  induction count as [|c IH]; intros colour offset pixels Hc Hcol Hoff Hfit Hlen.
  - cbn [draw_column]. split; [reflexivity|]. split; [intros; lia|]. reflexivity.
  - cbn [draw_column]. destruct Hfit as [Hfit|?]; [|lia].
    unfold INT32_MAX in height_small.
    rewrite !to_int32_small by (unfold in_int32, INT32_MIN, INT32_MAX; lia).
    set (y := Z.of_nat (S c)) in *.
    assert (Ecol : (if y + 1 =? y_min then 0
                    else if y =? y_max then graph_colour else colour) = shade y).
    { rewrite Hcol. unfold shade.
      destruct (Z.eqb_spec (y + 1) y_min); destruct (Z.eqb_spec y y_max);
        destruct (Z.leb_spec y_min y); destruct (Z.leb_spec y y_max);
        destruct (Z.leb_spec y_min (y + 1)); destruct (Z.leb_spec (y + 1) y_max);
        destruct (Z.leb_spec y_max H); cbn [andb]; try reflexivity; lia. }
    rewrite Ecol.
    assert (Hin : offset <= maxOffset) by nia.
    destruct (Z.leb_spec 0 offset); [|lia]. destruct (Z.leb_spec offset maxOffset); [|lia].
    cbn [andb].
    rewrite (Z.mod_small (offset + stride))
      by (change (2 ^ 64) with 18446744073709551616; change (2 ^ 32) with 4294967296 in *; lia).
    replace (y - 1) with (Z.of_nat c) by lia.
    destruct (IH (shade y) (offset + stride) (<[Z.to_nat offset := to_uint16 (shade y)]> pixels))
      as (I1 & I2 & I3).
    { lia. }
    { f_equal. lia. }
    { lia. }
    { destruct c as [|c]; [right; reflexivity|left]. nia. }
    { rewrite length_insert. exact Hlen. }
    split; [rewrite I1; apply length_insert|]. split.
    + intros j Hj. destruct j as [|j].
      * replace (offset + Z.of_nat 0 * stride) with offset by lia.
        rewrite I3.
        -- rewrite list_lookup_insert_eq by lia.
           replace (y - Z.of_nat 0) with y by lia. reflexivity.
        -- intros j Hj' E. apply Z2Nat.inj in E; nia.
      * replace (offset + Z.of_nat (S j) * stride) with (offset + stride + Z.of_nat j * stride)
          by lia.
        rewrite I2 by lia. do 3 f_equal. lia.
    + intros m Hm. rewrite I3.
      * apply list_lookup_insert_ne. intros E. apply (Hm 0%nat); [lia|].
        rewrite <- E. f_equal. lia.
      * intros j Hj E. apply (Hm (S j)); [lia|]. rewrite E. f_equal. lia.
Qed.

End Column.

Section Windows.
Variable st : colour_state.
Variable fs : fft_state.
Variable fftWindowSize : Z.
Variable data : list Q.
Variables height stride : Z.
Hypothesis row_monotone : forall a b : Q, (a <= b)%Q ->
  amplitude_row height a <= amplitude_row height b.
Hypothesis stride_pos : 1 <= stride.
Hypothesis height_pos : 1 <= height.
Hypothesis bitmap_small : height * stride < INT32_MAX.

(** The least and greatest sample of window w, and the colour of the pixel
    in row r (from the top) of its column. *)
Let range (w : nat) : Q * Q :=
  let base := (w * Z.to_nat (s_fft_window_size fs))%nat in
  window_range data (Z.to_nat (fftWindowSize - 1)) (S base) (rdQ data base) (rdQ data base).

Let pixel (w r : nat) : Z :=
  let y := height - Z.of_nat r in
  if (amplitude_row height (fst (range w)) <=? y)
     && (y <=? amplitude_row height (snd (range w)))
     && (amplitude_row height (snd (range w)) <=? height)
  then s_amplitude_graph_colour st else 0.

Lemma amplitude_windows_spec (count : nat) (wi : nat) (x : Z) (pixels : list Z) :
  0 <= x -> x + Z.of_nat count <= stride ->
  height * stride <= Z.of_nat (length pixels) ->
  let pixels' :=
    amplitude_windows amplitude_row st fs fftWindowSize data height stride
      (height * stride - 1) count wi x pixels in
  length pixels' = length pixels /\
  (forall w r : nat, (w < count)%nat -> Z.of_nat r < height ->
     pixels' !! Z.to_nat (Z.of_nat r * stride + x + Z.of_nat w)
     = Some (to_uint16 (pixel (wi + w) r))) /\
  (forall m : nat,
     (forall w r : nat, (w < count)%nat -> Z.of_nat r < height ->
        m <> Z.to_nat (Z.of_nat r * stride + x + Z.of_nat w)) ->
     pixels' !! m = pixels !! m).
Proof.
  revert wi x pixels. induction count as [|c IH]; intros wi x pixels Hx Hfit Hlen.
  - cbn [amplitude_windows]. split; [reflexivity|]. split; [intros; lia|]. reflexivity.
  - cbn [amplitude_windows]. fold (range wi).
    unfold INT32_MAX in bitmap_small.
    assert (Hh : height < 2147483647) by nia.
    assert (Hs : stride < 2147483647) by nia.
    rewrite !to_int32_small by (unfold in_int32, INT32_MIN, INT32_MAX; lia).
    destruct (bitmap_offset_value x (height - 1) height stride ltac:(lia) ltac:(lia)
                ltac:(lia)) as [E _].
    rewrite E. replace ((height - 1 - (height - 1)) * stride + x) with x by lia.
    set (y_min := amplitude_row height (fst (range wi))).
    set (y_max := amplitude_row height (snd (range wi))).
    assert (Hrows : y_min <= y_max).
    { apply row_monotone. unfold range.
      apply (window_range_spec data _ _ _ _ (Qle_refl _)). }
    destruct (draw_column_spec (s_amplitude_graph_colour st) y_min y_max stride
                (height * stride - 1) height Hrows stride_pos
                ltac:(unfold INT32_MAX; lia) ltac:(lia) ltac:(lia)
                (Z.to_nat height) 0 x pixels) as (D1 & D2 & D3).
    { lia. }
    { destruct (Z.leb_spec y_min (Z.of_nat (Z.to_nat height) + 1));
        destruct (Z.leb_spec (Z.of_nat (Z.to_nat height) + 1) y_max);
        destruct (Z.leb_spec y_max height); cbn [andb]; try reflexivity; lia. }
    { lia. }
    { left. nia. }
    { lia. }
    rewrite Z2Nat.id in D1, D2, D3 by lia.
    set (p1 := draw_column _ _ _ _ _ _ _ _ _ _) in *.
    destruct (IH (S wi) (x + 1) p1) as (I1 & I2 & I3); [lia|lia|lia|].
    split; [congruence|]. split.
    + intros w r Hw Hr. destruct w as [|w].
      * rewrite I3.
        -- replace (Z.of_nat r * stride + x + Z.of_nat 0) with (x + Z.of_nat r * stride) by lia.
           rewrite D2 by lia. rewrite Nat.add_0_r. reflexivity.
        -- intros w' r' Hw' Hr' Eq. apply Z2Nat.inj in Eq; [|nia|nia].
           assert (r = r').
           { destruct (Z_lt_ge_dec (Z.of_nat r) (Z.of_nat r')); [nia|].
             destruct (Z_lt_ge_dec (Z.of_nat r') (Z.of_nat r)); [nia|]. lia. }
           subst. lia.
      * replace (Z.of_nat r * stride + x + Z.of_nat (S w))
          with (Z.of_nat r * stride + (x + 1) + Z.of_nat w) by lia.
        rewrite I2 by lia. do 3 f_equal. lia.
    + intros m Hm. rewrite I3.
      * apply D3. intros j Hj Eq. apply (Hm 0%nat j); [lia|lia|]. rewrite Eq. f_equal. lia.
      * intros w r Hw Hr Eq. apply (Hm (S w) r); [lia|lia|]. rewrite Eq. f_equal. lia.
Qed.

(** X17.  What doAmplitude draws.  For n windows drawn from column x0 of a
    bitmap of [height] rows, with the row scaling monotone: the call returns
    n; column x0 + w shows window w as one vertical bar, the pixel in row r
    from the top (y = height - r) taking the graph colour exactly when
    y_min <= y <= y_max <= height, y_min and y_max being the scaled least and
    greatest sample of the window, and black otherwise; every sample of the
    window lies between that least and greatest value; and no pixel outside
    these n columns changes. *)
Theorem X17_doAmplitude_columns (n : nat) (x0 : Z) (pixels : list Z) :
  0 <= x0 -> x0 + Z.of_nat n <= stride ->
  height * stride <= Z.of_nat (length pixels) ->
  0 <= s_amplitude_graph_colour st < 2 ^ 16 ->
  let r := doAmplitude amplitude_row st fs (Z.of_nat n) fftWindowSize data x0 height stride
             pixels in
  snd r = Z.of_nat n /\
  length (fst r) = length pixels /\
  (forall w row : nat, (w < n)%nat -> Z.of_nat row < height ->
     let base := (w * Z.to_nat (s_fft_window_size fs))%nat in
     let range := window_range data (Z.to_nat (fftWindowSize - 1)) (S base)
                    (rdQ data base) (rdQ data base) in
     let y_min := amplitude_row height (fst range) in
     let y_max := amplitude_row height (snd range) in
     let y := height - Z.of_nat row in
     (forall i : nat, Z.of_nat i < fftWindowSize ->
        (fst range <= rdQ data (base + i) <= snd range)%Q) /\
     fst r !! Z.to_nat (Z.of_nat row * stride + x0 + Z.of_nat w)
     = Some (if (y_min <=? y) && (y <=? y_max) && (y_max <=? height)
             then s_amplitude_graph_colour st else 0)) /\
  (forall m : nat,
     (forall w row : nat, (w < n)%nat -> Z.of_nat row < height ->
        m <> Z.to_nat (Z.of_nat row * stride + x0 + Z.of_nat w)) ->
     fst r !! m = pixels !! m).
Proof.
  intros Hx Hfit Hlen Hcol r. unfold r, doAmplitude. cbn [fst snd].
  rewrite Nat2Z.id.
  assert (Emax : ((height * stride) mod 2 ^ 32 - 1) mod 2 ^ 32 = height * stride - 1).
  { unfold INT32_MAX in bitmap_small.
    rewrite (Z.mod_small (height * stride)) by (change (2 ^ 32) with 4294967296; nia).
    apply Z.mod_small. change (2 ^ 32) with 4294967296. nia. }
  rewrite Emax.
  destruct (amplitude_windows_spec n 0 x0 pixels Hx Hfit Hlen) as (W1 & W2 & W3).
  split; [lia|]. split; [exact W1|]. split; [|exact W3].
  intros w row Hw Hrow.
  set (base := (w * Z.to_nat (s_fft_window_size fs))%nat).
  set (rng := window_range data (Z.to_nat (fftWindowSize - 1)) (S base)
                (rdQ data base) (rdQ data base)).
  split.
  - intros i Hi.
    destruct (window_range_spec data (Z.to_nat (fftWindowSize - 1)) (S base)
                (rdQ data base) (rdQ data base) (Qle_refl _)) as (R1 & R2 & _ & R4).
    fold rng in R1, R2, R4. destruct i as [|i].
    + rewrite Nat.add_0_r. split; assumption.
    + replace (base + S i)%nat with (S base + i)%nat by lia. apply R4. lia.
  - rewrite W2 by assumption. f_equal. unfold pixel, range. cbn [Nat.add].
    fold base. fold rng.
    unfold to_uint16. destruct (_ && _ && _); [apply Z.mod_small; lia|reflexivity].
Qed.

End Windows.
End AmplitudeGraph.

Lemma amplitude_row_exact_monotone (height : Z) (a b : Q) :
  0 <= height -> (a <= b)%Q -> amplitude_row_exact height a <= amplitude_row_exact height b.
Proof.
  intros Hh Hab. unfold amplitude_row_exact. apply Qfloor_resp_le.
  apply Qmult_le_compat_r.
  - apply Qplus_le_compat; [exact Hab|apply Qle_refl].
  - apply Qle_shift_div_l; [reflexivity|].
    rewrite Qmult_0_l. change 0%Q with (inject_Z 0). rewrite <- Zle_Qle. exact Hh.
Qed.

Lemma X17_doAmplitude_witness :
  let st := fst (nativeInitialize initial_colour_state (Some [1]) 1 2016) in
  let r := doAmplitude amplitude_row_exact st (initFft 4) (Z.of_nat 2) 4
             [0; 16383; (-16384); 0; 32767; 32767; 32767; 32767]%Q 1 4 4 (replicate 16 9) in
  snd r = Z.of_nat 2 /\
  fst r = [9; 0; 2016; 9;
           9; 0; 0; 9;
           9; 2016; 0; 9;
           9; 2016; 0; 9].
Proof.
  intros st r.
  destruct (X17_doAmplitude_columns amplitude_row_exact st (initFft 4) 4
              [0; 16383; (-16384); 0; 32767; 32767; 32767; 32767]%Q 4 4
              (fun a b => amplitude_row_exact_monotone 4 a b ltac:(lia))
              ltac:(lia) ltac:(lia) ltac:(vm_compute; reflexivity)
              2 1 (replicate 16 9)
              ltac:(lia) ltac:(simpl; lia) ltac:(vm_compute; discriminate)
              ltac:(vm_compute; split; [discriminate|reflexivity]))
    as (R1 & _).
  split; [exact R1|]. vm_compute. reflexivity.
Defined.

(** ** From the recording to the spectrum *)
Section UnwrapThenTransform.
Variable fmul : Q -> Q -> Q.
Variable lib : float_library.

Lemma window_of_slice (slice : list Q) (N w : nat) (g : nat -> Q) :
  (forall k : nat, (k < N)%nat -> slice !! (w * N + k)%nat = Some (g k)) ->
  take N (drop (w * N) slice) = map g (seq 0 N).
Proof.
  intros Hg. apply list_eq. intros k.
  destruct (Nat.lt_ge_cases k N) as [Hk|Hk].
  - rewrite lookup_take_lt, lookup_drop, Hg by lia.
    rewrite list_lookup_fmap, lookup_seq_lt by lia. reflexivity.
  - rewrite lookup_take_ge by lia. symmetry. apply lookup_ge_None_2.
    rewrite length_map, length_seq. lia.
Qed.

(** X18.  unwrapSlices and doFft agree on the layout of the slice buffer.
    When doFft, set up for windows of N >= 1 samples, runs on the buffer that
    unwrapSlices filled with [fit] windows of N samples, and writes from
    [transformed_buffer_index] >= 0 on, the spectrum it writes for window
    w < fit is the transform of that window of the recording,
    [raw[start + w * stride + k] * window[k]] for k < N: bucket j of it lands
    in cell [transformed_buffer_index + w * B + j], as the dB value of lines
    241-262 in [float] arithmetic, no operation of which overflows. *)
Theorem X18_unwrap_then_transform (rawData : list Z) (windowData : list Q)
    (entries start stride N : Z) (fit : nat) (slice out : list Q)
    (fs : fft_state) (base : Z) (minDB : Q) (lo hi : Z) (thr : Q) :
  let recorded := fun (w : nat) =>
    map (fun k => fmul (inject_Z (raw_at rawData (start + Z.of_nat w * stride + Z.of_nat k)))
                    (rdQ windowData k))
      (seq 0 (Z.to_nat N)) in
  s_fft_window_size fs = N -> 1 <= N -> 0 <= stride -> 0 <= start -> 0 <= base ->
  (forall i : nat, (i < fit)%nat -> start + Z.of_nat i * stride + N <= entries) ->
  start + Z.of_nat fit * stride + N <= INT32_MAX ->
  (fit * Z.to_nat N <= length slice)%nat ->
  (Z.to_nat base + fit * Z.to_nat (s_fft_frequency_buckets fs) <= length out)%nat ->
  (forall w j : nat, (w < fit)%nat -> (j < Z.to_nat (s_fft_frequency_buckets fs))%nat ->
     bucket_finite lib (fft_normalizer2 fs) (cpx_at (kiss_fftr lib N (recorded w)) j) = true) ->
  let slice' :=
    default [] (fst (unwrapSlices fmul (Some rawData) entries start (Z.of_nat fit) stride
                       windowData N (Some slice))) in
  let out' := fst (fst (doFft lib fs (Z.of_nat fit) slice' out base minDB lo hi thr)) in
  forall w j : nat, (w < fit)%nat -> (j < Z.to_nat (s_fft_frequency_buckets fs))%nat ->
    out' !! (Z.to_nat base + w * Z.to_nat (s_fft_frequency_buckets fs) + j)%nat
    = Some (bucket_dB lib (fft_normalizer2 fs) minDB (cpx_at (kiss_fftr lib N (recorded w)) j)).
Proof.
  intros recorded HfsN HN Hs Hst Hbase Hin Hmax Hlen Hout Hfin slice' out' w j Hw Hj.
  subst N. unfold out', doFft. cbn [fst snd]. rewrite Nat2Z.id.
  destruct (fft_windows_spec lib fs slice' (fft_normalizer2 fs) minDB thr base lo hi
              fit 0
              {| fl_transformedData := out; fl_transformedIndex := 0; fl_triggered := false |}
              Hbase)
    as (_ & _ & W3 & _).
  { cbn [fl_transformedData fl_transformedIndex]. lia. }
  cbn [fl_transformedData fl_transformedIndex] in W3.
  specialize (W3 w j Hw Hj). rewrite Nat.add_0_r in W3.
  rewrite W3. cbn [Nat.add]. do 4 f_equal.
  apply window_of_slice. intros k Hk.
  unfold slice', unwrapSlices. cbn [fst default]. rewrite Nat2Z.id.
  destruct (unwrap_windows_spec fmul rawData windowData entries stride
              (s_fft_window_size fs) fit ltac:(lia) Hs
              fit start 0%nat slice ltac:(lia) Hst Hin ltac:(intros; lia) Hmax ltac:(lia))
    as (_ & _ & R3 & _).
  rewrite <- (R3 w k Hw ltac:(lia)). f_equal.
Qed.

End UnwrapThenTransform.

Lemma X18_unwrap_then_transform_witness :
  let slice' :=
    default [] (fst (unwrapSlices Qmult (Some [1; 2; 3; 4; 5; 6]) 6 0 (Z.of_nat 2) 2
                       [1; 1; 1; 1]%Q 4 (Some (replicate 8 0%Q)))) in
  let out' := fst (fst (doFft float_library_4 (initFft 4) (Z.of_nat 2) slice'
                          (replicate 6 0%Q) 0 (-100)%Q 0 0 0%Q)) in
  slice' = [1; 2; 3; 4; 3; 4; 5; 6]%Q /\
  out' !! 3%nat
  = Some (bucket_dB float_library_4 (fft_normalizer2 (initFft 4)) (-100)%Q
            (cpx_at (dft4 [3; 4; 5; 6]%Q) 0)).
Proof.
  intros slice' out'. split; [vm_compute; reflexivity|].
  assert (Hin : forall i : nat, (i < 2)%nat -> 0 + Z.of_nat i * 2 + 4 <= 6) by (intros; lia).
  assert (Hfin : forall w j : nat, (w < 2)%nat ->
            (j < Z.to_nat (s_fft_frequency_buckets (initFft 4)))%nat ->
            bucket_finite float_library_4 (fft_normalizer2 (initFft 4))
              (cpx_at
                 (kiss_fftr float_library_4 4
                    (map (fun k => Qmult (inject_Z (raw_at [1; 2; 3; 4; 5; 6]
                                                      (0 + Z.of_nat w * 2 + Z.of_nat k)))
                                     (rdQ [1; 1; 1; 1]%Q k))
                       (seq 0 (Z.to_nat 4))))
                 j) = true).
  { intros w j Hw Hj. change (Z.to_nat (s_fft_frequency_buckets (initFft 4))) with 3%nat in Hj.
    destruct w as [|[|w]]; [| |lia]; destruct j as [|[|[|j]]]; try lia;
      vm_compute; reflexivity. }
  exact (X18_unwrap_then_transform Qmult float_library_4 [1; 2; 3; 4; 5; 6] [1; 1; 1; 1]%Q
           6 0 2 4 2 (replicate 8 0%Q) (replicate 6 0%Q) (initFft 4) 0 (-100)%Q 0 0 0%Q
           eq_refl ltac:(lia) ltac:(lia) ltac:(lia) ltac:(lia) Hin
           ltac:(vm_compute; discriminate)
           ltac:(simpl; lia) ltac:(vm_compute; lia) Hfin 1%nat 0%nat ltac:(lia)
           ltac:(vm_compute; lia)).
Defined.
